(** * The YouTube audio-extraction backend: a shallow embedding

    This development embeds the three services of the backend,

      - [YouTubeService]          (services/youtubeService.js),
      - [AudioProcessingService]  (services/audioProcessingService.js),
      - [AudioExtractionService]  (services/audioExtractionService.js),

    and the request handlers that call them,

      - [audioController]         (controllers/audioController.js),

    and states the properties of the staged pipeline, of the single
    services and of the handlers over the embedding.

    Text is modelled as Rocq strings, which stand for the JavaScript
    strings whose code units are all below 256; where the code looks at
    the units of any string (the patterns of the validator, the cut of a
    description), strings are sequences of UTF-16 code units
    ([ustring]).  What a request hands over is a [jsval], a string or
    not.  Objects used as maps ([results.steps], [results.files]) are
    [gmap string _], the file system is two finite sets of paths, and
    the external collaborators (uuid, the clock, the file system,
    youtube-dl, ffmpeg, ffprobe) are oracles of a [World] that are asked
    in program order and answer knowing everything that was asked
    before. *)

From Stdlib Require Import Ascii String ZArith Decimal DecimalString Lia.
From stdpp Require Import base option list gmap strings.

Local Open Scope Z_scope.
Local Open Scope stdpp_scope.

(** ** Regular expressions, as the JavaScript engine runs them *)

Module RegExp.

(** One member of a character class [[...]]. *)
Inductive citem :=
| CChar (c : ascii)           (* a literal character          *)
| CRange (lo hi : ascii)      (* a range [lo-hi]              *)
| CWord.                      (* the escape \w                *)

(** Pattern syntax, restricted to what the sources use.  A non-capturing
    group [(?:r)] is [r] itself; [r+] is [Seq r (Star r)]. *)
Inductive regex :=
| Eps
| Lit (c : ascii)
| Dot
| Set_ (negated : bool) (items : list citem)
| Seq (r1 r2 : regex)
| Alt (r1 r2 : regex)
| Opt (r : regex)
| Star (r : regex)
| Group (n : nat) (r : regex)
| Bol.

Definition Plus (r : regex) : regex := Seq r (Star r).

(** The literal text [s], character by character. *)
Fixpoint Str (s : string) : regex :=
  match s with
  | EmptyString => Eps
  | String c EmptyString => Lit c
  | String c s' => Seq (Lit c) (Str s')
  end.

Definition code (c : ascii) : N := N_of_ascii c.

Definition in_range (lo hi c : ascii) : bool :=
  (code lo <=? code c)%N && (code c <=? code hi)%N.

(** [\w] is [[A-Za-z0-9_]]. *)
Definition is_word (c : ascii) : bool :=
  in_range "a" "z" c || in_range "A" "Z" c || in_range "0" "9" c
  || Ascii.eqb c "_".

(** [.] matches everything but a line terminator (no [s] flag); LF
    and CR are the ones among the 8-bit characters ([Utf16] has all
    four). *)
Definition is_line_terminator (c : ascii) : bool :=
  Ascii.eqb c "010" || Ascii.eqb c "013".

Definition item_has (c : ascii) (it : citem) : bool :=
  match it with
  | CChar a => Ascii.eqb c a
  | CRange lo hi => in_range lo hi c
  | CWord => is_word c
  end.

Definition set_has (negated : bool) (items : list citem) (c : ascii) : bool :=
  xorb negated (existsb (item_has c) items).

(** Captures: group number to captured text (absent = [undefined]). *)
Definition caps := list (nat * string).

Fixpoint cap_get (n : nat) (c : caps) : option string :=
  match c with
  | [] => None
  | (m, s) :: c' => if Nat.eqb n m then Some s else cap_get n c'
  end.

Section Matcher.
Context {A : Type}.

(** A continuation receives the index reached, the input that is left
    and the captures so far. *)
Definition cont := nat -> list ascii -> caps -> option A.

Definition one (p : ascii -> bool) (i : nat) (s : list ascii) (c : caps)
           (k : cont) : option A :=
  match s with
  | x :: s' => if p x then k (S i) s' c else None
  | [] => None
  end.

(** Greedy repetition: try one more round of [m], which has to consume
    something, before giving the rest to [k].  [n] bounds the number of
    rounds; the input length is enough. *)
Fixpoint star_loop (m : nat -> list ascii -> caps -> cont -> option A)
         (k : cont) (n : nat) (i : nat) (s : list ascii) (c : caps)
  : option A :=
  match n with
  | O => k i s c
  | S n' =>
      match m i s c (fun i' s' c' =>
                       if (length s' <? length s)%nat
                       then star_loop m k n' i' s' c' else None) with
      | Some a => Some a
      | None => k i s c
      end
  end.
End Matcher.

(** The backtracking matcher: alternatives left to right, quantifiers
    greedy, [^] only at index 0 (no [m] flag). *)
Fixpoint bt {A} (r : regex) (i : nat) (s : list ascii) (c : caps)
         (k : cont (A:=A)) {struct r} : option A :=
  match r with
  | Eps => k i s c
  | Lit a => one (Ascii.eqb a) i s c k
  | Dot => one (fun x => negb (is_line_terminator x)) i s c k
  | Set_ neg items => one (set_has neg items) i s c k
  | Seq r1 r2 => bt r1 i s c (fun i' s' c' => bt r2 i' s' c' k)
  | Alt r1 r2 =>
      match bt r1 i s c k with
      | Some a => Some a
      | None => bt r2 i s c k
      end
  | Opt r1 =>
      match bt r1 i s c (fun i' s' c' =>
                           if (length s' <? length s)%nat
                           then k i' s' c' else None) with
      | Some a => Some a
      | None => k i s c
      end
  | Star r1 => star_loop (bt r1) k (length s) i s c
  | Group n r1 =>
      bt r1 i s c (fun i' s' c' =>
        k i' s' ((n, string_of_list_ascii (take (i' - i) s)) :: c'))
  | Bol => if Nat.eqb i 0 then k i s c else None
  end.

(** The result of [RegExp.prototype.exec]: index of the match and the
    captures. *)
Record match_result := { m_index : nat; m_caps : caps }.

(** Try every start index in turn, leftmost first. *)
Fixpoint search (r : regex) (i : nat) (s : list ascii) : option match_result :=
  match bt r i s [] (fun _ _ c => Some c) with
  | Some c => Some {| m_index := i; m_caps := c |}
  | None =>
      match s with
      | [] => None
      | _ :: s' => search r (S i) s'
      end
  end.

(** [pattern.exec(str)] and [str.match(pattern)] (no [g] flag). *)
Definition exec (r : regex) (str : string) : option match_result :=
  search r 0 (list_ascii_of_string str).

(** [pattern.test(str)]. *)
Definition test (r : regex) (str : string) : bool :=
  match exec r str with Some _ => true | None => false end.

(** [match[n]] *)
Definition group (n : nat) (m : match_result) : option string :=
  cap_get n (m_caps m).

End RegExp.

Import RegExp.

Declare Scope regex_scope.
Delimit Scope regex_scope with re.
Infix "⋅" := Seq (at level 41, right associativity) : regex_scope.
Infix "∣" := Alt (at level 42, right associativity) : regex_scope.

(** A JavaScript string in full is a sequence of UTF-16 code units; a
    [string] is one whose units are all below 256. *)
Definition ustring : Type := list N.

(** The code units of a string of 8-bit characters. *)
Definition units (s : string) : ustring := code <$> list_ascii_of_string s.

(** ** YouTubeService: reference validation and id extraction *)

Module YouTubeUrl.

(** [[\w-]] *)
Definition id_class : regex := Set_ false [CWord; CChar "-"].

(** [[^&\?\/]] *)
Definition capture_class : regex :=
  Set_ true [CChar "&"; CChar "?"; CChar "/"].

(** [/^(https?:\/\/)?(www\.)?(youtube\.com\/watch\?v=|youtu\.be\/)[\w-]+/] *)
Definition valid_pattern_1 : regex :=
  (Bol
   ⋅ Opt (Group 1 (Str "http" ⋅ Opt (Lit "s") ⋅ Str "://"))
   ⋅ Opt (Group 2 (Str "www."))
   ⋅ Group 3 (Str "youtube.com/watch?v=" ∣ Str "youtu.be/")
   ⋅ Plus id_class)%re.

(** [/^(https?:\/\/)?(www\.)?youtube\.com\/watch\?.*v=[\w-]+/] *)
Definition valid_pattern_2 : regex :=
  (Bol
   ⋅ Opt (Group 1 (Str "http" ⋅ Opt (Lit "s") ⋅ Str "://"))
   ⋅ Opt (Group 2 (Str "www."))
   ⋅ Str "youtube.com/watch?"
   ⋅ Star Dot
   ⋅ Str "v="
   ⋅ Plus id_class)%re.

(** [isValidYouTubeUrl(url)]: [patterns.some(pattern => pattern.test(url))] *)
Definition isValidYouTubeUrl (url : string) : bool :=
  existsb (fun pattern => test pattern url) [valid_pattern_1; valid_pattern_2].

(** [/(?:youtube\.com\/watch\?v=|youtu\.be\/)([^&\?\/]+)/] *)
Definition id_pattern_1 : regex :=
  ((Str "youtube.com/watch?v=" ∣ Str "youtu.be/")
   ⋅ Group 1 (Plus capture_class))%re.

(** [/youtube\.com\/embed\/([^&\?\/]+)/] *)
Definition id_pattern_2 : regex :=
  (Str "youtube.com/embed/" ⋅ Group 1 (Plus capture_class))%re.

(** The loop of [extractVideoId]: the first pattern with a match whose
    group 1 is truthy decides; [None] is [null]. *)
Fixpoint first_id (patterns : list regex) (url : string) : option string :=
  match patterns with
  | [] => None
  | pattern :: rest =>
      match exec pattern url with
      | Some m =>
          match group 1 m with
          | Some (String a s) => Some (String a s)
          | _ => first_id rest url
          end
      | None => first_id rest url
      end
  end.

Definition extractVideoId (url : string) : option string :=
  first_id [id_pattern_1; id_pattern_2] url.

End YouTubeUrl.

(** ** The declarative reading of a pattern

    [matches r i w]: the pattern [r] matches exactly the word [w], which
    starts at index [i] of the subject. *)

Inductive star (P : nat -> list ascii -> Prop) : nat -> list ascii -> Prop :=
| star_nil i : star P i []
| star_cons i w1 w2 :
    P i w1 -> star P (i + length w1)%nat w2 -> star P i (w1 ++ w2).

Fixpoint matches (r : regex) (i : nat) (w : list ascii) : Prop :=
  match r with
  | Eps => w = []
  | Lit a => w = [a]
  | Dot => exists x, w = [x] /\ is_line_terminator x = false
  | Set_ neg items => exists x, w = [x] /\ set_has neg items x = true
  | Seq r1 r2 =>
      exists w1 w2, w = w1 ++ w2 /\ matches r1 i w1
                    /\ matches r2 (i + length w1)%nat w2
  | Alt r1 r2 => matches r1 i w \/ matches r2 i w
  | Opt r1 => w = [] \/ matches r1 i w
  | Star r1 => star (matches r1) i w
  | Group _ r1 => matches r1 i w
  | Bol => w = [] /\ i = 0%nat
  end.

(** ** The two accepted reference families, on strings of 8-bit characters *)

Module Reference.

(** An optional scheme, [http://] or [https://]. *)
Definition scheme (s : string) : Prop :=
  s = "" \/ s = "http://" \/ s = "https://".

(** An optional [www.] host prefix. *)
Definition www (s : string) : Prop := s = "" \/ s = "www.".

(** A letter, a digit, an underscore or a hyphen. *)
Definition id_char (c : ascii) : bool :=
  is_word c || Ascii.eqb c "-".

(** A non-empty run of id characters. *)
Definition id (s : string) : Prop :=
  s <> "" /\ Forall (fun c => id_char c = true) (list_ascii_of_string s).

(** No line break inside. *)
Definition single_line (s : string) : Prop :=
  Forall (fun c => is_line_terminator c = false) (list_ascii_of_string s).

(** Canonical watch-page form: the watch page of youtube.com with a
    [v=] parameter somewhere in its query; anything may follow the id. *)
Definition watch_page_form (url : string) : Prop :=
  exists sch w query i rest,
    url = sch +:+ w +:+ "youtube.com/watch?" +:+ query +:+ "v=" +:+ i +:+ rest
    /\ scheme sch /\ www w /\ single_line query /\ id i.

(** Short-link form: youtu.be followed by the id; anything may follow. *)
Definition short_link_form (url : string) : Prop :=
  exists sch w i rest,
    url = sch +:+ w +:+ "youtu.be/" +:+ i +:+ rest
    /\ scheme sch /\ www w /\ id i.

End Reference.

(** ** The validator on every string

    The engine matches a pattern without the [u] flag code unit by code
    unit.  On the units below 256, which are all that a [string] holds,
    LF and CR are the only line terminators.  What [isValidYouTubeUrl]
    answers on every JavaScript string is read off the same engine run
    on code units, where [.] also stops at the line separator U+2028 and
    the paragraph separator U+2029. *)

Module Utf16.

Definition in_range (lo hi : ascii) (c : N) : bool :=
  (code lo <=? c)%N && (c <=? code hi)%N.

(** [\w] is [[A-Za-z0-9_]]. *)
Definition is_word (c : N) : bool :=
  in_range "a" "z" c || in_range "A" "Z" c || in_range "0" "9" c
  || (c =? code "_")%N.

(** [.] matches everything but a line terminator (no [s] flag): LF, CR,
    U+2028 and U+2029. *)
Definition is_line_terminator (c : N) : bool :=
  (c =? 10)%N || (c =? 13)%N || (c =? 0x2028)%N || (c =? 0x2029)%N.

Definition item_has (c : N) (it : citem) : bool :=
  match it with
  | CChar a => (c =? code a)%N
  | CRange lo hi => in_range lo hi c
  | CWord => is_word c
  end.

Definition set_has (negated : bool) (items : list citem) (c : N) : bool :=
  xorb negated (existsb (item_has c) items).

Definition caps := list (nat * ustring).

Section Matcher.
Context {A : Type}.

Definition cont := nat -> list N -> caps -> option A.

Definition one (p : N -> bool) (i : nat) (s : list N) (c : caps)
           (k : cont) : option A :=
  match s with
  | x :: s' => if p x then k (S i) s' c else None
  | [] => None
  end.

Fixpoint star_loop (m : nat -> list N -> caps -> cont -> option A)
         (k : cont) (n : nat) (i : nat) (s : list N) (c : caps)
  : option A :=
  match n with
  | O => k i s c
  | S n' =>
      match m i s c (fun i' s' c' =>
                       if (length s' <? length s)%nat
                       then star_loop m k n' i' s' c' else None) with
      | Some a => Some a
      | None => k i s c
      end
  end.
End Matcher.

(** The backtracking matcher of [RegExp], on code units. *)
Fixpoint bt {A} (r : regex) (i : nat) (s : list N) (c : caps)
         (k : cont (A:=A)) {struct r} : option A :=
  match r with
  | Eps => k i s c
  | Lit a => one (N.eqb (code a)) i s c k
  | Dot => one (fun x => negb (is_line_terminator x)) i s c k
  | Set_ neg items => one (set_has neg items) i s c k
  | Seq r1 r2 => bt r1 i s c (fun i' s' c' => bt r2 i' s' c' k)
  | Alt r1 r2 =>
      match bt r1 i s c k with
      | Some a => Some a
      | None => bt r2 i s c k
      end
  | Opt r1 =>
      match bt r1 i s c (fun i' s' c' =>
                           if (length s' <? length s)%nat
                           then k i' s' c' else None) with
      | Some a => Some a
      | None => k i s c
      end
  | Star r1 => star_loop (bt r1) k (length s) i s c
  | Group n r1 =>
      bt r1 i s c (fun i' s' c' => k i' s' ((n, take (i' - i) s) :: c'))
  | Bol => if Nat.eqb i 0 then k i s c else None
  end.

Record match_result := { m_index : nat; m_caps : caps }.

Fixpoint search (r : regex) (i : nat) (s : list N) : option match_result :=
  match bt r i s [] (fun _ _ c => Some c) with
  | Some c => Some {| m_index := i; m_caps := c |}
  | None =>
      match s with
      | [] => None
      | _ :: s' => search r (S i) s'
      end
  end.

Definition exec (r : regex) (str : ustring) : option match_result :=
  search r 0 str.

Definition test (r : regex) (str : ustring) : bool :=
  match exec r str with Some _ => true | None => false end.

(** [isValidYouTubeUrl(url)] on any string. *)
Definition isValidYouTubeUrl (url : ustring) : bool :=
  existsb (fun pattern => test pattern url)
          [YouTubeUrl.valid_pattern_1; YouTubeUrl.valid_pattern_2].

(** *** The declarative reading, on code units *)

Inductive star (P : nat -> list N -> Prop) : nat -> list N -> Prop :=
| star_nil i : star P i []
| star_cons i w1 w2 :
    P i w1 -> star P (i + length w1)%nat w2 -> star P i (w1 ++ w2).

Fixpoint matches (r : regex) (i : nat) (w : list N) : Prop :=
  match r with
  | Eps => w = []
  | Lit a => w = [code a]
  | Dot => exists x, w = [x] /\ is_line_terminator x = false
  | Set_ neg items => exists x, w = [x] /\ set_has neg items x = true
  | Seq r1 r2 =>
      exists w1 w2, w = w1 ++ w2 /\ matches r1 i w1
                    /\ matches r2 (i + length w1)%nat w2
  | Alt r1 r2 => matches r1 i w \/ matches r2 i w
  | Opt r1 => w = [] \/ matches r1 i w
  | Star r1 => star (matches r1) i w
  | Group _ r1 => matches r1 i w
  | Bol => w = [] /\ i = 0%nat
  end.

(** *** The two accepted reference families, on any string *)

(** An optional scheme, [http://] or [https://]. *)
Definition scheme (s : ustring) : Prop :=
  s = [] \/ s = units "http://" \/ s = units "https://".

(** An optional [www.] host prefix. *)
Definition www (s : ustring) : Prop := s = [] \/ s = units "www.".

(** A letter, a digit, an underscore or a hyphen. *)
Definition id_unit (c : N) : bool := is_word c || (c =? code "-")%N.

(** A non-empty run of id characters. *)
Definition id (s : ustring) : Prop :=
  s <> [] /\ Forall (fun c => id_unit c = true) s.

(** No line terminator inside. *)
Definition single_line (s : ustring) : Prop :=
  Forall (fun c => is_line_terminator c = false) s.

(** Canonical watch-page form: the watch page of youtube.com with a
    [v=] parameter somewhere in its query; anything may follow the id. *)
Definition watch_page_form (url : ustring) : Prop :=
  exists sch w query i rest,
    url = sch ++ w ++ units "youtube.com/watch?" ++ query ++ units "v="
              ++ i ++ rest
    /\ scheme sch /\ www w /\ single_line query /\ id i.

(** Short-link form: youtu.be followed by the id; anything may follow. *)
Definition short_link_form (url : ustring) : Prop :=
  exists sch w i rest,
    url = sch ++ w ++ units "youtu.be/" ++ i ++ rest
    /\ scheme sch /\ www w /\ id i.

End Utf16.

(** The captures of the 8-bit engine, as code units. *)
Definition unit_caps (c : caps) : Utf16.caps :=
  (fun p => (p.1, units p.2)) <$> c.

(** ** JavaScript values and helpers *)

(** Thrown and rejected values are [Error]s with a [message]. *)
Record Error := { message : string }.

(** The values a property of the request body can hold, and
    [undefined] for a property that is not there.  A number is given by
    the text it is converted to ([String(n)]): nothing else of a number
    is looked at here. *)
#[local] Unset Elimination Schemes.
Inductive jsval :=
| JUndefined
| JNull
| JBool (b : bool)
| JNum (text : string)
| JStr (s : string)
| JArr (items : list jsval)
| JObj (properties : list (string * jsval)).
#[local] Set Elimination Schemes.

(** A text is a value. *)
Coercion JStr : string >-> jsval.

(** [!!v]: [undefined], [null], [false], the numbers [0] and [NaN] and
    the empty string are falsy. *)
Definition ToBoolean (v : jsval) : bool :=
  match v with
  | JUndefined | JNull => false
  | JBool b => b
  | JNum text => negb (String.eqb text "0" || String.eqb text "NaN")
  | JStr s => negb (String.eqb s "")
  | JArr _ | JObj _ => true
  end.

(** [array.join(sep)] *)
Fixpoint Array_join (sep : string) (l : list string) : string :=
  match l with
  | [] => ""
  | [x] => x
  | x :: l' => x +:+ sep +:+ Array_join sep l'
  end.

(** [String(v)] and [`${v}`], [None] when the conversion throws.  An
    array is the [join] of its elements, in which [undefined] and [null]
    count as empty.  An object of a request body holds data only: it is
    [[object Object]], unless it has a property [toString] of its own,
    which is not a function and hides the inherited one; then there is no
    way to convert it. *)
Fixpoint text_of (v : jsval) : option string :=
  match v with
  | JUndefined => Some "undefined"
  | JNull => Some "null"
  | JBool b => Some (if b then "true" else "false")
  | JNum text => Some text
  | JStr s => Some s
  | JArr items =>
      Array_join ","
        <$> mapM (fun x => match x with
                           | JUndefined | JNull => Some ""
                           | _ => text_of x
                           end) items
  | JObj properties =>
      if existsb (fun p => String.eqb p.1 "toString") properties
      then None else Some "[object Object]"
  end.

(** [v !== false] *)
Definition strict_neq_false (v : jsval) : bool :=
  match v with JBool false => false | _ => true end.

(** [a || b] on strings: the empty string is falsy. *)
Definition or_else (a b : string) : string :=
  match a with EmptyString => b | _ => a end.

(** [`${n}`] for an integer. *)
Definition Number_toString (z : Z) : string :=
  NilZero.string_of_int (Z.to_int z).

(** [v || null] for a string that may be missing. *)
Definition or_null_value (v : option string) : option string :=
  match v with
  | Some (String a s) => Some (String a s)
  | _ => None
  end.

(** [`${v}`] for [string | null] and for a possibly missing property. *)
Definition or_null (v : option string) : string := default "null" v.
Definition or_undefined (v : option string) : string := default "undefined" v.

Definition NL : string := String "010" "".

(** *** [path] (POSIX) *)

Definition is_slash (c : ascii) : bool := Ascii.eqb c "/".

Fixpoint drop_while {A} (p : A -> bool) (l : list A) : list A :=
  match l with
  | x :: l' => if p x then drop_while p l' else l
  | [] => []
  end.

Fixpoint take_while {A} (p : A -> bool) (l : list A) : list A :=
  match l with
  | x :: l' => if p x then x :: take_while p l' else []
  | [] => []
  end.

(** [path.dirname]: scanning from the end down to index 1, trailing
    slashes are skipped and the path is cut at the next slash. *)
Definition path_dirname (p : string) : string :=
  match p with
  | EmptyString => "."
  | String c0 rest =>
      let r1 := drop_while is_slash (rev (list_ascii_of_string rest)) in
      match drop_while (fun c => negb (is_slash c)) r1 with
      | [] => if is_slash c0 then "/" else "."
      | _ :: r3 =>
          match r3 with
          | [] => if is_slash c0 then "//" else String c0 ""
          | _ => String c0 (string_of_list_ascii (rev r3))
          end
      end
  end.

(** [path.basename]: the last segment, trailing slashes skipped. *)
Definition path_basename (p : string) : string :=
  let r1 := drop_while is_slash (rev (list_ascii_of_string p)) in
  string_of_list_ascii (rev (take_while (fun c => negb (is_slash c)) r1)).

(** [path.join(dir, name)].  The directories joined here come out of
    [path.join] themselves and the names are single segments that are
    neither [.] nor [..], so normalisation has nothing to do and the
    result is the two parts around one separator. *)
Definition path_join (dir name : string) : string := dir +:+ "/" +:+ name.

(** ** Configuration (config/config.js) *)

Record AudioConfig := {
  sampleRate : Z;
  channels : Z;
  highPassFilter : Z;
  lowPassFilter : Z;
  silenceThreshold : Z
}.

Record Config := {
  tempDir : string;
  outputDir : string;
  audio : AudioConfig
}.

(** The shipped values; [root] is the directory two levels above
    config.js. *)
Definition config (root : string) : Config :=
  {| tempDir := path_join root "temp";
     outputDir := path_join root "output";
     audio := {| sampleRate := 44100; channels := 1;
                 highPassFilter := 80; lowPassFilter := 8000;
                 silenceThreshold := -30 |} |}.

(** ** Data exchanged with the collaborators *)

(** The document youtube-dl dumps, as far as the service reads it. *)
Record VideoInfo := {
  info_title : option string;
  info_duration : option Z;
  info_uploader : option string;
  info_upload_date : option string;
  info_description : option ustring
}.

(** [downloadResult.metadata] *)
Record VideoMetadata := {
  title : option string;
  duration : option Z;
  uploader : option string;
  uploadDate : option string;
  description : option ustring
}.

(** What ffprobe reports. *)
Record ProbeStream := {
  codec_type : string;
  sample_rate : option Z;
  stream_channels : option Z;
  codec_name : option string
}.

Record ProbeFormat := {
  format_duration : option Z;
  bit_rate : option Z
}.

Record ProbeData := {
  streams : list ProbeStream;
  format : ProbeFormat
}.

(** [metadataResult.metadata] *)
Record AudioMetadata := {
  am_duration : option Z;
  am_bitRate : option Z;
  am_sampleRate : option Z;
  am_channels : option Z;
  am_codec : option string
}.

(** One fluent-ffmpeg command, as the builder calls set it up. *)
Record FfmpegCommand := {
  input : string;
  noVideo : bool;
  audioFilters : option string;
  audioCodec : option string;
  audioFrequency : option Z;
  audioChannels : option Z;
  audioBitrate : option string;
  output : string
}.

(** The uniform result of a stage:
    [{success, filePath?, error?, metadata?}]. *)
Module Step.
Record result := {
  success : bool;
  filePath : option string;
  error : option string;
  metadata : option VideoMetadata
}.
End Step.

(** The result of [getAudioMetadata]. *)
Module Meta.
Record result := {
  success : bool;
  metadata : option AudioMetadata;
  error : option string
}.
End Meta.

(** The [results] object of a job; [steps] and [files] are keyed by stage
    name. *)
Module Results.
Record t := {
  jobId : string;
  videoId : option string;
  steps : gmap string Step.result;
  files : gmap string string;
  metadata : option VideoMetadata;
  audioMetadata : option AudioMetadata
}.
End Results.

Record OutputFiles := {
  wav : string;
  mp3 : option string
}.

(** What [extractAndCleanAudio] and [quickExtract] return; [None] is an
    absent (or undefined) property, [videoId = Some None] is [null]. *)
Module Job.
Record result := {
  success : bool;
  error : option string;
  details : option string;
  jobId : string;
  videoId : option (option string);
  metadata : option VideoMetadata;
  audioMetadata : option AudioMetadata;
  outputFiles : option OutputFiles;
  message : option string;
  results : option Results.t
}.
End Job.

(** ** The world: calls to the collaborators and their replies *)

Inductive call :=
| Uuidv4
| DateNow
| Mkdir (dir : string)                    (* fs.mkdir(dir, {recursive})   *)
| YoutubeDlJson (url : jsval)             (* youtubedl, dumpSingleJson    *)
| YoutubeDlAudio (url : jsval) (out : string)   (* youtubedl, extractAudio *)
| Ffmpeg (cmd : FfmpegCommand)            (* command.run()                *)
| Ffprobe (file : string)                 (* ffmpeg.ffprobe(file, cb)     *)
| Unlink (file : string).                 (* fs.unlink(file)              *)

Inductive reply :=
| Done
| Failed (e : Error)
| GotString (s : string)
| GotNumber (z : Z)
| GotInfo (info : VideoInfo)
| GotProbe (data : ProbeData).

Abbreviation event := (call * reply)%type.

(** Each oracle sees the calls made so far (newest first). *)
Record World := {
  w_uuidv4 : list event -> string;
  w_now : list event -> Z;
  w_mkdir : list event -> string -> option Error;
  w_json : list event -> string -> Error + VideoInfo;
  w_audio : list event -> string -> string -> option Error;
  w_ffmpeg : list event -> FfmpegCommand -> option Error;
  w_ffprobe : list event -> string -> Error + ProbeData;
  w_unlink : list event -> string -> option Error;
  (* the error of [fs.unlink] on a path that is not a file: ENOENT when
     nothing is there, EISDIR or EPERM on a directory, ... *)
  w_unlink_missing : list event -> string -> Error;
  (* what a run of an engine that fails leaves on disk: a partial
     download, an output file that was opened, ... *)
  w_debris : list event -> call -> gset string
}.

Inductive level := LLog | LWarn | LError.

(** The state a job runs in: the calls made (newest first), the console
    (newest first), and the files and directories on disk. *)
Record state := {
  log : list event;
  console : list (level * string);
  files : gset string;
  dirs : gset string
}.

Definition initial (fs ds : gset string) : state :=
  {| log := []; console := []; files := fs; dirs := ds |}.

(** The calls in the order they were made. *)
Definition trace (st : state) : list event := reverse (log st).

Definition record (c : call) (r : reply) (st : state) : state :=
  {| log := (c, r) :: log st; console := console st;
     files := files st; dirs := dirs st |}.

Definition print (l : level) (msg : string) (st : state) : state :=
  {| log := log st; console := (l, msg) :: console st;
     files := files st; dirs := dirs st |}.

Definition add_file (p : string) (st : state) : state :=
  {| log := log st; console := console st;
     files := {[p]} ∪ files st; dirs := dirs st |}.

Definition add_files (ps : gset string) (st : state) : state :=
  {| log := log st; console := console st;
     files := ps ∪ files st; dirs := dirs st |}.

Definition remove_file (p : string) (st : state) : state :=
  {| log := log st; console := console st;
     files := files st ∖ {[p]}; dirs := dirs st |}.

Definition add_dir (p : string) (st : state) : state :=
  {| log := log st; console := console st;
     files := files st; dirs := {[p]} ∪ dirs st |}.

(** ** The monad of the services: state and exceptions *)

Inductive outcome (A : Type) :=
| Ret (a : A)
| Throw (e : Error).
Arguments Ret {A} a.
Arguments Throw {A} e.

Definition M (A : Type) : Type := state -> outcome A * state.

#[global] Instance M_ret : MRet M := fun A a st => (Ret a, st).

#[global] Instance M_bind : MBind M := fun A B f m st =>
  match m st with
  | (Ret a, st') => f a st'
  | (Throw e, st') => (Throw e, st')
  end.

(** [try { body } catch (error) { handler }] *)
Definition try_catch {A} (body : M A) (handler : Error -> M A) : M A :=
  fun st =>
    match body st with
    | (Ret a, st') => (Ret a, st')
    | (Throw e, st') => handler e st'
    end.

(** [throw error] *)
Definition throw {A} (e : Error) : M A := fun st => (Throw e, st).

(** Converting a value to a string, as a template literal and
    [RegExp.prototype.test] do. *)
Definition ToString (v : jsval) : M string :=
  match text_of v with
  | Some text => mret text
  | None => throw {| message := "Cannot convert object to primitive value" |}
  end.

(** [url.match(pattern)]: [match] is a method of strings; on any other
    value of a request body [url.match] is not a function. *)
Definition match_receiver (url : jsval) : M string :=
  match url with
  | JStr s => mret s
  | _ => throw {| message := "url.match is not a function" |}
  end.

(** [typeof v === 'string'] *)
Definition is_string (v : jsval) : bool :=
  match v with JStr _ => true | _ => false end.

Definition console_log (msg : string) : M unit :=
  fun st => (Ret tt, print LLog msg st).
Definition console_warn (msg : string) : M unit :=
  fun st => (Ret tt, print LWarn msg st).
Definition console_error (msg : string) : M unit :=
  fun st => (Ret tt, print LError msg st).

Section Services.

Variable cfg : Config.
Variable W : World.

(** *** The collaborators, asked through the world *)

Definition uuidv4 : M string := fun st =>
  let s := w_uuidv4 W (log st) in
  (Ret s, record Uuidv4 (GotString s) st).

Definition Date_now : M Z := fun st =>
  let z := w_now W (log st) in
  (Ret z, record DateNow (GotNumber z) st).

Definition fs_mkdir (dir : string) : M unit := fun st =>
  match w_mkdir W (log st) dir with
  | None => (Ret tt, add_dir dir (record (Mkdir dir) Done st))
  | Some e => (Throw e, record (Mkdir dir) (Failed e) st)
  end.

Definition youtubedl_json (url : string) : M VideoInfo := fun st =>
  match w_json W (log st) url with
  | inr info => (Ret info, record (YoutubeDlJson url) (GotInfo info) st)
  | inl e => (Throw e, record (YoutubeDlJson url) (Failed e) st)
  end.

(** A download that succeeds leaves the audio at [out]; one that fails
    leaves what the world says, and removes nothing. *)
Definition youtubedl_audio (url out : string) : M unit := fun st =>
  match w_audio W (log st) url out with
  | None => (Ret tt, add_file out (record (YoutubeDlAudio url out) Done st))
  | Some e =>
      (Throw e,
       add_files (w_debris W (log st) (YoutubeDlAudio url out))
                 (record (YoutubeDlAudio url out) (Failed e) st))
  end.

(** Running a command ends in one of the events ['end'] ([None]) and
    ['error'] ([Some err]); after ['end'] the output file is there, after
    ['error'] the world says what the run has left, and nothing is
    removed. *)
Definition ffmpeg_run (cmd : FfmpegCommand) : M (option Error) := fun st =>
  match w_ffmpeg W (log st) cmd with
  | None => (Ret None, add_file (output cmd) (record (Ffmpeg cmd) Done st))
  | Some e =>
      (Ret (Some e),
       add_files (w_debris W (log st) (Ffmpeg cmd))
                 (record (Ffmpeg cmd) (Failed e) st))
  end.

(** The callback of [ffprobe] receives [err] or [metadata]. *)
Definition ffprobe (file : string) : M (Error + ProbeData) := fun st =>
  match w_ffprobe W (log st) file with
  | inr d => (Ret (inr d), record (Ffprobe file) (GotProbe d) st)
  | inl e => (Ret (inl e), record (Ffprobe file) (Failed e) st)
  end.

(** [fs.unlink]: on a file that is there the world decides; on a path
    that is not a file it fails, with the error the world gives. *)
Definition fs_unlink (file : string) : M unit := fun st =>
  if decide (file ∈ files st) then
    match w_unlink W (log st) file with
    | None => (Ret tt, remove_file file (record (Unlink file) Done st))
    | Some e => (Throw e, record (Unlink file) (Failed e) st)
    end
  else
    let e := w_unlink_missing W (log st) file in
    (Throw e, record (Unlink file) (Failed e) st).

(** *** YouTubeService.downloadAudio *)

Definition downloadAudio (videoUrl outputPath : string) : M Step.result :=
  try_catch
    (console_log ("[YouTubeService] Starting download from: " +:+ videoUrl);;
     fs_mkdir (path_dirname outputPath);;
     info ← youtubedl_json videoUrl;
     console_log ("[YouTubeService] Video title: "
                  +:+ or_undefined (info_title info));;
     console_log ("[YouTubeService] Duration: "
                  +:+ or_undefined (Number_toString <$> info_duration info)
                  +:+ " seconds");;
     youtubedl_audio videoUrl outputPath;;
     console_log "[YouTubeService] Download completed successfully";;
     mret {| Step.success := true;
             Step.filePath := Some outputPath;
             Step.error := None;
             Step.metadata :=
               Some {| title := info_title info;
                       duration := info_duration info;
                       uploader := info_uploader info;
                       uploadDate := info_upload_date info;
                       description := info_description info |} |})
    (fun error =>
       console_error ("[YouTubeService] Download error: " +:+ message error);;
       mret {| Step.success := false;
               Step.filePath := None;
               Step.error :=
                 Some (or_else (message error)
                               "Failed to download audio from YouTube");
               Step.metadata := None |}).

(** *** AudioProcessingService *)

(** What the handlers of ['end'] and ['error'] resolve the promise
    with. *)
Definition resolved (r : option Error) (outputPath : string)
           (done_msg error_msg : string) : M Step.result :=
  match r with
  | None =>
      console_log done_msg;;
      mret {| Step.success := true; Step.filePath := Some outputPath;
              Step.error := None; Step.metadata := None |}
  | Some err =>
      console_error (error_msg +:+ " " +:+ message err);;
      mret {| Step.success := false; Step.filePath := None;
              Step.error := Some (message err); Step.metadata := None |}
  end.

Definition extract_command (inputPath outputPath : string) : FfmpegCommand :=
  {| input := inputPath;
     noVideo := true;
     audioFilters := None;
     audioCodec := Some "pcm_s16le";
     audioFrequency := Some (sampleRate (audio cfg));
     audioChannels := Some (channels (audio cfg));
     audioBitrate := None;
     output := outputPath |}.

Definition extractRawAudio (inputPath outputPath : string) : M Step.result :=
  console_log ("[AudioProcessing] Extracting raw audio from: " +:+ inputPath);;
  r ← ffmpeg_run (extract_command inputPath outputPath);
  resolved r outputPath
           "[AudioProcessing] Raw audio extraction completed"
           "[AudioProcessing] Extraction error:".

Definition compand : string :=
  "compand=attacks=0.3:decays=0.8:points=-80/-80|-45/-15|-27/-9|0/-7|20/-7:soft-knee=6:gain=0:volume=-90:delay=0.2".

(** The array [audioFilters] of [applyNoiseReduction], before [join]. *)
Definition noise_filters : list string :=
  [ "highpass=f=" +:+ Number_toString (highPassFilter (audio cfg));
    "lowpass=f=" +:+ Number_toString (lowPassFilter (audio cfg));
    "afftdn=nf=-25";
    compand ].

Definition filter_command (filters inputPath outputPath : string)
  : FfmpegCommand :=
  {| input := inputPath;
     noVideo := false;
     audioFilters := Some filters;
     audioCodec := Some "pcm_s16le";
     audioFrequency := Some (sampleRate (audio cfg));
     audioChannels := Some (channels (audio cfg));
     audioBitrate := None;
     output := outputPath |}.

Definition noise_command (inputPath outputPath : string) : FfmpegCommand :=
  filter_command (Array_join "," noise_filters) inputPath outputPath.

Definition applyNoiseReduction (inputPath outputPath : string)
  : M Step.result :=
  console_log ("[AudioProcessing] Applying noise reduction to: " +:+ inputPath);;
  r ← ffmpeg_run (noise_command inputPath outputPath);
  resolved r outputPath
           "[AudioProcessing] Noise reduction completed"
           "[AudioProcessing] Filtering error:".

(** The array [vocalFilters] of [enhanceVocals], before [join]. *)
Definition vocal_filters : list string :=
  [ "highpass=f=" +:+ Number_toString (highPassFilter (audio cfg));
    "lowpass=f=" +:+ Number_toString (lowPassFilter (audio cfg));
    "afftdn=nf=-20";
    "equalizer=f=3000:width_type=h:width=1000:g=3";
    compand;
    "loudnorm=I=-16:TP=-1.5:LRA=11" ].

Definition vocal_command (inputPath outputPath : string) : FfmpegCommand :=
  filter_command (Array_join "," vocal_filters) inputPath outputPath.

Definition enhanceVocals (inputPath outputPath : string) : M Step.result :=
  console_log ("[AudioProcessing] Applying vocal enhancement to: " +:+ inputPath);;
  r ← ffmpeg_run (vocal_command inputPath outputPath);
  resolved r outputPath
           "[AudioProcessing] Vocal enhancement completed"
           "[AudioProcessing] Enhancement error:".

Definition getAudioMetadata (filePath : string) : M Meta.result :=
  r ← ffprobe filePath;
  match r with
  | inl err =>
      console_error ("[AudioProcessing] Metadata error: " +:+ message err);;
      mret {| Meta.success := false; Meta.metadata := None;
              Meta.error := Some (message err) |}
  | inr metadata =>
      let audioStream :=
        List.find (fun s => String.eqb (codec_type s) "audio")
                  (streams metadata) in
      mret {| Meta.success := true;
              Meta.metadata :=
                Some {| am_duration := format_duration (format metadata);
                        am_bitRate := bit_rate (format metadata);
                        am_sampleRate := audioStream ≫= sample_rate;
                        am_channels := audioStream ≫= stream_channels;
                        am_codec := audioStream ≫= codec_name |};
              Meta.error := None |}
  end.

Definition convert_command (inputPath outputPath format : string)
  : FfmpegCommand :=
  let plain :=
    {| input := inputPath; noVideo := false; audioFilters := None;
       audioCodec := None; audioFrequency := None; audioChannels := None;
       audioBitrate := None; output := outputPath |} in
  let with_codec codec bitrate :=
    {| input := inputPath; noVideo := false; audioFilters := None;
       audioCodec := Some codec; audioFrequency := None;
       audioChannels := None; audioBitrate := bitrate;
       output := outputPath |} in
  if String.eqb format "mp3" then with_codec "libmp3lame" (Some "192k")
  else if String.eqb format "wav" then with_codec "pcm_s16le" None
  else if String.eqb format "ogg" then with_codec "libvorbis" (Some "192k")
  else plain.

Definition convertFormat (inputPath outputPath format : string)
  : M Step.result :=
  console_log ("[AudioProcessing] Converting to " +:+ format +:+ ": "
               +:+ inputPath);;
  r ← ffmpeg_run (convert_command inputPath outputPath format);
  resolved r outputPath
           "[AudioProcessing] Format conversion completed"
           "[AudioProcessing] Conversion error:".

End Services.

(** ** AudioExtractionService: the orchestrator *)

Import YouTubeUrl.

Section Orchestrator.

Variable cfg : Config.
Variable W : World.

(** [`${videoId}_${timestamp}`] *)
Definition baseFilename (videoId : option string) (timestamp : Z) : string :=
  or_null videoId +:+ "_" +:+ Number_toString timestamp.

Definition rawAudioPath (base : string) : string :=
  path_join (tempDir cfg) (base +:+ "_raw.wav").
Definition filteredAudioPath (base : string) : string :=
  path_join (tempDir cfg) (base +:+ "_filtered.wav").
Definition enhancedAudioPath (base : string) : string :=
  path_join (tempDir cfg) (base +:+ "_enhanced.wav").
Definition cleanVoicePath (base : string) : string :=
  path_join (outputDir cfg) (base +:+ "_clean_voice.wav").
Definition mp3OutputPath (base : string) : string :=
  path_join (outputDir cfg) (base +:+ "_clean_voice.mp3").

(** [results.steps.name = r] and [results.files.name = p] *)
Definition set_step (name : string) (r : Step.result) (res : Results.t)
  : Results.t :=
  {| Results.jobId := Results.jobId res;
     Results.videoId := Results.videoId res;
     Results.steps := <[name := r]> (Results.steps res);
     Results.files := Results.files res;
     Results.metadata := Results.metadata res;
     Results.audioMetadata := Results.audioMetadata res |}.

Definition set_file (name : string) (p : string) (res : Results.t)
  : Results.t :=
  {| Results.jobId := Results.jobId res;
     Results.videoId := Results.videoId res;
     Results.steps := Results.steps res;
     Results.files := <[name := p]> (Results.files res);
     Results.metadata := Results.metadata res;
     Results.audioMetadata := Results.audioMetadata res |}.

Definition set_metadata (m : option VideoMetadata) (res : Results.t)
  : Results.t :=
  {| Results.jobId := Results.jobId res;
     Results.videoId := Results.videoId res;
     Results.steps := Results.steps res;
     Results.files := Results.files res;
     Results.metadata := m;
     Results.audioMetadata := Results.audioMetadata res |}.

Definition set_audioMetadata (m : option AudioMetadata) (res : Results.t)
  : Results.t :=
  {| Results.jobId := Results.jobId res;
     Results.videoId := Results.videoId res;
     Results.steps := Results.steps res;
     Results.files := Results.files res;
     Results.metadata := Results.metadata res;
     Results.audioMetadata := m |}.

(** A [{success: false, error, details?, jobId, results?}] object. *)
Definition failure (error : string) (details : option string)
           (jobId : string) (results : option Results.t) : Job.result :=
  {| Job.success := false;
     Job.error := Some error;
     Job.details := details;
     Job.jobId := jobId;
     Job.videoId := None;
     Job.metadata := None;
     Job.audioMetadata := None;
     Job.outputFiles := None;
     Job.message := None;
     Job.results := results |}.

(** [cleanupTempFiles(filePaths)] *)
Fixpoint cleanupTempFiles (filePaths : list string) : M unit :=
  match filePaths with
  | [] => mret tt
  | filePath :: rest =>
      try_catch
        (fs_unlink W filePath;;
         console_log ("Deleted: " +:+ path_basename filePath))
        (fun error =>
           console_warn ("Could not delete " +:+ filePath +:+ ": "
                         +:+ message error));;
      cleanupTempFiles rest
  end.

(** [extractAndCleanAudio(videoUrl, options)].  The reference is what
    the caller hands over, a string or not: the template literal and
    [pattern.test] of [isValidYouTubeUrl] convert it to a string,
    [url.match] of [extractVideoId] needs it to be one; from there on
    [videoUrl] is that string. *)
Definition extractAndCleanAudio (videoUrl : jsval) (cleanupTemp : jsval)
  : M Job.result :=
  jobId ← uuidv4 W;
  timestamp ← Date_now W;
  console_log (NL +:+ "=== Starting Audio Extraction Job " +:+ jobId +:+ " ===");;
  text ← ToString videoUrl;
  console_log ("Video URL: " +:+ text);;
  try_catch
    (text ← ToString videoUrl;
     if negb (isValidYouTubeUrl text) then
       mret (failure "Invalid YouTube URL" None jobId None)
     else
       videoUrl ← match_receiver videoUrl;
       let videoId := extractVideoId videoUrl in
       console_log ("Video ID: " +:+ or_null videoId);;
       let base := baseFilename videoId timestamp in
       let rawAudioPath := rawAudioPath base in
       let filteredAudioPath := filteredAudioPath base in
       let enhancedAudioPath := enhancedAudioPath base in
       let cleanVoicePath := cleanVoicePath base in
       let mp3OutputPath := mp3OutputPath base in
       fs_mkdir W (tempDir cfg);;
       fs_mkdir W (outputDir cfg);;
       let results :=
         {| Results.jobId := jobId; Results.videoId := videoId;
            Results.steps := ∅; Results.files := ∅;
            Results.metadata := None; Results.audioMetadata := None |} in
       (* Step 1 *)
       console_log (NL +:+ "--- Step 1: Downloading Audio ---");;
       downloadResult ← downloadAudio W videoUrl rawAudioPath;
       let results := set_step "download" downloadResult results in
       if negb (Step.success downloadResult) then
         mret (failure "Failed to download audio from YouTube"
                       (Step.error downloadResult) jobId None)
       else
       let results := set_metadata (Step.metadata downloadResult) results in
       let results := set_file "raw" rawAudioPath results in
       (* Step 2 *)
       console_log (NL +:+ "--- Step 2: Extracting Raw Audio ---");;
       extractResult ← extractRawAudio cfg W rawAudioPath filteredAudioPath;
       let results := set_step "extract" extractResult results in
       if negb (Step.success extractResult) then
         mret (failure "Failed to extract raw audio"
                       (Step.error extractResult) jobId (Some results))
       else
       let results := set_file "extracted" filteredAudioPath results in
       (* Step 3 *)
       console_log (NL +:+ "--- Step 3: Applying Noise Reduction ---");;
       noiseReductionResult ←
         applyNoiseReduction cfg W filteredAudioPath enhancedAudioPath;
       let results := set_step "noiseReduction" noiseReductionResult results in
       if negb (Step.success noiseReductionResult) then
         mret (failure "Failed to apply noise reduction"
                       (Step.error noiseReductionResult) jobId (Some results))
       else
       let results := set_file "noiseReduced" enhancedAudioPath results in
       (* Step 4 *)
       console_log (NL +:+ "--- Step 4: Enhancing Vocals ---");;
       vocalEnhancementResult ←
         enhanceVocals cfg W enhancedAudioPath cleanVoicePath;
       let results :=
         set_step "vocalEnhancement" vocalEnhancementResult results in
       if negb (Step.success vocalEnhancementResult) then
         mret (failure "Failed to enhance vocals"
                       (Step.error vocalEnhancementResult) jobId (Some results))
       else
       let results := set_file "cleanVoice" cleanVoicePath results in
       (* Step 5 *)
       console_log (NL +:+ "--- Step 5: Converting to MP3 ---");;
       mp3ConversionResult ← convertFormat W cleanVoicePath mp3OutputPath "mp3";
       let results := set_step "mp3Conversion" mp3ConversionResult results in
       let results :=
         if Step.success mp3ConversionResult
         then set_file "mp3" mp3OutputPath results else results in
       (* final file metadata *)
       metadataResult ← getAudioMetadata W cleanVoicePath;
       let results :=
         if Meta.success metadataResult
         then set_audioMetadata (Meta.metadata metadataResult) results
         else results in
       (* cleanup *)
       (if strict_neq_false cleanupTemp then
          console_log (NL +:+ "--- Cleaning up temporary files ---");;
          cleanupTempFiles [rawAudioPath; filteredAudioPath; enhancedAudioPath]
        else mret tt);;
       console_log (NL +:+ "=== Audio Extraction Job " +:+ jobId
                    +:+ " Completed Successfully ===" +:+ NL);;
       mret {| Job.success := true;
               Job.error := None;
               Job.details := None;
               Job.jobId := jobId;
               Job.videoId := Some videoId;
               Job.metadata := Results.metadata results;
               Job.audioMetadata := Results.audioMetadata results;
               Job.outputFiles :=
                 Some {| wav := cleanVoicePath;
                         mp3 := or_null_value
                                  (Results.files results !! "mp3") |};
               Job.message := Some "Audio extracted and cleaned successfully";
               Job.results := None |})
    (fun error =>
       console_error (NL +:+ "=== Job " +:+ jobId +:+ " Failed ===");;
       console_error (message error);;
       mret (failure "Unexpected error during audio extraction"
                     (Some (message error)) jobId None)).

(** [quickExtract(videoUrl)] *)
Definition quickExtract (videoUrl : jsval) : M Job.result :=
  jobId ← uuidv4 W;
  timestamp ← Date_now W;
  console_log (NL +:+ "=== Starting Quick Audio Extraction " +:+ jobId +:+ " ===");;
  try_catch
    (text ← ToString videoUrl;
     if negb (isValidYouTubeUrl text) then
       mret (failure "Invalid YouTube URL" None jobId None)
     else
       videoUrl ← match_receiver videoUrl;
       let videoId := extractVideoId videoUrl in
       let base := baseFilename videoId timestamp in
       let outputPath := path_join (outputDir cfg) (base +:+ "_audio.wav") in
       fs_mkdir W (outputDir cfg);;
       downloadResult ← downloadAudio W videoUrl outputPath;
       if negb (Step.success downloadResult) then
         mret (failure "Failed to download audio"
                       (Step.error downloadResult) jobId None)
       else
       console_log (NL +:+ "=== Quick Extraction " +:+ jobId
                    +:+ " Completed ===" +:+ NL);;
       mret {| Job.success := true;
               Job.error := None;
               Job.details := None;
               Job.jobId := jobId;
               Job.videoId := Some videoId;
               Job.metadata := Step.metadata downloadResult;
               Job.audioMetadata := None;
               Job.outputFiles := Some {| wav := outputPath; mp3 := None |};
               Job.message := Some "Audio downloaded successfully";
               Job.results := None |})
    (fun error =>
       console_error ("Quick extraction failed: " +:+ message error);;
       mret (failure "Quick extraction failed"
                     (Some (message error)) jobId None)).

End Orchestrator.

(** ** Reading filter chains *)

Inductive filter_kind :=
| HighPass            (* highpass  *)
| LowPass             (* lowpass   *)
| SpectralDenoiser    (* afftdn    *)
| ClarityEqualizer    (* equalizer *)
| Compander           (* compand   *)
| LoudnessNorm.       (* loudnorm  *)

(** The pieces of [s] between occurrences of [sep]. *)
Fixpoint split_on (sep : ascii) (s : string) : list string :=
  match s with
  | EmptyString => [""]
  | String a s' =>
      if Ascii.eqb a sep then "" :: split_on sep s'
      else match split_on sep s' with
           | piece :: l => String a piece :: l
           | [] => [String a ""]
           end
  end.

(** [c] does not occur in [s]. *)
Fixpoint lacks (c : ascii) (s : string) : bool :=
  match s with
  | EmptyString => true
  | String a s' => negb (Ascii.eqb a c) && lacks c s'
  end.

(** The name of one filter, [name=options]. *)
Definition filter_name (f : string) : string :=
  match split_on "=" f with
  | name :: _ => name
  | [] => ""
  end.

Definition kind_of_name (name : string) : option filter_kind :=
  if String.eqb name "highpass" then Some HighPass
  else if String.eqb name "lowpass" then Some LowPass
  else if String.eqb name "afftdn" then Some SpectralDenoiser
  else if String.eqb name "equalizer" then Some ClarityEqualizer
  else if String.eqb name "compand" then Some Compander
  else if String.eqb name "loudnorm" then Some LoudnessNorm
  else None.

(** The chain a textual [-af] argument denotes: filters are separated by
    commas. *)
Definition chain_of (filters : string) : list (option filter_kind) :=
  (fun f => kind_of_name (filter_name f)) <$> split_on "," filters.

(** ** Reading the call log of a job *)

Inductive stage :=
| Download
| Extract
| NoiseReduction
| VocalEnhancement
| Mp3Conversion.

(** The position of a stage in the pipeline, from 1. *)
Definition stage_index (k : stage) : nat :=
  match k with
  | Download => 1
  | Extract => 2
  | NoiseReduction => 3
  | VocalEnhancement => 4
  | Mp3Conversion => 5
  end.

(** The key of a stage in [results.steps], the key of its output in
    [results.files] and the error the orchestrator reports for it (it has
    none for the MP3 conversion). *)
Definition step_key (k : stage) : string :=
  match k with
  | Download => "download"
  | Extract => "extract"
  | NoiseReduction => "noiseReduction"
  | VocalEnhancement => "vocalEnhancement"
  | Mp3Conversion => "mp3Conversion"
  end.

Definition file_key (k : stage) : string :=
  match k with
  | Download => "raw"
  | Extract => "extracted"
  | NoiseReduction => "noiseReduced"
  | VocalEnhancement => "cleanVoice"
  | Mp3Conversion => "mp3"
  end.

Definition stage_error (k : stage) : string :=
  match k with
  | Download => "Failed to download audio from YouTube"
  | Extract => "Failed to extract raw audio"
  | NoiseReduction => "Failed to apply noise reduction"
  | VocalEnhancement => "Failed to enhance vocals"
  | Mp3Conversion => ""
  end.

Definition all_stages : list stage :=
  [Download; Extract; NoiseReduction; VocalEnhancement; Mp3Conversion].

Section JobView.

Variable cfg : Config.
Variable videoUrl : string.
Variable timestamp : Z.

Definition job_base : string :=
  baseFilename (extractVideoId videoUrl) timestamp.

(** Where a stage of this job writes. *)
Definition stage_output (k : stage) : string :=
  match k with
  | Download => rawAudioPath cfg job_base
  | Extract => filteredAudioPath cfg job_base
  | NoiseReduction => enhancedAudioPath cfg job_base
  | VocalEnhancement => cleanVoicePath cfg job_base
  | Mp3Conversion => mp3OutputPath cfg job_base
  end.


(** The intermediate artifacts of the job. *)
Definition intermediates : list string :=
  [ stage_output Download; stage_output Extract;
    stage_output NoiseReduction ].

End JobView.



(** What a call reads and writes, when it is a file-in/file-out stage
    invocation: the download reads no file. *)
Definition stage_io (c : call) : option (option string * string) :=
  match c with
  | YoutubeDlAudio _ out => Some (None, out)
  | Ffmpeg cmd => Some (Some (input cmd), output cmd)
  | _ => None
  end.

(** Each stage reads what the stage before it wrote, and only that. *)
Fixpoint chained (previous : option string)
         (l : list (option string * string)) : Prop :=
  match l with
  | [] => True
  | (i, o) :: l' => i = previous /\ chained (Some o) l'
  end.

Definition is_clock (ev : event) : bool :=
  match ev with (DateNow, _) => true | _ => false end.

(** [{id}_{millis}_{suffix}] *)
Definition job_file_name (sourceId : string) (millis : Z) (suffix : string)
  : string :=
  sourceId +:+ "_" +:+ Number_toString millis +:+ "_" +:+ suffix.

(** ** The ways a job can go

    In a job that fails, [left] is what the failed run of the engine
    has left on disk. *)

(** The calls of a [downloadAudio] that fails with [e], newest first. *)
Definition download_failure (url out : string) (e : Error) (l : list event)
  : Prop :=
  l = [ (Mkdir (path_dirname out), Failed e) ]
  \/ l = [ (YoutubeDlJson url, Failed e); (Mkdir (path_dirname out), Done) ]
  \/ exists info,
      l = [ (YoutubeDlAudio url out, Failed e);
            (YoutubeDlJson url, GotInfo info);
            (Mkdir (path_dirname out), Done) ].

Definition ok_step (p : string) (m : option VideoMetadata) : Step.result :=
  {| Step.success := true; Step.filePath := Some p;
     Step.error := None; Step.metadata := m |}.

Definition failed_step (e : Error) : Step.result :=
  {| Step.success := false; Step.filePath := None;
     Step.error := Some (message e); Step.metadata := None |}.

Definition metadata_of (info : VideoInfo) : VideoMetadata :=
  {| title := info_title info;
     duration := info_duration info;
     uploader := info_uploader info;
     uploadDate := info_upload_date info;
     description := info_description info |}.

Definition audio_metadata_of (d : ProbeData) : AudioMetadata :=
  let audioStream :=
    List.find (fun s => String.eqb (codec_type s) "audio") (streams d) in
  {| am_duration := format_duration (format d);
     am_bitRate := bit_rate (format d);
     am_sampleRate := audioStream ≫= sample_rate;
     am_channels := audioStream ≫= stream_channels;
     am_codec := audioStream ≫= codec_name |}.

Definition engine_reply (r : option Error) : reply :=
  match r with None => Done | Some e => Failed e end.

Definition probe_reply (r : Error + ProbeData) : reply :=
  match r with inl e => Failed e | inr d => GotProbe d end.

(** What [cleanupTempFiles paths] does between two states. *)
Definition cleaned (paths : list string) (st st' : state) : Prop :=
  exists unlinks,
    log st' = unlinks ++ log st
    /\ fst <$> unlinks = Unlink <$> reverse paths
    /\ (forall c r, (c, r) ∈ unlinks -> r = Done \/ exists e, r = Failed e)
    /\ dirs st' = dirs st
    /\ (forall p, p ∈ files st' <-> p ∈ files st /\ (Unlink p, Done) ∉ unlinks)
    /\ (forall p e, (Unlink p, Failed e) ∈ unlinks ->
          (LWarn, "Could not delete " +:+ p +:+ ": " +:+ message e)
            ∈ console st')
    /\ (exists lines, console st' = lines ++ console st).

Section Outcomes.

Variable cfg : Config.
Variable videoUrl : string.
Variable cleanupTemp : jsval.
Variables fs ds : gset string.
Variable jobId : string.
Variable timestamp : Z.

Abbreviation out k := (stage_output cfg videoUrl timestamp k).

Definition preamble : list event :=
  [ (DateNow, GotNumber timestamp); (Uuidv4, GotString jobId) ].

Definition dirs_made : list event :=
  [ (Mkdir (outputDir cfg), Done); (Mkdir (tempDir cfg), Done) ] ++ preamble.

Definition downloaded (info : VideoInfo) : list event :=
  [ (YoutubeDlAudio videoUrl (out Download), Done);
    (YoutubeDlJson videoUrl, GotInfo info);
    (Mkdir (path_dirname (out Download)), Done) ] ++ dirs_made.

Definition extracted (info : VideoInfo) : list event :=
  (Ffmpeg (extract_command cfg (out Download) (out Extract)), Done)
    :: downloaded info.

Definition denoised (info : VideoInfo) : list event :=
  (Ffmpeg (noise_command cfg (out Extract) (out NoiseReduction)), Done)
    :: extracted info.

Definition enhanced (info : VideoInfo) : list event :=
  (Ffmpeg (vocal_command cfg (out NoiseReduction) (out VocalEnhancement)), Done)
    :: denoised info.

(** The [results] object when stage [k] has just failed with [e]: the
    steps up to and including [k], the files of the stages before. *)
Definition results_at (k : stage) (info : VideoInfo) (e : Error) : Results.t :=
  let before := take (stage_index k - 1) all_stages in
  let done_steps : gmap string Step.result :=
    foldl (fun m j =>
             <[step_key j :=
                 ok_step (out j)
                         (match j with
                          | Download => Some (metadata_of info)
                          | _ => None
                          end)]> m) ∅ before in
  {| Results.jobId := jobId;
     Results.videoId := extractVideoId videoUrl;
     Results.steps := <[step_key k := failed_step e]> done_steps;
     Results.files := foldl (fun m j => <[file_key j := out j]> m) ∅ before;
     Results.metadata := Some (metadata_of info);
     Results.audioMetadata := None |}.

Inductive job_outcome : Job.result -> state -> Prop :=
| ran_invalid st' :
    isValidYouTubeUrl videoUrl = false ->
    log st' = preamble -> files st' = fs -> dirs st' = ds ->
    job_outcome (failure "Invalid YouTube URL" None jobId None) st'
| ran_no_temp e st' :
    isValidYouTubeUrl videoUrl = true ->
    log st' = (Mkdir (tempDir cfg), Failed e) :: preamble ->
    files st' = fs ->
    job_outcome (failure "Unexpected error during audio extraction"
                         (Some (message e)) jobId None) st'
| ran_no_output e st' :
    isValidYouTubeUrl videoUrl = true ->
    log st' = (Mkdir (outputDir cfg), Failed e)
                :: (Mkdir (tempDir cfg), Done) :: preamble ->
    files st' = fs ->
    job_outcome (failure "Unexpected error during audio extraction"
                         (Some (message e)) jobId None) st'
| ran_download_failed e l left st' :
    isValidYouTubeUrl videoUrl = true ->
    download_failure videoUrl (out Download) e l ->
    log st' = l ++ dirs_made -> files st' = left ∪ fs ->
    job_outcome (failure (stage_error Download)
                         (Some (or_else (message e)
                                  "Failed to download audio from YouTube"))
                         jobId None) st'
| ran_extract_failed info e left st' :
    isValidYouTubeUrl videoUrl = true ->
    log st' = (Ffmpeg (extract_command cfg (out Download) (out Extract)),
               Failed e) :: downloaded info ->
    files st' = left ∪ ({[out Download]} ∪ fs) ->
    job_outcome (failure (stage_error Extract) (Some (message e)) jobId
                         (Some (results_at Extract info e))) st'
| ran_noise_failed info e left st' :
    isValidYouTubeUrl videoUrl = true ->
    log st' = (Ffmpeg (noise_command cfg (out Extract) (out NoiseReduction)),
               Failed e) :: extracted info ->
    files st' = left ∪ ({[out Extract]} ∪ ({[out Download]} ∪ fs)) ->
    job_outcome (failure (stage_error NoiseReduction) (Some (message e)) jobId
                         (Some (results_at NoiseReduction info e))) st'
| ran_vocal_failed info e left st' :
    isValidYouTubeUrl videoUrl = true ->
    log st' = (Ffmpeg (vocal_command cfg (out NoiseReduction)
                                     (out VocalEnhancement)),
               Failed e) :: denoised info ->
    files st' = left ∪ ({[out NoiseReduction]}
                          ∪ ({[out Extract]} ∪ ({[out Download]} ∪ fs))) ->
    job_outcome (failure (stage_error VocalEnhancement) (Some (message e)) jobId
                         (Some (results_at VocalEnhancement info e))) st'
| ran_completed info r5 r6 left st5 st' :
    isValidYouTubeUrl videoUrl = true ->
    log st5 = (Ffprobe (out VocalEnhancement), probe_reply r6)
                :: (Ffmpeg (convert_command (out VocalEnhancement)
                                            (out Mp3Conversion) "mp3"),
                    engine_reply r5)
                :: enhanced info ->
    files st5 = (match r5 with
                 | None => {[out Mp3Conversion]}
                 | Some _ => left
                 end)
                  ∪ ({[out VocalEnhancement]}
                       ∪ ({[out NoiseReduction]}
                            ∪ ({[out Extract]} ∪ ({[out Download]} ∪ fs)))) ->
    (if strict_neq_false cleanupTemp
     then cleaned (intermediates cfg videoUrl timestamp) st5 st'
     else log st' = log st5 /\ files st' = files st5) ->
    job_outcome
      {| Job.success := true;
         Job.error := None;
         Job.details := None;
         Job.jobId := jobId;
         Job.videoId := Some (extractVideoId videoUrl);
         Job.metadata := Some (metadata_of info);
         Job.audioMetadata :=
           match r6 with
           | inr d => Some (audio_metadata_of d)
           | inl _ => None
           end;
         Job.outputFiles :=
           Some {| wav := out VocalEnhancement;
                   mp3 := match r5 with
                          | None => Some (out Mp3Conversion)
                          | Some _ => None
                          end |};
         Job.message := Some "Audio extracted and cleaned successfully";
         Job.results := None |} st'.

End Outcomes.

(** ** Sample worlds

    A configuration rooted at [/app], the reference the repository's own
    test script uses, and worlds in which chosen collaborators fail. *)

Module Sample.

Definition cfg : Config := config "/app".

Definition url : string :=
  "https://youtu.be/4wtgz5KLwOU?si=Sa0j2gSn7aAmy01v".

(** A watch-page reference whose [v] is not the first parameter. *)
Definition late_v_url : string :=
  "https://www.youtube.com/watch?feature=share&v=4wtgz5KLwOU".

Definition millis : Z := 1700000000000.

Definition info : VideoInfo :=
  {| info_title := Some "Talk";
     info_duration := Some 12;
     info_uploader := Some "someone";
     info_upload_date := Some "20240101";
     info_description := None |}.

Definition probe : ProbeData :=
  {| streams := [ {| codec_type := "audio";
                     sample_rate := Some 44100;
                     stream_channels := Some 1;
                     codec_name := Some "pcm_s16le" |} ];
     format := {| format_duration := Some 12; bit_rate := Some 705600 |} |}.

Definition boom : Error := {| message := "exit code 1" |}.

(** The error of [fs.unlink] when nothing is at the path. *)
Definition ENOENT (file : string) : Error :=
  {| message := "ENOENT: no such file or directory, unlink '"
                +:+ file +:+ "'" |}.

(** Everything works, except the ffmpeg commands picked by
    [ffmpeg_fails], the probe when [probe_fails] and the deletions when
    [unlink_fails]. *)
Definition world (ffmpeg_fails : FfmpegCommand -> bool)
           (probe_fails unlink_fails : bool) : World :=
  {| w_uuidv4 := fun _ => "job-1";
     w_now := fun _ => millis;
     w_mkdir := fun _ _ => None;
     w_json := fun _ _ => inr info;
     w_audio := fun _ _ _ => None;
     w_ffmpeg := fun _ cmd => if ffmpeg_fails cmd then Some boom else None;
     w_ffprobe := fun _ _ => if probe_fails then inl boom else inr probe;
     w_unlink := fun _ _ => if unlink_fails then Some boom else None;
     w_unlink_missing := fun _ file => ENOENT file;
     w_debris := fun _ _ => ∅ |}.

Definition fine : World := world (fun _ => false) false false.


(** The raw extraction (the only command with [noVideo]) fails. *)
Definition no_extract : World := world noVideo false false.

(** ffprobe is missing. *)
Definition no_probe : World := world (fun _ => false) true false.

End Sample.

(** ** The remaining entry points

    What the pipeline does not use: [removeSilence], the two
    [getVideoInfo] and the request handlers of the controller
    (controllers/audioController.js). *)

(** *** AudioProcessingService.removeSilence *)

Section Silence.

Variable cfg : Config.
Variable W : World.

(** The template literal [silenceFilter]. *)
Definition silence_filter : string :=
  "silenceremove=start_periods=1:start_duration=1:start_threshold="
  +:+ Number_toString (silenceThreshold (audio cfg))
  +:+ "dB:detection=peak,silenceremove=stop_periods=-1:stop_duration=1:stop_threshold="
  +:+ Number_toString (silenceThreshold (audio cfg))
  +:+ "dB:detection=peak".

Definition silence_command (inputPath outputPath : string) : FfmpegCommand :=
  filter_command cfg silence_filter inputPath outputPath.

Definition removeSilence (inputPath outputPath : string) : M Step.result :=
  console_log ("[AudioProcessing] Removing silence from: " +:+ inputPath);;
  r ← ffmpeg_run W (silence_command inputPath outputPath);
  resolved r outputPath
           "[AudioProcessing] Silence removal completed"
           "[AudioProcessing] Silence removal error:".

End Silence.

(** *** YouTubeService.getVideoInfo *)

(** The document youtube-dl dumps, as far as [getVideoInfo] reads it. *)
Record VideoDocument := {
  doc_id : option string;
  doc_title : option string;
  doc_duration : option Z;
  doc_uploader : option string;
  doc_upload_date : option string;
  doc_view_count : option Z;
  doc_description : option ustring
}.

(** The part of a document that [downloadAudio] reads. *)
Definition as_info (d : VideoDocument) : VideoInfo :=
  {| info_title := doc_title d;
     info_duration := doc_duration d;
     info_uploader := doc_uploader d;
     info_upload_date := doc_upload_date d;
     info_description := doc_description d |}.

(** The result of [getVideoInfo]: [{success, info?, error?}]. *)
Module Info.
Record t := {
  id : option string;
  title : option string;
  duration : option Z;
  uploader : option string;
  uploadDate : option string;
  viewCount : option Z;
  description : ustring
}.
Record result := {
  success : bool;
  info : option t;
  error : option string
}.
End Info.

(** The oracle of youtube-dl asked for a whole document. *)
Definition Documents : Type := list event -> jsval -> Error + VideoDocument.

Section Information.

Variable w_document : Documents.

Definition youtubedl_document (url : jsval) : M VideoDocument := fun st =>
  match w_document (log st) url with
  | inr d => (Ret d, record (YoutubeDlJson url) (GotInfo (as_info d)) st)
  | inl e => (Throw e, record (YoutubeDlJson url) (Failed e) st)
  end.

(** [info.description?.substring(0, 500) + '...']: [substring] counts
    code units, and a description that is not there gives
    [undefined + '...']. *)
Definition summary (description : option ustring) : ustring :=
  default (units "undefined") (take 500 <$> description) ++ units "...".

Definition getVideoInfo (videoUrl : jsval) : M Info.result :=
  try_catch
    (info ← youtubedl_document videoUrl;
     mret {| Info.success := true;
             Info.info :=
               Some {| Info.id := doc_id info;
                       Info.title := doc_title info;
                       Info.duration := doc_duration info;
                       Info.uploader := doc_uploader info;
                       Info.uploadDate := doc_upload_date info;
                       Info.viewCount := doc_view_count info;
                       Info.description := summary (doc_description info) |};
             Info.error := None |})
    (fun error =>
       console_error ("[YouTubeService] Info retrieval error: "
                      +:+ message error);;
       mret {| Info.success := false;
               Info.info := None;
               Info.error :=
                 Some (or_else (message error)
                               "Failed to retrieve video information") |}).

End Information.

(** *** AudioExtractionService.getVideoInfo *)

Module AudioExtractionService.

(** [return await this.youtubeService.getVideoInfo(videoUrl)] *)
Definition getVideoInfo (w_document : Documents) (videoUrl : jsval)
  : M Info.result :=
  result ← getVideoInfo w_document videoUrl;
  mret result.

End AudioExtractionService.

(** *** The controller *)

(** [req.body], with the properties the handlers read; the client
    decides what they hold, and a property that is not there is
    [JUndefined]. *)
Record Body := {
  body_url : jsval;
  body_cleanupTemp : jsval
}.

(** What a handler passes to [res.json]: [{success: false, error,
    details?}], or the result of a service. *)
Inductive payload :=
| Problem (error : string) (details : option string)
| JobResult (r : Job.result)
| InfoResult (r : Info.result).

(** The response that is sent: [res.status(code).json(body)]; without
    [status], the code is 200. *)
Record Response := {
  status : Z;
  json : payload
}.

(** [const { url, ... } = req.body]: there is nothing to destructure in
    [undefined]. *)
Definition destructure (body : option Body) : M Body :=
  match body with
  | Some b => mret b
  | None =>
      throw {| message := "Cannot destructure property 'url' of 'req.body' as it is undefined." |}
  end.

(** [cleanupTemp = true] in the destructuring pattern. *)
Definition or_true (v : jsval) : jsval :=
  match v with JUndefined => JBool true | _ => v end.

Definition missing_url : Response :=
  {| status := 400;
     json := Problem "Missing required parameter: url" None |}.

Definition internal_error (error : Error) : Response :=
  {| status := 500;
     json := Problem "Internal server error" (Some (message error)) |}.

Module audioController.

Section Handlers.

Variable cfg : Config.
Variable W : World.
Variable w_document : Documents.

(** POST /api/extract *)
Definition extractAudio (req_body : option Body) : M Response :=
  try_catch
    (b ← destructure req_body;
     let url := body_url b in
     let cleanupTemp := or_true (body_cleanupTemp b) in
     if negb (ToBoolean url) then mret missing_url
     else
       text ← ToString url;
       console_log (NL +:+ "[API] Extract audio request received for: "
                    +:+ text);;
       result ← extractAndCleanAudio cfg W url cleanupTemp;
       if negb (Job.success result)
       then mret {| status := 400; json := JobResult result |}
       else mret {| status := 200; json := JobResult result |})
    (fun error =>
       console_error ("[API] Extract audio error: " +:+ message error);;
       mret (internal_error error)).

(** POST /api/quick-extract *)
Definition quickExtract (req_body : option Body) : M Response :=
  try_catch
    (b ← destructure req_body;
     let url := body_url b in
     if negb (ToBoolean url) then mret missing_url
     else
       text ← ToString url;
       console_log (NL +:+ "[API] Quick extract request received for: "
                    +:+ text);;
       result ← quickExtract cfg W url;
       if negb (Job.success result)
       then mret {| status := 400; json := JobResult result |}
       else mret {| status := 200; json := JobResult result |})
    (fun error =>
       console_error ("[API] Quick extract error: " +:+ message error);;
       mret (internal_error error)).

(** POST /api/video-info *)
Definition getVideoInfo (req_body : option Body) : M Response :=
  try_catch
    (b ← destructure req_body;
     let url := body_url b in
     if negb (ToBoolean url) then mret missing_url
     else
       text ← ToString url;
       console_log (NL +:+ "[API] Video info request for: " +:+ text);;
       result ← AudioExtractionService.getVideoInfo w_document url;
       if negb (Info.success result)
       then mret {| status := 400; json := InfoResult result |}
       else mret {| status := 200; json := InfoResult result |})
    (fun error =>
       console_error ("[API] Video info error: " +:+ message error);;
       mret (internal_error error)).

End Handlers.

End audioController.

(** ** Computations that do not read the console *)

(** Two states that differ in the console only. *)
Definition same_world (st1 st2 : state) : Prop :=
  log st1 = log st2 /\ files st1 = files st2 /\ dirs st1 = dirs st2.

Definition console_blind {A} (m : M A) : Prop :=
  forall st1 st2, same_world st1 st2 ->
    (m st1).1 = (m st2).1 /\ same_world (m st1).2 (m st2).2.

(** ** Reading references *)

(** The characters that end an id: [&], [?] and [/]. *)
Definition separator (c : ascii) : bool :=
  Ascii.eqb c "&" || Ascii.eqb c "?" || Ascii.eqb c "/".

(** The text of [s] before its first separator. *)
Definition segment (s : string) : string :=
  string_of_list_ascii
    (take_while (fun c => negb (separator c)) (list_ascii_of_string s)).

(** ** Reading the options of a filter *)

(** The text before the first [sep] of [s], and the text after it. *)
Fixpoint cut (sep : ascii) (s : string) : string * string :=
  match s with
  | EmptyString => ("", "")
  | String a s' =>
      if Ascii.eqb a sep then ("", s')
      else let (before, after) := cut sep s' in (String a before, after)
  end.

(** The options of one filter, [name=key=value:key=value:...]. *)
Definition filter_options (f : string) : list (string * string) :=
  cut "=" <$> split_on ":" (cut "=" f).2.

(** ** The functions that run one command *)

Inductive processing :=
| RawExtraction          (* extractRawAudio     *)
| NoiseFilter            (* applyNoiseReduction *)
| SilenceRemoval         (* removeSilence       *)
| VocalFilter            (* enhanceVocals       *)
| Conversion (format : string).   (* convertFormat *)

Definition processing_run (cfg : Config) (W : World) (op : processing)
  : string -> string -> M Step.result :=
  match op with
  | RawExtraction => extractRawAudio cfg W
  | NoiseFilter => applyNoiseReduction cfg W
  | SilenceRemoval => removeSilence cfg W
  | VocalFilter => enhanceVocals cfg W
  | Conversion format => fun i o => convertFormat W i o format
  end.

Definition processing_command (cfg : Config) (op : processing)
  : string -> string -> FfmpegCommand :=
  match op with
  | RawExtraction => extract_command cfg
  | NoiseFilter => noise_command cfg
  | SilenceRemoval => silence_command cfg
  | VocalFilter => vocal_command cfg
  | Conversion format => fun i o => convert_command i o format
  end.

(** ** More sample data *)

Module Catalogue.

Definition document : VideoDocument :=
  {| doc_id := Some "4wtgz5KLwOU";
     doc_title := Some "Talk";
     doc_duration := Some 12;
     doc_uploader := Some "someone";
     doc_upload_date := Some "20240101";
     doc_view_count := Some 1000;
     doc_description := Some (units "A talk.") |}.

(** youtube-dl knows every reference. *)
Definition online : Documents := fun _ _ => inr document.

(** A recording with a video stream before its audio stream. *)
Definition recording : ProbeData :=
  {| streams := [ {| codec_type := "video";
                     sample_rate := None;
                     stream_channels := None;
                     codec_name := Some "h264" |};
                  {| codec_type := "audio";
                     sample_rate := Some 48000;
                     stream_channels := Some 2;
                     codec_name := Some "aac" |} ];
     format := {| format_duration := Some 12; bit_rate := Some 128000 |} |}.

(** A world in which ffprobe reports [recording]. *)
Definition probing : World :=
  {| w_uuidv4 := fun _ => "job-1";
     w_now := fun _ => Sample.millis;
     w_mkdir := fun _ _ => None;
     w_json := fun _ _ => inr Sample.info;
     w_audio := fun _ _ _ => None;
     w_ffmpeg := fun _ _ => None;
     w_ffprobe := fun _ _ => inr recording;
     w_unlink := fun _ _ => None;
     w_unlink_missing := fun _ file => Sample.ENOENT file;
     w_debris := fun _ _ => ∅ |}.

(** A world in which no directory can be created. *)
Definition read_only : World :=
  {| w_uuidv4 := fun _ => "job-1";
     w_now := fun _ => Sample.millis;
     w_mkdir := fun _ _ => Some Sample.boom;
     w_json := fun _ _ => inr Sample.info;
     w_audio := fun _ _ _ => None;
     w_ffmpeg := fun _ _ => None;
     w_ffprobe := fun _ _ => inr Sample.probe;
     w_unlink := fun _ _ => None;
     w_unlink_missing := fun _ file => Sample.ENOENT file;
     w_debris := fun _ _ => ∅ |}.

End Catalogue.

(** * Properties *)

(** ** The matcher finds exactly the matches of the declarative reading *)

Section MatcherCorrect.
Context {A : Type}.
Implicit Types (k : cont (A:=A)) (s w : list ascii) (c : caps) (i : nat).

Lemma one_sound p i s c k a :
  one p i s c k = Some a ->
  exists x s', s = x :: s' /\ p x = true /\ k (S i) s' c = Some a.
Proof.
  destruct s as [|x s']; simpl; [discriminate|].
  destruct (p x) eqn:Hp; [|discriminate]. eauto.
Qed.

Lemma one_complete p i x s' c k :
  p x = true -> one p i (x :: s') c k = k (S i) s' c.
Proof. intros Hp. simpl. by rewrite Hp. Qed.

Lemma star_loop_sound (P : nat -> list ascii -> Prop) m k :
  (forall i s c k' a, m i s c k' = Some a ->
     exists w s' c', s = w ++ s' /\ P i w /\ k' (i + length w)%nat s' c' = Some a) ->
  forall n i s c a, star_loop m k n i s c = Some a ->
    exists w s' c', s = w ++ s' /\ star P i w
                    /\ k (i + length w)%nat s' c' = Some a.
Proof.
  intros Hm. induction n as [|n IH]; intros i s c a; simpl.
  - intros Hk. exists [], s, c. rewrite Nat.add_0_r. split_and!; [done|constructor|done].
  - destruct (m i s c _) as [a'|] eqn:Em.
    + intros [= ->]. apply Hm in Em as (w1 & s1 & c1 & -> & Hw1 & Hk1).
      destruct (_ <? _)%nat; [|discriminate].
      apply IH in Hk1 as (w2 & s2 & c2 & -> & Hw2 & Hk2).
      exists (w1 ++ w2), s2, c2. rewrite <- app_assoc. split_and!; [done| |].
      * by constructor.
      * by rewrite length_app, Nat.add_assoc.
    + intros Hk. exists [], s, c. rewrite Nat.add_0_r. split_and!; [done|constructor|done].
Qed.

Lemma star_loop_complete (P : nat -> list ascii -> Prop) m k :
  (forall i w s' c k', P i w -> (forall c', is_Some (k' (i + length w)%nat s' c')) ->
     is_Some (m i (w ++ s') c k')) ->
  forall i w, star P i w ->
  forall n s' c, (length (w ++ s') <= n)%nat ->
    (forall c', is_Some (k (i + length w)%nat s' c')) ->
    is_Some (star_loop m k n i (w ++ s') c).
Proof.
  intros Hm i w Hstar. induction Hstar as [i|i w1 w2 Hw1 Hw2 IH]; intros n s' c Hn Hk.
  - rewrite Nat.add_0_r in Hk. destruct n as [|n]; simpl; [done|].
    by destruct (m i s' c _).
  - destruct w1 as [|x w1].
    { simpl in *. rewrite Nat.add_0_r in *. by apply IH. }
    destruct n as [|n]; [simpl in Hn; lia|].
    cbn [star_loop]. rewrite <- app_assoc.
    edestruct (Hm i (x :: w1) (w2 ++ s') c) as [a Ha]; [done| |by rewrite Ha].
    intros c'. cbn beta. rewrite (proj2 (Nat.ltb_lt _ _)).
    2:{ rewrite !length_app. simpl. lia. }
    apply IH.
    + rewrite <- app_assoc, !length_app in Hn. rewrite length_app. simpl in Hn. lia.
    + intros c''. rewrite length_app, Nat.add_assoc in Hk. apply Hk.
Qed.
End MatcherCorrect.

Lemma bt_sound r : forall A i s c (k : cont (A:=A)) a,
  bt r i s c k = Some a ->
  exists w s' c', s = w ++ s' /\ matches r i w /\ k (i + length w)%nat s' c' = Some a.
Proof.
  induction r as [ |x| |neg items|r1 IH1 r2 IH2|r1 IH1 r2 IH2|r1 IH1|r1 IH1|n r1 IH1| ];
    intros A i s c k a; simpl.
  - intros H. exists [], s, c. by rewrite Nat.add_0_r.
  - intros (y & s' & -> & Hy & Hk)%one_sound.
    apply Ascii.eqb_eq in Hy as <-. exists [x], s', c. by rewrite Nat.add_1_r.
  - intros (y & s' & -> & Hy & Hk)%one_sound.
    apply negb_true_iff in Hy. exists [y], s', c. rewrite Nat.add_1_r. eauto.
  - intros (y & s' & -> & Hy & Hk)%one_sound.
    exists [y], s', c. rewrite Nat.add_1_r. eauto.
  - intros (w1 & s1 & c1 & -> & Hw1 & (w2 & s2 & c2 & -> & Hw2 & Hk)%IH2)%IH1.
    exists (w1 ++ w2), s2, c2. rewrite <- app_assoc, length_app, Nat.add_assoc. eauto 8.
  - destruct (bt r1 i s c k) as [a'|] eqn:E1.
    + intros [= ->]. apply IH1 in E1 as (w & s' & c' & -> & Hw & Hk). eauto 8.
    + intros (w & s' & c' & -> & Hw & Hk)%IH2. eauto 8.
  - destruct (bt r1 i s c _) as [a'|] eqn:E1.
    + intros [= ->]. apply IH1 in E1 as (w & s' & c' & -> & Hw & Hk).
      destruct (_ <? _)%nat; [|discriminate]. eauto 8.
    + intros H. exists [], s, c. rewrite Nat.add_0_r. eauto.
  - intros H.
    exact (star_loop_sound (matches r1) (bt r1) k
             (fun i s c k' a => IH1 A i s c k' a) _ _ _ _ _ H).
  - intros (w & s' & c' & -> & Hw & Hk)%IH1. eauto 8.
  - destruct (Nat.eqb_spec i 0) as [->|]; [|discriminate].
    intros H. exists [], s, c. eauto.
Qed.

Lemma bt_complete r : forall A i w s' c (k : cont (A:=A)),
  matches r i w -> (forall c', is_Some (k (i + length w)%nat s' c')) ->
  is_Some (bt r i (w ++ s') c k).
Proof.
  induction r as [ |x| |neg items|r1 IH1 r2 IH2|r1 IH1 r2 IH2|r1 IH1|r1 IH1|n r1 IH1| ];
    intros A i w s' c k; simpl.
  - intros -> Hk. rewrite Nat.add_0_r in Hk. apply Hk.
  - intros -> Hk. simpl. rewrite Ascii.eqb_refl. rewrite Nat.add_1_r in Hk. apply Hk.
  - intros (y & -> & Hy) Hk. simpl. rewrite Hy. rewrite Nat.add_1_r in Hk. apply Hk.
  - intros (y & -> & Hy) Hk. simpl. rewrite Hy. rewrite Nat.add_1_r in Hk. apply Hk.
  - intros (w1 & w2 & -> & Hw1 & Hw2) Hk. rewrite <- app_assoc.
    apply IH1; [done|]. intros c'. apply IH2; [done|].
    intros c''. rewrite length_app, Nat.add_assoc in Hk. apply Hk.
  - intros [Hw|Hw] Hk.
    + edestruct (IH1 A i w s' c k) as [a Ha]; [done..|]. by rewrite Ha.
    + destruct (bt r1 i (w ++ s') c k); [done|]. by apply IH2.
  - intros [->|Hw] Hk.
    + rewrite Nat.add_0_r in Hk. simpl. by destruct (bt r1 i s' c _).
    + destruct w as [|x w].
      { rewrite Nat.add_0_r in Hk. simpl. by destruct (bt r1 i s' c _). }
      edestruct (IH1 A i (x :: w) s' c) as [a Ha]; [done| |by rewrite Ha].
      intros c'. cbn beta. rewrite (proj2 (Nat.ltb_lt _ _)); [done|].
      rewrite length_app. simpl. lia.
  - intros Hw Hk. eapply (star_loop_complete (matches r1)); eauto.
  - intros Hw Hk. apply IH1; [done|]. intros c'. apply Hk.
  - intros [-> ->] Hk. apply Hk.
Qed.

Lemma search_sound r : forall s i m,
  search r i s = Some m ->
  exists pre w post, s = pre ++ w ++ post /\ matches r (i + length pre)%nat w.
Proof.
  induction s as [|x s IH]; intros i m; simpl.
  - destruct (bt r i [] [] _) eqn:E; [|discriminate]. intros _.
    apply bt_sound in E as (w & s' & c' & Hs & Hw & _).
    exists [], w, s'. rewrite Nat.add_0_r. eauto.
  - destruct (bt r i (x :: s) [] _) eqn:E.
    + intros _. apply bt_sound in E as (w & s' & c' & Hs & Hw & _).
      exists [], w, s'. rewrite Nat.add_0_r. eauto.
    + intros (pre & w & post & -> & Hw)%IH.
      exists (x :: pre), w, post. split; [done|].
      simpl length. by rewrite Nat.add_succ_r.
  Qed.

Lemma search_complete r : forall pre i w post,
  matches r (i + length pre)%nat w -> is_Some (search r i (pre ++ w ++ post)).
Proof.
  induction pre as [|x pre IH]; intros i w post Hw.
  - rewrite Nat.add_0_r in Hw. simpl.
    assert (is_Some (bt r i (w ++ post) [] (fun _ _ c => Some c))) as [c Hc].
    { apply bt_complete; [done|]. by eexists. }
    destruct (w ++ post); simpl; rewrite Hc; by eexists.
  - simpl. destruct (bt r i _ [] _); [by eexists|].
    apply IH. simpl length in Hw. by rewrite Nat.add_succ_r in Hw.
Qed.

Lemma test_spec r str :
  test r str = true <->
  exists pre w post, list_ascii_of_string str = pre ++ w ++ post
                     /\ matches r (length pre) w.
Proof.
  unfold test, exec. split.
  - destruct (search r 0 _) eqn:E; [|discriminate]. intros _.
    by apply search_sound in E.
  - intros (pre & w & post & -> & Hw).
    by destruct (search_complete r pre 0%nat w post Hw) as [m ->].
Qed.

(** ** Strings as character lists *)

Lemma chars_app (a b : string) :
  list_ascii_of_string (a +:+ b) = list_ascii_of_string a ++ list_ascii_of_string b.
Proof.
  induction a as [|x a IH]; [done|].
  change (String x a +:+ b) with (String x (a +:+ b)).
  cbn [list_ascii_of_string app]. by rewrite IH.
Qed.

Lemma str_app (a b : list ascii) :
  string_of_list_ascii (a ++ b) = string_of_list_ascii a +:+ string_of_list_ascii b.
Proof.
  induction a as [|x a IH]; [done|].
  cbn [app string_of_list_ascii]. rewrite IH. done.
Qed.

Lemma chars_inj (a b : string) :
  list_ascii_of_string a = list_ascii_of_string b -> a = b.
Proof.
  intros H. rewrite <- (string_of_list_ascii_of_string a), H.
  apply string_of_list_ascii_of_string.
Qed.

Lemma string_app_assoc (a b c : string) : (a +:+ b) +:+ c = a +:+ b +:+ c.
Proof. apply chars_inj. by rewrite !chars_app, app_assoc. Qed.

Lemma matches_Str s : forall i w,
  matches (Str s) i w <-> w = list_ascii_of_string s.
Proof.
  induction s as [|x s IH]; intros i w; [done|].
  destruct s as [|y s]; [done|].
  change (Str (String x (String y s))) with (Seq (Lit x) (Str (String y s))).
  cbn [matches]. split.
  - intros (w1 & w2 & -> & -> & Hw2). apply IH in Hw2 as ->. done.
  - intros ->. exists [x], (list_ascii_of_string (String y s)). split_and!; [done..|].
    by apply IH.
Qed.

Lemma star_class (p : ascii -> bool) (P : nat -> list ascii -> Prop) :
  (forall i w, P i w <-> exists x, w = [x] /\ p x = true) ->
  forall i w, star P i w <-> Forall (fun x => p x = true) w.
Proof.
  intros HP i w. split.
  - induction 1 as [|i w1 w2 Hw1 _ IH]; [constructor|].
    apply HP in Hw1 as (x & -> & Hx). by constructor.
  - intros H. revert i. induction H as [|x w Hx _ IH]; intros i; [constructor|].
    change (x :: w) with ([x] ++ w). constructor; [|apply IH].
    apply HP. eauto.
Qed.

Lemma matches_id_plus i w :
  matches (Plus id_class) i w <-> Reference.id (string_of_list_ascii w).
Proof.
  unfold Plus, Reference.id. cbn [matches]. split.
  - intros (w1 & w2 & -> & (x & -> & Hx) & Hw2).
    apply (star_class (set_has false [CWord; CChar "-"])) in Hw2; [|done].
    split; [done|]. rewrite list_ascii_of_string_of_list_ascii.
    constructor.
    + unfold set_has in Hx. simpl in Hx. by rewrite orb_false_r in Hx.
    + eapply Forall_impl; [exact Hw2|]. intros c Hc.
      unfold set_has in Hc. simpl in Hc. by rewrite orb_false_r in Hc.
  - rewrite list_ascii_of_string_of_list_ascii. intros [Hne Hall].
    destruct w as [|x w]; [done|]. apply Forall_cons in Hall as [Hx Hw].
    exists [x], w. split_and!; [done| |].
    + exists x. split; [done|]. unfold set_has. simpl. by rewrite orb_false_r.
    + apply (star_class (set_has false [CWord; CChar "-"])); [done|].
      eapply Forall_impl; [exact Hw|]. intros c Hc.
      unfold set_has. simpl. by rewrite orb_false_r.
Qed.

Lemma matches_any_line i w :
  matches (Star Dot) i w <-> Reference.single_line (string_of_list_ascii w).
Proof.
  unfold Reference.single_line. rewrite list_ascii_of_string_of_list_ascii.
  cbn [matches].
  rewrite (star_class (fun x => negb (is_line_terminator x))).
  - apply Forall_proper; [|done]. intros c. apply negb_true_iff.
  - intros j v. cbn [matches]. split; intros (x & -> & Hx); exists x; split; try done.
    + by apply negb_true_iff.
    + by apply negb_true_iff in Hx.
Qed.

Lemma matches_scheme n i w :
  matches (Opt (Group n (Str "http" ⋅ Opt (Lit "s") ⋅ Str "://")))%re i w
  <-> Reference.scheme (string_of_list_ascii w).
Proof.
  unfold Reference.scheme. cbn [matches]. split.
  - intros [->|(w1 & w2 & -> & Hw1 & (w3 & w4 & -> & [->| ->] & Hw4))]; [by left|..];
      apply matches_Str in Hw1 as ->; apply matches_Str in Hw4 as ->; auto.
  - intros [H|[H|H]]; apply (f_equal list_ascii_of_string) in H;
      rewrite list_ascii_of_string_of_list_ascii in H; subst w; [by left|right..].
    + exists (list_ascii_of_string "http"), (list_ascii_of_string "://").
      split_and!; [done|by apply matches_Str|].
      exists [], (list_ascii_of_string "://"). split_and!; [done|by left|by apply matches_Str].
    + exists (list_ascii_of_string "http"), (list_ascii_of_string "s://").
      split_and!; [done|by apply matches_Str|].
      exists ["s"%char], (list_ascii_of_string "://"). split_and!; [done|by right|by apply matches_Str].
Qed.

Lemma matches_www n i w :
  matches (Opt (Group n (Str "www."))) i w
  <-> Reference.www (string_of_list_ascii w).
Proof.
  unfold Reference.www. cbn [matches]. rewrite matches_Str. split.
  - intros [->| ->]; auto.
  - intros [H|H]; apply (f_equal list_ascii_of_string) in H;
      rewrite list_ascii_of_string_of_list_ascii in H; auto.
Qed.

(** ** Reference validation *)

Lemma str_chars_eq (url : string) (l : list ascii) :
  list_ascii_of_string url = l -> url = string_of_list_ascii l.
Proof. intros <-. by rewrite string_of_list_ascii_of_string. Qed.

Lemma valid_pattern_1_spec url :
  test valid_pattern_1 url = true <->
  exists sch w host i rest,
    url = sch +:+ w +:+ host +:+ i +:+ rest
    /\ Reference.scheme sch /\ Reference.www w
    /\ (host = "youtube.com/watch?v=" \/ host = "youtu.be/")
    /\ Reference.id i.
Proof.
  rewrite test_spec. unfold valid_pattern_1. split.
  - intros (pre & w & post & Hurl & H).
    destruct H as (w0 & w1 & -> & [-> Hpre] & H).
    destruct H as (ws & w2 & -> & Hs%matches_scheme & H).
    destruct H as (ww & w3 & -> & Hw%matches_www & H).
    destruct H as (wh & wi & -> & Hh & Hi%matches_id_plus).
    apply nil_length_inv in Hpre as ->.
    exists (string_of_list_ascii ws), (string_of_list_ascii ww),
      (string_of_list_ascii wh), (string_of_list_ascii wi),
      (string_of_list_ascii post).
    split_and!; [|done|done| |done].
    + apply str_chars_eq in Hurl as ->. cbn [app].
      by rewrite <- !app_assoc, !str_app.
    + cbn [matches] in Hh. rewrite !matches_Str in Hh.
      destruct Hh as [-> | ->]; auto.
  - intros (sch & w & host & i & rest & -> & Hs & Hw & Hh & Hi).
    exists [], (list_ascii_of_string (sch +:+ w +:+ host +:+ i)),
      (list_ascii_of_string rest).
    split; [by rewrite !chars_app, <- !app_assoc|].
    exists [], (list_ascii_of_string (sch +:+ w +:+ host +:+ i)).
    split_and!; [done|done|]. rewrite !chars_app.
    eexists _, _. split_and!; [done|apply matches_scheme; by rewrite string_of_list_ascii_of_string|].
    eexists _, _. split_and!; [done|apply matches_www; by rewrite string_of_list_ascii_of_string|].
    eexists _, _. split_and!; [done| |apply matches_id_plus; by rewrite string_of_list_ascii_of_string].
    cbn [matches]. rewrite !matches_Str. destruct Hh as [-> | ->]; auto.
Qed.

Lemma valid_pattern_2_spec url :
  test valid_pattern_2 url = true <-> Reference.watch_page_form url.
Proof.
  rewrite test_spec. unfold valid_pattern_2, Reference.watch_page_form. split.
  - intros (pre & w & post & Hurl & H).
    destruct H as (w0 & w1 & -> & [-> Hpre] & H).
    destruct H as (ws & w2 & -> & Hs%matches_scheme & H).
    destruct H as (ww & w3 & -> & Hw%matches_www & H).
    destruct H as (wh & w4 & -> & Hh%matches_Str & H).
    destruct H as (wq & w5 & -> & Hq%matches_any_line & H).
    destruct H as (wv & wi & -> & Hv%matches_Str & Hi%matches_id_plus).
    apply nil_length_inv in Hpre as ->. subst wh wv.
    exists (string_of_list_ascii ws), (string_of_list_ascii ww),
      (string_of_list_ascii wq), (string_of_list_ascii wi),
      (string_of_list_ascii post).
    split_and!; [|done..].
    apply str_chars_eq in Hurl as ->. cbn [app].
    rewrite <- !app_assoc, !str_app.
    by rewrite !string_of_list_ascii_of_string.
  - intros (sch & w & q & i & rest & -> & Hs & Hw & Hq & Hi).
    exists [], (list_ascii_of_string
                  (sch +:+ w +:+ "youtube.com/watch?" +:+ q +:+ "v=" +:+ i)),
      (list_ascii_of_string rest).
    split; [by rewrite !chars_app, <- !app_assoc|].
    eexists [], _.
    split_and!; [done|done|]. rewrite !chars_app.
    eexists _, _. split_and!; [done|apply matches_scheme; by rewrite string_of_list_ascii_of_string|].
    eexists _, _. split_and!; [done|apply matches_www; by rewrite string_of_list_ascii_of_string|].
    eexists _, _. split_and!; [done|by apply matches_Str|].
    eexists _, _. split_and!; [done|apply matches_any_line; by rewrite string_of_list_ascii_of_string|].
    eexists _, _. split_and!; [done|by apply matches_Str|].
    apply matches_id_plus; by rewrite string_of_list_ascii_of_string.
Qed.

Lemma isValidYouTubeUrl_spec url :
  isValidYouTubeUrl url = true <->
  Reference.watch_page_form url \/ Reference.short_link_form url.
Proof.
  unfold isValidYouTubeUrl. cbn [existsb]. rewrite orb_false_r, orb_true_iff.
  rewrite valid_pattern_1_spec, valid_pattern_2_spec. split.
  - intros [(sch & w & host & i & rest & -> & Hs & Hw & [-> | ->] & Hi)|H]; [| |by left].
    + left. exists sch, w, "", i, rest. split_and!; try done. constructor.
    + right. exists sch, w, i, rest. done.
  - intros [H|(sch & w & i & rest & -> & Hs & Hw & Hi)]; [by right|].
    left. exists sch, w, "youtu.be/", i, rest. split_and!; auto.
Qed.

(** ** The validator on any string *)

Section UnitMatcherCorrect.
Context {A : Type}.
Implicit Types (k : Utf16.cont (A:=A)) (s w : list N) (c : Utf16.caps) (i : nat).

Lemma unit_one_sound p i s c k a :
  Utf16.one p i s c k = Some a ->
  exists x s', s = x :: s' /\ p x = true /\ k (S i) s' c = Some a.
Proof.
  destruct s as [|x s']; simpl; [discriminate|].
  destruct (p x) eqn:Hp; [|discriminate]. eauto.
Qed.

Lemma unit_star_loop_sound (P : nat -> list N -> Prop) m k :
  (forall i s c k' a, m i s c k' = Some a ->
     exists w s' c', s = w ++ s' /\ P i w /\ k' (i + length w)%nat s' c' = Some a) ->
  forall n i s c a, Utf16.star_loop m k n i s c = Some a ->
    exists w s' c', s = w ++ s' /\ Utf16.star P i w
                    /\ k (i + length w)%nat s' c' = Some a.
Proof.
  intros Hm. induction n as [|n IH]; intros i s c a; simpl.
  - intros Hk. exists [], s, c. rewrite Nat.add_0_r. split_and!; [done|constructor|done].
  - destruct (m i s c _) as [a'|] eqn:Em.
    + intros [= ->]. apply Hm in Em as (w1 & s1 & c1 & -> & Hw1 & Hk1).
      destruct (_ <? _)%nat; [|discriminate].
      apply IH in Hk1 as (w2 & s2 & c2 & -> & Hw2 & Hk2).
      exists (w1 ++ w2), s2, c2. rewrite <- app_assoc. split_and!; [done| |].
      * by constructor.
      * by rewrite length_app, Nat.add_assoc.
    + intros Hk. exists [], s, c. rewrite Nat.add_0_r. split_and!; [done|constructor|done].
Qed.

Lemma unit_star_loop_complete (P : nat -> list N -> Prop) m k :
  (forall i w s' c k', P i w -> (forall c', is_Some (k' (i + length w)%nat s' c')) ->
     is_Some (m i (w ++ s') c k')) ->
  forall i w, Utf16.star P i w ->
  forall n s' c, (length (w ++ s') <= n)%nat ->
    (forall c', is_Some (k (i + length w)%nat s' c')) ->
    is_Some (Utf16.star_loop m k n i (w ++ s') c).
Proof.
  intros Hm i w Hstar. induction Hstar as [i|i w1 w2 Hw1 Hw2 IH]; intros n s' c Hn Hk.
  - rewrite Nat.add_0_r in Hk. destruct n as [|n]; simpl; [done|].
    by destruct (m i s' c _).
  - destruct w1 as [|x w1].
    { simpl in *. rewrite Nat.add_0_r in *. by apply IH. }
    destruct n as [|n]; [simpl in Hn; lia|].
    cbn [Utf16.star_loop]. rewrite <- app_assoc.
    edestruct (Hm i (x :: w1) (w2 ++ s') c) as [a Ha]; [done| |by rewrite Ha].
    intros c'. cbn beta. rewrite (proj2 (Nat.ltb_lt _ _)).
    2:{ rewrite !length_app. simpl. lia. }
    apply IH.
    + rewrite <- app_assoc, !length_app in Hn. rewrite length_app. simpl in Hn. lia.
    + intros c''. rewrite length_app, Nat.add_assoc in Hk. apply Hk.
Qed.
End UnitMatcherCorrect.

Lemma unit_bt_sound r : forall A i s c (k : Utf16.cont (A:=A)) a,
  Utf16.bt r i s c k = Some a ->
  exists w s' c', s = w ++ s' /\ Utf16.matches r i w
                  /\ k (i + length w)%nat s' c' = Some a.
Proof.
  induction r as [ |x| |neg items|r1 IH1 r2 IH2|r1 IH1 r2 IH2|r1 IH1|r1 IH1|n r1 IH1| ];
    intros A i s c k a; simpl.
  - intros H. exists [], s, c. by rewrite Nat.add_0_r.
  - intros (y & s' & -> & Hy & Hk)%unit_one_sound.
    apply N.eqb_eq in Hy as <-. exists [code x], s', c. by rewrite Nat.add_1_r.
  - intros (y & s' & -> & Hy & Hk)%unit_one_sound.
    apply negb_true_iff in Hy. exists [y], s', c. rewrite Nat.add_1_r. eauto.
  - intros (y & s' & -> & Hy & Hk)%unit_one_sound.
    exists [y], s', c. rewrite Nat.add_1_r. eauto.
  - intros (w1 & s1 & c1 & -> & Hw1 & (w2 & s2 & c2 & -> & Hw2 & Hk)%IH2)%IH1.
    exists (w1 ++ w2), s2, c2. rewrite <- app_assoc, length_app, Nat.add_assoc. eauto 8.
  - destruct (Utf16.bt r1 i s c k) as [a'|] eqn:E1.
    + intros [= ->]. apply IH1 in E1 as (w & s' & c' & -> & Hw & Hk). eauto 8.
    + intros (w & s' & c' & -> & Hw & Hk)%IH2. eauto 8.
  - destruct (Utf16.bt r1 i s c _) as [a'|] eqn:E1.
    + intros [= ->]. apply IH1 in E1 as (w & s' & c' & -> & Hw & Hk).
      destruct (_ <? _)%nat; [|discriminate]. eauto 8.
    + intros H. exists [], s, c. rewrite Nat.add_0_r. eauto.
  - intros H.
    exact (unit_star_loop_sound (Utf16.matches r1) (Utf16.bt r1) k
             (fun i s c k' a => IH1 A i s c k' a) _ _ _ _ _ H).
  - intros (w & s' & c' & -> & Hw & Hk)%IH1. eauto 8.
  - destruct (Nat.eqb_spec i 0) as [->|]; [|discriminate].
    intros H. exists [], s, c. eauto.
Qed.

Lemma unit_bt_complete r : forall A i w s' c (k : Utf16.cont (A:=A)),
  Utf16.matches r i w -> (forall c', is_Some (k (i + length w)%nat s' c')) ->
  is_Some (Utf16.bt r i (w ++ s') c k).
Proof.
  induction r as [ |x| |neg items|r1 IH1 r2 IH2|r1 IH1 r2 IH2|r1 IH1|r1 IH1|n r1 IH1| ];
    intros A i w s' c k; simpl.
  - intros -> Hk. rewrite Nat.add_0_r in Hk. apply Hk.
  - intros -> Hk. simpl. rewrite N.eqb_refl. rewrite Nat.add_1_r in Hk. apply Hk.
  - intros (y & -> & Hy) Hk. simpl. rewrite Hy. rewrite Nat.add_1_r in Hk. apply Hk.
  - intros (y & -> & Hy) Hk. simpl. rewrite Hy. rewrite Nat.add_1_r in Hk. apply Hk.
  - intros (w1 & w2 & -> & Hw1 & Hw2) Hk. rewrite <- app_assoc.
    apply IH1; [done|]. intros c'. apply IH2; [done|].
    intros c''. rewrite length_app, Nat.add_assoc in Hk. apply Hk.
  - intros [Hw|Hw] Hk.
    + edestruct (IH1 A i w s' c k) as [a Ha]; [done..|]. by rewrite Ha.
    + destruct (Utf16.bt r1 i (w ++ s') c k); [done|]. by apply IH2.
  - intros [->|Hw] Hk.
    + rewrite Nat.add_0_r in Hk. simpl. by destruct (Utf16.bt r1 i s' c _).
    + destruct w as [|x w].
      { rewrite Nat.add_0_r in Hk. simpl. by destruct (Utf16.bt r1 i s' c _). }
      edestruct (IH1 A i (x :: w) s' c) as [a Ha]; [done| |by rewrite Ha].
      intros c'. cbn beta. rewrite (proj2 (Nat.ltb_lt _ _)); [done|].
      rewrite length_app. simpl. lia.
  - intros Hw Hk. eapply (unit_star_loop_complete (Utf16.matches r1)); eauto.
  - intros Hw Hk. apply IH1; [done|]. intros c'. apply Hk.
  - intros [-> ->] Hk. apply Hk.
Qed.

Lemma unit_search_sound r : forall s i m,
  Utf16.search r i s = Some m ->
  exists pre w post, s = pre ++ w ++ post /\ Utf16.matches r (i + length pre)%nat w.
Proof.
  induction s as [|x s IH]; intros i m; simpl.
  - destruct (Utf16.bt r i [] [] _) eqn:E; [|discriminate]. intros _.
    apply unit_bt_sound in E as (w & s' & c' & Hs & Hw & _).
    exists [], w, s'. rewrite Nat.add_0_r. eauto.
  - destruct (Utf16.bt r i (x :: s) [] _) eqn:E.
    + intros _. apply unit_bt_sound in E as (w & s' & c' & Hs & Hw & _).
      exists [], w, s'. rewrite Nat.add_0_r. eauto.
    + intros (pre & w & post & -> & Hw)%IH.
      exists (x :: pre), w, post. split; [done|].
      simpl length. by rewrite Nat.add_succ_r.
Qed.

Lemma unit_search_complete r : forall pre i w post,
  Utf16.matches r (i + length pre)%nat w ->
  is_Some (Utf16.search r i (pre ++ w ++ post)).
Proof.
  induction pre as [|x pre IH]; intros i w post Hw.
  - rewrite Nat.add_0_r in Hw. simpl.
    assert (is_Some (Utf16.bt r i (w ++ post) [] (fun _ _ c => Some c))) as [c Hc].
    { apply unit_bt_complete; [done|]. by eexists. }
    destruct (w ++ post); simpl; rewrite Hc; by eexists.
  - simpl. destruct (Utf16.bt r i _ [] _); [by eexists|].
    apply IH. simpl length in Hw. by rewrite Nat.add_succ_r in Hw.
Qed.

Lemma unit_test_spec r str :
  Utf16.test r str = true <->
  exists pre w post, str = pre ++ w ++ post /\ Utf16.matches r (length pre) w.
Proof.
  unfold Utf16.test, Utf16.exec. split.
  - destruct (Utf16.search r 0 _) eqn:E; [|discriminate]. intros _.
    by apply unit_search_sound in E.
  - intros (pre & w & post & -> & Hw).
    by destruct (unit_search_complete r pre 0%nat w post Hw) as [m ->].
Qed.

Lemma unit_matches_Str s : forall i w,
  Utf16.matches (Str s) i w <-> w = units s.
Proof.
  induction s as [|x s IH]; intros i w; [done|].
  destruct s as [|y s]; [done|].
  change (Str (String x (String y s))) with (Seq (Lit x) (Str (String y s))).
  cbn [Utf16.matches]. split.
  - intros (w1 & w2 & -> & -> & Hw2). apply IH in Hw2 as ->. done.
  - intros ->. exists [code x], (units (String y s)). split_and!; [done..|].
    by apply IH.
Qed.

Lemma unit_star_class (p : N -> bool) (P : nat -> list N -> Prop) :
  (forall i w, P i w <-> exists x, w = [x] /\ p x = true) ->
  forall i w, Utf16.star P i w <-> Forall (fun x => p x = true) w.
Proof.
  intros HP i w. split.
  - induction 1 as [|i w1 w2 Hw1 _ IH]; [constructor|].
    apply HP in Hw1 as (x & -> & Hx). by constructor.
  - intros H. revert i. induction H as [|x w Hx _ IH]; intros i; [constructor|].
    change (x :: w) with ([x] ++ w). constructor; [|apply IH].
    apply HP. eauto.
Qed.

Lemma unit_matches_id_plus i w :
  Utf16.matches (Plus id_class) i w <-> Utf16.id w.
Proof.
  unfold Plus, Utf16.id. cbn [Utf16.matches]. split.
  - intros (w1 & w2 & -> & (x & -> & Hx) & Hw2).
    apply (unit_star_class (Utf16.set_has false [CWord; CChar "-"])) in Hw2; [|done].
    split; [done|]. constructor.
    + unfold Utf16.set_has in Hx. simpl in Hx. by rewrite orb_false_r in Hx.
    + eapply Forall_impl; [exact Hw2|]. intros c Hc.
      unfold Utf16.set_has in Hc. simpl in Hc. by rewrite orb_false_r in Hc.
  - intros [Hne Hall].
    destruct w as [|x w]; [done|]. apply Forall_cons in Hall as [Hx Hw].
    exists [x], w. split_and!; [done| |].
    + exists x. split; [done|]. unfold Utf16.set_has. simpl. by rewrite orb_false_r.
    + apply (unit_star_class (Utf16.set_has false [CWord; CChar "-"])); [done|].
      eapply Forall_impl; [exact Hw|]. intros c Hc.
      unfold Utf16.set_has. simpl. by rewrite orb_false_r.
Qed.

Lemma unit_matches_any_line i w :
  Utf16.matches (Star Dot) i w <-> Utf16.single_line w.
Proof.
  unfold Utf16.single_line. cbn [Utf16.matches].
  rewrite (unit_star_class (fun x => negb (Utf16.is_line_terminator x))).
  - apply Forall_proper; [|done]. intros c. apply negb_true_iff.
  - intros j v. cbn [Utf16.matches]. split; intros (x & -> & Hx); exists x; split; try done.
    + by apply negb_true_iff.
    + by apply negb_true_iff in Hx.
Qed.

Lemma unit_matches_scheme n i w :
  Utf16.matches (Opt (Group n (Str "http" ⋅ Opt (Lit "s") ⋅ Str "://")))%re i w
  <-> Utf16.scheme w.
Proof.
  unfold Utf16.scheme. cbn [Utf16.matches]. split.
  - intros [->|(w1 & w2 & -> & Hw1 & (w3 & w4 & -> & [->| ->] & Hw4))]; [by left|..];
      apply unit_matches_Str in Hw1 as ->; apply unit_matches_Str in Hw4 as ->; auto.
  - intros [->|[->| ->]]; [by left|right..].
    + exists (units "http"), (units "://").
      split_and!; [done|by apply unit_matches_Str|].
      exists [], (units "://").
      split_and!; [done|by left|by apply unit_matches_Str].
    + exists (units "http"), (units "s://").
      split_and!; [done|by apply unit_matches_Str|].
      exists [code "s"], (units "://").
      split_and!; [done|by right|by apply unit_matches_Str].
Qed.

Lemma unit_matches_www n i w :
  Utf16.matches (Opt (Group n (Str "www."))) i w <-> Utf16.www w.
Proof.
  unfold Utf16.www. cbn [Utf16.matches]. by rewrite unit_matches_Str.
Qed.

Lemma unit_valid_pattern_1_spec url :
  Utf16.test valid_pattern_1 url = true <->
  exists sch w host i rest,
    url = sch ++ w ++ host ++ i ++ rest
    /\ Utf16.scheme sch /\ Utf16.www w
    /\ (host = units "youtube.com/watch?v=" \/ host = units "youtu.be/")
    /\ Utf16.id i.
Proof.
  rewrite unit_test_spec. unfold valid_pattern_1. split.
  - intros (pre & w & post & Hurl & H).
    destruct H as (w0 & w1 & -> & [-> Hpre] & H).
    destruct H as (ws & w2 & -> & Hs%unit_matches_scheme & H).
    destruct H as (ww & w3 & -> & Hw%unit_matches_www & H).
    destruct H as (wh & wi & -> & Hh & Hi%unit_matches_id_plus).
    apply nil_length_inv in Hpre as ->.
    exists ws, ww, wh, wi, post.
    split_and!; [|done|done| |done].
    + subst url. cbn [app]. by rewrite <- !app_assoc.
    + cbn [Utf16.matches] in Hh. rewrite !unit_matches_Str in Hh.
      destruct Hh as [-> | ->]; auto.
  - intros (sch & w & host & i & rest & -> & Hs & Hw & Hh & Hi).
    exists [], (sch ++ w ++ host ++ i), rest.
    split; [by rewrite <- !app_assoc|].
    exists [], (sch ++ w ++ host ++ i).
    split_and!; [done|done|].
    eexists _, _. split_and!; [done|by apply unit_matches_scheme|].
    eexists _, _. split_and!; [done|by apply unit_matches_www|].
    eexists _, _. split_and!; [done| |by apply unit_matches_id_plus].
    cbn [Utf16.matches]. rewrite !unit_matches_Str. destruct Hh as [-> | ->]; auto.
Qed.

Lemma unit_valid_pattern_2_spec url :
  Utf16.test valid_pattern_2 url = true <-> Utf16.watch_page_form url.
Proof.
  rewrite unit_test_spec. unfold valid_pattern_2, Utf16.watch_page_form. split.
  - intros (pre & w & post & Hurl & H).
    destruct H as (w0 & w1 & -> & [-> Hpre] & H).
    destruct H as (ws & w2 & -> & Hs%unit_matches_scheme & H).
    destruct H as (ww & w3 & -> & Hw%unit_matches_www & H).
    destruct H as (wh & w4 & -> & Hh%unit_matches_Str & H).
    destruct H as (wq & w5 & -> & Hq%unit_matches_any_line & H).
    destruct H as (wv & wi & -> & Hv%unit_matches_Str & Hi%unit_matches_id_plus).
    apply nil_length_inv in Hpre as ->. subst wh wv.
    exists ws, ww, wq, wi, post.
    split_and!; [|done..].
    subst url. cbn [app]. by rewrite <- !app_assoc.
  - intros (sch & w & q & i & rest & -> & Hs & Hw & Hq & Hi).
    exists [], (sch ++ w ++ units "youtube.com/watch?" ++ q
                  ++ units "v=" ++ i), rest.
    split; [by rewrite <- !app_assoc|].
    eexists [], _.
    split_and!; [done|done|].
    eexists _, _. split_and!; [done|by apply unit_matches_scheme|].
    eexists _, _. split_and!; [done|by apply unit_matches_www|].
    eexists _, _. split_and!; [done|by apply unit_matches_Str|].
    eexists _, _. split_and!; [done|by apply unit_matches_any_line|].
    eexists _, _. split_and!; [done|by apply unit_matches_Str|].
    by apply unit_matches_id_plus.
Qed.

Lemma unit_isValidYouTubeUrl_spec url :
  Utf16.isValidYouTubeUrl url = true <->
  Utf16.watch_page_form url \/ Utf16.short_link_form url.
Proof.
  unfold Utf16.isValidYouTubeUrl. cbn [existsb]. rewrite orb_false_r, orb_true_iff.
  rewrite unit_valid_pattern_1_spec, unit_valid_pattern_2_spec. split.
  - intros [(sch & w & host & i & rest & -> & Hs & Hw & [-> | ->] & Hi)|H]; [| |by left].
    + left. exists sch, w, [], i, rest. split_and!; try done. constructor.
    + right. exists sch, w, i, rest. done.
  - intros [H|(sch & w & i & rest & -> & Hs & Hw & Hi)]; [by right|].
    left. exists sch, w, (units "youtu.be/"), i, rest. split_and!; auto.
Qed.

(** ** On 8-bit characters the two engines agree *)

Lemma code_eqb a x : (code a =? code x)%N = Ascii.eqb a x.
Proof.
  unfold code. destruct (Ascii.eqb_spec a x) as [->|Hne].
  - apply N.eqb_refl.
  - apply N.eqb_neq. intros H. apply Hne.
    by rewrite <- (ascii_N_embedding a), <- (ascii_N_embedding x), H.
Qed.

Lemma code_line_terminator x :
  Utf16.is_line_terminator (code x) = is_line_terminator x.
Proof. destruct x as [[] [] [] [] [] [] [] []]; reflexivity. Qed.

Lemma code_in_range lo hi x : Utf16.in_range lo hi (code x) = in_range lo hi x.
Proof. reflexivity. Qed.

Lemma code_is_word x : Utf16.is_word (code x) = is_word x.
Proof.
  unfold Utf16.is_word, is_word. rewrite !code_in_range.
  by rewrite N.eqb_sym, code_eqb, Ascii.eqb_sym.
Qed.

Lemma code_set_has neg items x :
  Utf16.set_has neg items (code x) = set_has neg items x.
Proof.
  unfold Utf16.set_has, set_has. f_equal.
  induction items as [|it items IH]; [done|]. cbn [existsb]. rewrite IH. f_equal.
  destruct it as [a|lo hi|]; cbn [Utf16.item_has item_has].
  - by rewrite N.eqb_sym, code_eqb, Ascii.eqb_sym.
  - apply code_in_range.
  - apply code_is_word.
Qed.

Section Agreement.
Context {A' A : Type} (R : A' -> A -> Prop).

(** Two continuations that answer alike on the same input. *)
Let agree (k' : Utf16.cont (A:=A')) (k : cont (A:=A)) : Prop :=
  forall i s c, option_Forall2 R (k' i (code <$> s) (unit_caps c)) (k i s c).

Lemma one_units p' p i s c k' k :
  (forall x, p' (code x) = p x) -> agree k' k ->
  option_Forall2 R (Utf16.one p' i (code <$> s) (unit_caps c) k') (one p i s c k).
Proof.
  intros Hp Hk. destruct s as [|x s]; [constructor|].
  cbn [fmap list_fmap Utf16.one one]. rewrite Hp.
  destruct (p x); [apply Hk|constructor].
Qed.

Lemma star_loop_units m' m k' k :
  (forall i s c k1' k1, agree k1' k1 ->
     option_Forall2 R (m' i (code <$> s) (unit_caps c) k1') (m i s c k1)) ->
  agree k' k ->
  forall n i s c,
    option_Forall2 R (Utf16.star_loop m' k' n i (code <$> s) (unit_caps c))
                     (star_loop m k n i s c).
Proof.
  intros Hm Hk. induction n as [|n IH]; intros i s c; cbn [Utf16.star_loop star_loop].
  - apply Hk.
  - match goal with |- option_Forall2 _ (match ?x' with _ => _ end)
                                        (match ?x with _ => _ end) =>
      assert (option_Forall2 R x' x) as Hx end.
    { apply Hm. intros i' s' c'. cbn beta. rewrite !length_fmap.
      destruct (_ <? _)%nat; [apply IH|constructor]. }
    destruct Hx; [by constructor|apply Hk].
Qed.
End Agreement.

Lemma bt_units r : forall A' A (R : A' -> A -> Prop) i s c
    (k' : Utf16.cont (A:=A')) (k : cont (A:=A)),
  (forall i s c, option_Forall2 R (k' i (code <$> s) (unit_caps c)) (k i s c)) ->
  option_Forall2 R (Utf16.bt r i (code <$> s) (unit_caps c) k') (bt r i s c k).
Proof.
  induction r as [ |x| |neg items|r1 IH1 r2 IH2|r1 IH1 r2 IH2|r1 IH1|r1 IH1|n r1 IH1| ];
    intros A' A R i s c k' k Hk; cbn [Utf16.bt bt].
  - apply Hk.
  - apply one_units; [|done]. intros y. apply code_eqb.
  - apply one_units; [|done]. intros y. by rewrite code_line_terminator.
  - apply one_units; [|done]. intros y. apply code_set_has.
  - apply IH1. intros i' s' c'. by apply IH2.
  - destruct (IH1 _ _ R i s c k' k Hk); [by constructor|by apply IH2].
  - match goal with |- option_Forall2 _ (match ?x' with _ => _ end)
                                        (match ?x with _ => _ end) =>
      assert (option_Forall2 R x' x) as Hx end.
    { apply IH1. intros i' s' c'. cbn beta. rewrite !length_fmap.
      destruct (_ <? _)%nat; [apply Hk|constructor]. }
    destruct Hx; [by constructor|apply Hk].
  - rewrite length_fmap. apply star_loop_units; [|done].
    intros i' s' c' k1' k1 Hk1. by apply IH1.
  - apply IH1. intros i' s' c'. cbn beta.
    rewrite <- fmap_take.
    specialize (Hk i' s' ((n, string_of_list_ascii (take (i' - i) s)) :: c')).
    unfold unit_caps in Hk. cbn [fmap list_fmap fst snd] in Hk.
    unfold units in Hk. rewrite list_ascii_of_string_of_list_ascii in Hk.
    exact Hk.
  - destruct (Nat.eqb i 0); [apply Hk|constructor].
Qed.

Lemma search_units r : forall s i,
  is_Some (Utf16.search r i (code <$> s)) <-> is_Some (search r i s).
Proof.
  assert (forall s i,
            option_Forall2 (fun c' c => c' = unit_caps c)
              (Utf16.bt r i (code <$> s) [] (fun _ _ c => Some c))
              (bt r i s [] (fun _ _ c => Some c))) as Hbt.
  { intros s i. apply (bt_units r _ _ _ i s []). intros i' s' c'. by constructor. }
  induction s as [|x s IH]; intros i.
  - pose proof (Hbt [] i) as H. cbn [fmap list_fmap Utf16.search search] in *.
    destruct H; [|split; intros [? [=]]]. split; intros _; by eexists.
  - pose proof (Hbt (x :: s) i) as H. cbn [fmap list_fmap Utf16.search search] in *.
    destruct H; [|apply IH]. split; intros _; by eexists.
Qed.

(** [pattern.test] on the code units of a string of 8-bit characters
    answers what the engine of the services answers on the string. *)
Lemma test_units r (s : string) : Utf16.test r (units s) = test r s.
Proof.
  unfold Utf16.test, test, Utf16.exec, exec, units.
  pose proof (search_units r (list_ascii_of_string s) 0) as H.
  destruct (Utf16.search r 0 _) as [m'|], (search r 0 _) as [m|]; try done.
  - destruct H as [H _]. by destruct H.
  - destruct H as [_ H]. by destruct H.
Qed.

Lemma isValidYouTubeUrl_units (s : string) :
  Utf16.isValidYouTubeUrl (units s) = isValidYouTubeUrl s.
Proof.
  unfold Utf16.isValidYouTubeUrl, isValidYouTubeUrl. cbn [existsb].
  by rewrite !test_units.
Qed.

(** C6.  On every JavaScript string, [isValidYouTubeUrl] answers
    [true] when the string is of the canonical watch-page form or of the
    short-link form, and [false] when it is of neither form. *)
Theorem isValidYouTubeUrl_families (url : ustring) :
  (Utf16.watch_page_form url \/ Utf16.short_link_form url ->
   Utf16.isValidYouTubeUrl url = true)
  /\ (~ (Utf16.watch_page_form url \/ Utf16.short_link_form url) ->
      Utf16.isValidYouTubeUrl url = false).
Proof.
  split.
  - apply unit_isValidYouTubeUrl_spec.
  - intros H. apply not_true_is_false. contradict H.
    by apply unit_isValidYouTubeUrl_spec.
Qed.

Lemma isValidYouTubeUrl_families_witness :
  let url := units "https://youtu.be/4wtgz5KLwOU?si=Sa0j2gSn7aAmy01v" in
  (Utf16.watch_page_form url \/ Utf16.short_link_form url)
  /\ Utf16.isValidYouTubeUrl url = true.
Proof.
  cbv zeta.
  assert (Utf16.short_link_form
            (units "https://youtu.be/4wtgz5KLwOU?si=Sa0j2gSn7aAmy01v")) as H.
  { exists (units "https://"), [], (units "4wtgz5KLwOU"),
      (units "?si=Sa0j2gSn7aAmy01v").
    split_and!; [reflexivity|right; right; reflexivity|left; reflexivity|].
    split; [discriminate|]. repeat constructor. }
  split; [by right|].
  apply (proj1 (isValidYouTubeUrl_families
                  (units "https://youtu.be/4wtgz5KLwOU?si=Sa0j2gSn7aAmy01v"))).
  by right.
Defined.

(** The line separator U+2028 ends the run of [.]: a watch-page
    reference with one before its [v=] is rejected, with a space in its
    place it is accepted. *)
Lemma line_separator_ends_query :
  Utf16.isValidYouTubeUrl
    (units "https://www.youtube.com/watch?a" ++ [0x2028%N] ++ units "&v=abc")
  = false
  /\ Utf16.isValidYouTubeUrl (units "https://www.youtube.com/watch?a &v=abc")
     = true.
Proof. split; vm_compute; reflexivity. Qed.

(** ** Filter chains *)

Lemma string_app_cons a s t : String a s +:+ t = String a (s +:+ t).
Proof. done. Qed.

Lemma lacks_app c a b : lacks c (a +:+ b) = lacks c a && lacks c b.
Proof.
  induction a as [|x a IH]; [done|].
  rewrite string_app_cons. cbn [lacks]. by rewrite IH, andb_assoc.
Qed.

Lemma lacks_uint c d :
  lacks c "0123456789" = true -> lacks c (NilEmpty.string_of_uint d) = true.
Proof.
  intros Hc. cbn in Hc. repeat (apply andb_prop in Hc as [? Hc]).
  induction d; cbn [lacks NilEmpty.string_of_uint]; rewrite ?IHd; try done;
    by apply andb_true_intro.
Qed.

Lemma lacks_Number_toString c z :
  lacks c "-0123456789" = true -> lacks c (Number_toString z) = true.
Proof.
  intros Hc. cbn [lacks] in Hc. apply andb_prop in Hc as [Hm Hc].
  unfold Number_toString, NilZero.string_of_int, NilZero.string_of_uint.
  destruct (Z.to_int z) as [d|d].
  - destruct d; try by apply lacks_uint.
    cbn in Hc |- *. by apply andb_prop in Hc as [-> _].
  - cbn [lacks]. rewrite Hm. cbn [andb].
    destruct d; try by apply lacks_uint.
    cbn in Hc |- *. by apply andb_prop in Hc as [-> _].
Qed.

Lemma split_on_app sep a b :
  lacks sep a = true ->
  split_on sep (a +:+ String sep b) = a :: split_on sep b.
Proof.
  induction a as [|x a IH]; intros Ha.
  - change ("" +:+ String sep b) with (String sep b).
    cbn [split_on]. by rewrite Ascii.eqb_refl.
  - cbn [lacks] in Ha. apply andb_prop in Ha as [Hx Ha].
    rewrite string_app_cons. cbn [split_on].
    apply negb_true_iff in Hx. rewrite Hx, IH; done.
Qed.

Lemma filter_name_app name opts :
  lacks "=" name = true -> filter_name (name +:+ String "=" opts) = name.
Proof. intros H. unfold filter_name. by rewrite split_on_app. Qed.

(** C4.  Whatever the configuration, the filter argument of the
    noise-reduction command reads, in order: high-pass, low-pass, spectral
    (FFT) denoiser, dynamics compander; and that of the vocal-enhancement
    command reads: high-pass, low-pass, spectral denoiser, clarity-band
    equalizer, dynamics compander, loudness normalization. *)
Theorem filter_chains_in_order cfg inputPath outputPath :
  chain_of <$> audioFilters (noise_command cfg inputPath outputPath)
  = Some [Some HighPass; Some LowPass; Some SpectralDenoiser; Some Compander]
  /\ chain_of <$> audioFilters (vocal_command cfg inputPath outputPath)
     = Some [Some HighPass; Some LowPass; Some SpectralDenoiser;
             Some ClarityEqualizer; Some Compander; Some LoudnessNorm].
Proof.
  assert (forall z rest,
            split_on "," (("highpass=f=" +:+ Number_toString z) +:+ String "," rest)
            = ("highpass=f=" +:+ Number_toString z) :: split_on "," rest) as Hhp.
  { intros. apply split_on_app. rewrite lacks_app. by rewrite lacks_Number_toString. }
  assert (forall z rest,
            split_on "," (("lowpass=f=" +:+ Number_toString z) +:+ String "," rest)
            = ("lowpass=f=" +:+ Number_toString z) :: split_on "," rest) as Hlp.
  { intros. apply split_on_app. rewrite lacks_app. by rewrite lacks_Number_toString. }
  assert (forall z, filter_name ("highpass=f=" +:+ Number_toString z) = "highpass") as Nhp.
  { intros. by apply (filter_name_app "highpass"). }
  assert (forall z, filter_name ("lowpass=f=" +:+ Number_toString z) = "lowpass") as Nlp.
  { intros. by apply (filter_name_app "lowpass"). }
  unfold noise_command, vocal_command, filter_command, chain_of.
  cbn [audioFilters fmap option_fmap option_map Array_join noise_filters vocal_filters].
  split; f_equal.
  - repeat change ("," +:+ ?x) with (String "," x).
    rewrite Hhp, Hlp. cbn [fmap list_fmap]. rewrite Nhp, Nlp. reflexivity.
  - repeat change ("," +:+ ?x) with (String "," x).
    rewrite Hhp, Hlp. cbn [fmap list_fmap]. rewrite Nhp, Nlp. reflexivity.
Qed.

(** ** The files of a job *)

(** What the capture group at the end of an id pattern holds. *)
Lemma captured_id_from (pre : regex) m : forall l i,
  search (Seq pre (Group 1 (Plus capture_class))) i l = Some m ->
  exists w, group 1 m = Some (string_of_list_ascii w)
            /\ w <> []
            /\ Forall (fun c => set_has true [CChar "&"; CChar "?"; CChar "/"] c = true) w.
Proof.
  unfold group.
  induction l as [|x l IH]; intros i; cbn [search].
  all: destruct (bt _ i _ [] _) as [c|] eqn:E; [|try discriminate; try apply IH].
  all: intros [= <-]; cbn [m_caps].
  all: cbn [bt] in E.
  all: apply bt_sound in E as (w1 & s1 & c1 & Hs & _ & E).
  all: apply bt_sound in E as (w2 & s2 & c2 & -> & Hw2 & E).
  all: injection E as <-; cbn [cap_get Nat.eqb].
  all: exists w2.
  all: replace (i + length w1 + length w2 - (i + length w1))%nat with (length w2) by lia.
  all: rewrite take_app_length.
  all: destruct Hw2 as (a & b & -> & (y & -> & Hy) & Hb).
  all: split; [done|]; split; [done|]; constructor; [done|].
  all: by apply (star_class (set_has true [CChar "&"; CChar "?"; CChar "/"])) in Hb.
Qed.

Lemma captured_id (pre : regex) (url : string) m :
  exec (Seq pre (Group 1 (Plus capture_class))) url = Some m ->
  exists w, group 1 m = Some (string_of_list_ascii w)
            /\ w <> []
            /\ Forall (fun c => set_has true [CChar "&"; CChar "?"; CChar "/"] c = true) w.
Proof. apply captured_id_from. Qed.

Lemma capture_class_not_slash c :
  set_has true [CChar "&"; CChar "?"; CChar "/"] c = true -> is_slash c = false.
Proof.
  unfold set_has, is_slash. cbn. destruct (Ascii.eqb c "/"); [|done].
  by rewrite !orb_true_r.
Qed.

(** An extracted id is not empty and holds no separator. *)
Lemma extractVideoId_segment url id :
  extractVideoId url = Some id -> id <> "" /\ lacks "/" id = true.
Proof.
  unfold extractVideoId, id_pattern_1, id_pattern_2. cbn [first_id].
  assert (forall w, Forall (fun c => set_has true [CChar "&"; CChar "?"; CChar "/"] c = true) w ->
                    lacks "/" (string_of_list_ascii w) = true) as Hlacks.
  { induction 1 as [|c w Hc _ IH]; [done|]. cbn [string_of_list_ascii lacks].
    apply capture_class_not_slash in Hc. unfold is_slash in Hc. by rewrite Hc, IH. }
  destruct (exec _ url) as [m|] eqn:E1.
  - apply captured_id in E1 as (w & -> & Hne & Hall).
    destruct w as [|a w]; [done|]. cbn [string_of_list_ascii].
    intros [= <-]. split; [done|]. exact (Hlacks (a :: w) Hall).
  - clear E1. destruct (exec _ url) as [m|] eqn:E2; [|done].
    apply captured_id in E2 as (w & -> & Hne & Hall).
    destruct w as [|a w]; [done|]. cbn [string_of_list_ascii].
    intros [= <-]. split; [done|]. exact (Hlacks (a :: w) Hall).
Qed.

(** The base name of a job is a single path segment, whatever the
    reference and the clock: the names handed to [path_join] need no
    normalisation. *)
Lemma baseFilename_segment url ts :
  lacks "/" (baseFilename (extractVideoId url) ts) = true.
Proof.
  unfold baseFilename. rewrite !lacks_app.
  rewrite (lacks_Number_toString "/" ts) by reflexivity.
  destruct (extractVideoId url) as [id|] eqn:E; [|reflexivity].
  apply extractVideoId_segment in E as [_ E].
  change (or_null (Some id)) with id. rewrite E. reflexivity.
Qed.

Lemma string_length_chars s : String.length s = length (list_ascii_of_string s).
Proof. induction s; simpl; auto. Qed.

Lemma app_suffix_inj (a b t u : string) :
  String.length t = String.length u -> a +:+ t = b +:+ u -> t = u.
Proof.
  rewrite !string_length_chars. intros Hlen H.
  apply (f_equal list_ascii_of_string) in H. rewrite !chars_app in H.
  apply app_inj_2 in H as [_ H]; [|done]. by apply chars_inj.
Qed.

(** The last eight characters tell the five files of a job apart. *)
Lemma stage_output_ends cfg url ts k :
  exists x, stage_output cfg url ts k
            = x +:+ match k with
                    | Download => "_raw.wav"
                    | Extract => "ered.wav"
                    | NoiseReduction => "nced.wav"
                    | VocalEnhancement => "oice.wav"
                    | Mp3Conversion => "oice.mp3"
                    end.
Proof.
  set (b := job_base url ts).
  destruct k; cbn [stage_output];
    unfold rawAudioPath, filteredAudioPath, enhancedAudioPath, cleanVoicePath,
      mp3OutputPath, path_join; fold b.
  - exists (tempDir cfg +:+ "/" +:+ b). by rewrite !string_app_assoc.
  - exists (tempDir cfg +:+ "/" +:+ b +:+ "_filt"). by rewrite !string_app_assoc.
  - exists (tempDir cfg +:+ "/" +:+ b +:+ "_enha"). by rewrite !string_app_assoc.
  - exists (outputDir cfg +:+ "/" +:+ b +:+ "_clean_v"). by rewrite !string_app_assoc.
  - exists (outputDir cfg +:+ "/" +:+ b +:+ "_clean_v"). by rewrite !string_app_assoc.
Qed.

Lemma stage_output_inj cfg url ts j k :
  stage_output cfg url ts j = stage_output cfg url ts k -> j = k.
Proof.
  intros H.
  destruct (stage_output_ends cfg url ts j) as [x Hx].
  destruct (stage_output_ends cfg url ts k) as [y Hy].
  rewrite Hx, Hy in H.
  destruct j, k; try done; apply app_suffix_inj in H; done.
Qed.

Lemma stage_output_nonempty cfg url ts k :
  exists a s, stage_output cfg url ts k = String a s.
Proof.
  destruct (stage_output_ends cfg url ts k) as [x ->].
  destruct x; [destruct k|]; by eexists _, _.
Qed.

(** ** Running the services *)

Lemma downloadAudio_run W url out st :
  (exists info st',
      downloadAudio W url out st = (Ret (ok_step out (Some (metadata_of info))), st')
      /\ log st' = [ (YoutubeDlAudio url out, Done);
                     (YoutubeDlJson url, GotInfo info);
                     (Mkdir (path_dirname out), Done) ] ++ log st
      /\ files st' = {[out]} ∪ files st)
  \/ (exists e l left st',
         downloadAudio W url out st
         = (Ret {| Step.success := false; Step.filePath := None;
                   Step.error := Some (or_else (message e)
                                         "Failed to download audio from YouTube");
                   Step.metadata := None |}, st')
         /\ download_failure url out e l
         /\ log st' = l ++ log st
         /\ files st' = left ∪ files st).
Proof.
  unfold downloadAudio, fs_mkdir, youtubedl_json, youtubedl_audio.
  unfold mbind, mret, M_bind, M_ret, try_catch, console_log, console_error.
  cbn [log files dirs console record print add_file add_files add_dir].
  destruct (w_mkdir W (log st) (path_dirname out)) as [e|] eqn:E1.
  { right. eexists e, _, ∅, _. split; [reflexivity|]. split; [by left|].
    cbn [log files]. by rewrite (left_id_L ∅ (∪)). }
  cbn [log files dirs console record print add_file add_files add_dir].
  destruct (w_json W _ url) as [e|info] eqn:E2.
  { right. eexists e, _, ∅, _. split; [reflexivity|]. split; [right; by left|].
    cbn [log files]. by rewrite (left_id_L ∅ (∪)). }
  cbn [log files dirs console record print add_file add_files add_dir].
  destruct (w_audio W _ url out) as [e|] eqn:E3.
  { right. eexists e, _, _, _. split; [reflexivity|].
    split; [right; right; by eexists|]. done. }
  left. eexists info, _. split; [reflexivity|]. done.
Qed.

Lemma cleanupTempFiles_cleaned W paths : forall st,
  exists st', cleanupTempFiles W paths st = (Ret tt, st') /\ cleaned paths st st'.
Proof.
  induction paths as [|p paths IH]; intros st.
  - exists st. split; [done|]. exists []. split_and!; try done.
    + intros c r []%elem_of_nil.
    + intros q. rewrite elem_of_nil. tauto.
    + intros q e []%elem_of_nil.
    + by exists [].
  - cbn [cleanupTempFiles]. unfold fs_unlink.
    unfold mbind, mret, M_bind, M_ret, try_catch, console_log, console_warn.
    destruct (decide (p ∈ files st)) as [Hin|Hout];
      [destruct (w_unlink W (log st) p) as [e|] eqn:E|].
    + (* the world refuses *)
      match goal with |- context [cleanupTempFiles W paths ?s] =>
        destruct (IH s) as (st' & -> & unl & Hlog & Hcalls & Hkind & Hdirs & Hfiles & Hwarn & lines & Hcon) end.
      exists st'. split; [done|]. exists (unl ++ [(Unlink p, Failed e)]).
      cbn [log files dirs console record print] in *.
      split_and!.
      * by rewrite Hlog, <- app_assoc.
      * by rewrite fmap_app, reverse_cons, fmap_app, Hcalls.
      * intros c r [H|[= -> ->]%list_elem_of_singleton]%elem_of_app; eauto.
      * done.
      * intros q. rewrite Hfiles, elem_of_app, list_elem_of_singleton. intuition congruence.
      * intros q e' [H|[= -> ->]%list_elem_of_singleton]%elem_of_app; [by apply Hwarn|].
        rewrite Hcon. apply elem_of_app. right. by left.
      * exists (lines ++ [(LWarn, "Could not delete " +:+ p +:+ ": " +:+ message e)]).
        by rewrite Hcon, <- app_assoc.
    + (* removed *)
      match goal with |- context [cleanupTempFiles W paths ?s] =>
        destruct (IH s) as (st' & -> & unl & Hlog & Hcalls & Hkind & Hdirs & Hfiles & Hwarn & lines & Hcon) end.
      exists st'. split; [done|]. exists (unl ++ [(Unlink p, Done)]).
      cbn [log files dirs console record print remove_file] in *.
      split_and!.
      * by rewrite Hlog, <- app_assoc.
      * by rewrite fmap_app, reverse_cons, fmap_app, Hcalls.
      * intros c r [H|[= -> ->]%list_elem_of_singleton]%elem_of_app; eauto.
      * done.
      * intros q. rewrite Hfiles, elem_of_app, list_elem_of_singleton, elem_of_difference,
          elem_of_singleton. intuition congruence.
      * intros q e' [H|[=]%list_elem_of_singleton]%elem_of_app. by apply Hwarn.
      * eexists (lines ++ [_]). by rewrite Hcon, <- app_assoc.
    + (* not there *)
      match goal with |- context [cleanupTempFiles W paths ?s] =>
        destruct (IH s) as (st' & -> & unl & Hlog & Hcalls & Hkind & Hdirs & Hfiles & Hwarn & lines & Hcon) end.
      eexists st'. split; [done|]. eexists (unl ++ [(Unlink p, Failed _)]).
      cbn [log files dirs console record print] in *.
      split_and!.
      * by rewrite Hlog, <- app_assoc.
      * by rewrite fmap_app, reverse_cons, fmap_app, Hcalls.
      * intros c r [H|[= -> ->]%list_elem_of_singleton]%elem_of_app; eauto.
      * done.
      * intros q. rewrite Hfiles, elem_of_app, list_elem_of_singleton. intuition congruence.
      * intros q e' [H|[= -> ->]%list_elem_of_singleton]%elem_of_app; [by apply Hwarn|].
        rewrite Hcon. apply elem_of_app. right. by left.
      * eexists (lines ++ [_]). by rewrite Hcon, <- app_assoc.
Qed.

Lemma cleaned_print paths st st' l msg :
  cleaned paths st st' -> cleaned paths st (print l msg st').
Proof.
  intros (unl & Hlog & Hcalls & Hkind & Hdirs & Hfiles & Hwarn & lines & Hcon).
  exists unl. cbn [log files dirs console print]. split_and!; try done.
  - intros p e H. apply elem_of_cons. right. by apply Hwarn.
  - exists ((l, msg) :: lines). by rewrite Hcon.
Qed.

Lemma or_null_value_nonempty p :
  (exists a s, p = String a s) -> or_null_value (Some p) = Some p.
Proof. by intros (a & s & ->). Qed.

Ltac step :=
  cbn [log files dirs console record print add_file add_files add_dir remove_file
       negb Step.success Step.error Step.metadata Step.filePath
       Meta.success Meta.metadata ok_step failed_step].

Ltac step_in H :=
  cbn [log files dirs console record print add_file add_files add_dir
       remove_file] in H.

Lemma extractAndCleanAudio_outcome cfg W (url : string) cleanup fs ds :
  exists jobId ts job st',
    extractAndCleanAudio cfg W url cleanup (initial fs ds) = (Ret job, st')
    /\ job_outcome cfg url cleanup fs ds jobId ts job st'.
Proof.
  unfold extractAndCleanAudio, uuidv4, Date_now, initial, ToString, match_receiver.
  cbn [text_of].
  unfold mbind, mret, M_bind, M_ret, try_catch, console_log, console_error.
  step.
  set (jobId := w_uuidv4 W []).
  set (ts := w_now W [(Uuidv4, GotString jobId)]).
  clearbody ts. clearbody jobId.
  exists jobId, ts.
  destruct (isValidYouTubeUrl url) eqn:Hvalid; step.
  2:{ eexists _, _. split; [reflexivity|]. by apply ran_invalid. }
  unfold fs_mkdir at 1. step.
  destruct (w_mkdir W _ (tempDir cfg)) as [e|]; step.
  { eexists _, _. split; [reflexivity|]. by apply ran_no_temp. }
  unfold fs_mkdir at 1. step.
  destruct (w_mkdir W _ (outputDir cfg)) as [e|]; step.
  { eexists _, _. split; [reflexivity|]. by apply ran_no_output. }
  change (rawAudioPath cfg (baseFilename (extractVideoId url) ts))
    with (stage_output cfg url ts Download).
  change (filteredAudioPath cfg (baseFilename (extractVideoId url) ts))
    with (stage_output cfg url ts Extract).
  change (enhancedAudioPath cfg (baseFilename (extractVideoId url) ts))
    with (stage_output cfg url ts NoiseReduction).
  change (cleanVoicePath cfg (baseFilename (extractVideoId url) ts))
    with (stage_output cfg url ts VocalEnhancement).
  change (mp3OutputPath cfg (baseFilename (extractVideoId url) ts))
    with (stage_output cfg url ts Mp3Conversion).
  match goal with |- context [downloadAudio W url ?o ?s] =>
    destruct (downloadAudio_run W url o s)
      as [(info & st1 & -> & Hlog1 & Hfiles1)
         |(e & l & left & st1 & -> & Hfail & Hlog1 & Hfiles1)]
  end; step; step_in Hlog1; step_in Hfiles1.
  2:{ eexists _, _. split; [reflexivity|]. by eapply ran_download_failed. }
  unfold extractRawAudio, ffmpeg_run, resolved.
  unfold mbind, mret, M_bind, M_ret, console_log, console_error. step.
  rewrite Hlog1.
  destruct (w_ffmpeg W _ (extract_command _ _ _)) as [e|]; step.
  { eexists _, _. split; [reflexivity|].
    eapply (ran_extract_failed cfg url cleanup fs ds jobId ts info e); step;
      [done|by rewrite Hlog1|by rewrite Hfiles1]. }
  unfold applyNoiseReduction, ffmpeg_run, resolved.
  unfold mbind, mret, M_bind, M_ret, console_log, console_error. step.
  rewrite Hlog1.
  destruct (w_ffmpeg W _ (noise_command _ _ _)) as [e|]; step.
  { eexists _, _. split; [reflexivity|].
    eapply (ran_noise_failed cfg url cleanup fs ds jobId ts info e); step;
      [done|by rewrite Hlog1|by rewrite Hfiles1]. }
  unfold enhanceVocals, ffmpeg_run, resolved.
  unfold mbind, mret, M_bind, M_ret, console_log, console_error. step.
  rewrite Hlog1.
  destruct (w_ffmpeg W _ (vocal_command _ _ _)) as [e|]; step.
  { eexists _, _. split; [reflexivity|].
    eapply (ran_vocal_failed cfg url cleanup fs ds jobId ts info e); step;
      [done|by rewrite Hlog1|by rewrite Hfiles1]. }
  unfold convertFormat, getAudioMetadata, ffmpeg_run, ffprobe, resolved.
  unfold mbind, mret, M_bind, M_ret, console_log, console_error. step.
  rewrite Hlog1.
  destruct (w_ffmpeg W _ (convert_command _ _ _)) as [e5|]; step;
    (destruct (w_ffprobe W _ _) as [e6|d]; step).
  all: cbn [Results.metadata Results.files Results.audioMetadata
             set_step set_file set_metadata set_audioMetadata].
  all: rewrite ?lookup_insert_eq; rewrite ?lookup_insert_ne by done;
    rewrite ?lookup_empty.
  all: rewrite ?or_null_value_nonempty
    by apply (stage_output_nonempty cfg url ts Mp3Conversion).
  all: destruct (strict_neq_false cleanup) eqn:Hc.
  all: try match goal with |- context [cleanupTempFiles ?w ?ps ?s] =>
    destruct (cleanupTempFiles_cleaned w ps s) as (st' & -> & Hcl) end.
  all: step.
  all: eexists _, _; (split; [reflexivity|]).
  all: match goal with
       | Hcl : cleaned _ ?s _ |- _ => set (st5 := s) in *
       | |- job_outcome _ _ _ _ _ _ _ _ (print _ _ ?s) => set (st5 := s) in *
       end.
  1,2: eapply (ran_completed cfg url cleanup fs ds jobId ts info (Some e5) (inl e6) _ st5).
  9,10: eapply (ran_completed cfg url cleanup fs ds jobId ts info (Some e5) (inr d) _ st5).
  17,18: apply (ran_completed cfg url cleanup fs ds jobId ts info None (inl e6) ∅ st5).
  25,26: apply (ran_completed cfg url cleanup fs ds jobId ts info None (inr d) ∅ st5).
  all: try done.
  all: try (subst st5; step; by rewrite Hlog1).
  all: try (subst st5; step; rewrite Hfiles1; reflexivity).
  all: rewrite Hc; try done.
  all: by apply cleaned_print.
Qed.

(** A reference that is not a string never gets past [extractVideoId]:
    when it can be converted to text at all, it is either rejected as
    invalid or stopped by the [TypeError] of [url.match]. *)
Lemma extractAndCleanAudio_other cfg W (url : jsval) cleanup fs ds :
  is_string url = false ->
  exists jobId ts st',
    log st' = [ (DateNow, GotNumber ts); (Uuidv4, GotString jobId) ]
    /\ files st' = fs /\ dirs st' = ds
    /\ extractAndCleanAudio cfg W url cleanup (initial fs ds)
       = (match text_of url with
          | None =>
              Throw {| message := "Cannot convert object to primitive value" |}
          | Some text =>
              Ret (if isValidYouTubeUrl text
                   then failure "Unexpected error during audio extraction"
                                (Some "url.match is not a function") jobId None
                   else failure "Invalid YouTube URL" None jobId None)
          end, st').
Proof.
  intros Hns.
  unfold extractAndCleanAudio, uuidv4, Date_now, initial, ToString.
  unfold mbind, mret, M_bind, M_ret, try_catch, console_log, console_error, throw.
  step.
  destruct (text_of url) as [text|]; step.
  2:{ eexists _, _, _. split_and!; [| | |reflexivity]; done. }
  destruct (isValidYouTubeUrl text); step.
  2:{ eexists _, _, _. split_and!; [| | |reflexivity]; done. }
  destruct url; try discriminate Hns; cbn [match_receiver]; unfold throw; step.
  all: eexists _, _, _; split_and!; [| | |reflexivity]; done.
Qed.

(** A job on a reference that can be converted to text returns. *)
Lemma extractAndCleanAudio_returns cfg W (url : jsval) cleanup fs ds text :
  text_of url = Some text ->
  exists job st,
    extractAndCleanAudio cfg W url cleanup (initial fs ds) = (Ret job, st).
Proof.
  intros Ht. destruct (is_string url) eqn:Hstr.
  - destruct url; try discriminate Hstr.
    destruct (extractAndCleanAudio_outcome cfg W s cleanup fs ds)
      as (jobId & ts & job & st & Hrun & _). eauto.
  - destruct (extractAndCleanAudio_other cfg W url cleanup fs ds Hstr)
      as (jobId & ts & st & _ & _ & _ & Hrun).
    rewrite Ht in Hrun. eauto.
Qed.

Lemma quickExtract_other cfg W (url : jsval) fs ds :
  is_string url = false ->
  exists jobId ts st',
    log st' = [ (DateNow, GotNumber ts); (Uuidv4, GotString jobId) ]
    /\ files st' = fs /\ dirs st' = ds
    /\ quickExtract cfg W url (initial fs ds)
       = (Ret (match text_of url with
               | None =>
                   failure "Quick extraction failed"
                           (Some "Cannot convert object to primitive value")
                           jobId None
               | Some text =>
                   if isValidYouTubeUrl text
                   then failure "Quick extraction failed"
                                (Some "url.match is not a function") jobId None
                   else failure "Invalid YouTube URL" None jobId None
               end), st').
Proof.
  intros Hns.
  unfold quickExtract, uuidv4, Date_now, initial, ToString.
  unfold mbind, mret, M_bind, M_ret, try_catch, console_log, console_error, throw.
  step.
  destruct (text_of url) as [text|]; step.
  2:{ eexists _, _, _. split_and!; [| | |reflexivity]; done. }
  destruct (isValidYouTubeUrl text); step.
  2:{ eexists _, _, _. split_and!; [| | |reflexivity]; done. }
  destruct url; try discriminate Hns; cbn [match_receiver]; unfold throw; step.
  all: eexists _, _, _; split_and!; [| | |reflexivity]; done.
Qed.

(** ** What a job does *)

Lemma unlinks_only (unl : list (call * reply)) paths c r :
  fst <$> unl = Unlink <$> paths -> (c, r) ∈ unl -> exists p, c = Unlink p /\ p ∈ paths.
Proof.
  intros Hcalls Hin. apply (list_elem_of_fmap_2 fst) in Hin. rewrite Hcalls in Hin.
  apply list_elem_of_fmap in Hin as (p & Hp & Hin). exists p. done.
Qed.

(** Break a membership in an explicit log into its cases. *)
Ltac in_log H :=
  repeat match type of H with
         | _ ∈ _ ++ _ => apply elem_of_app in H as [H|H]
         | _ ∈ _ :: _ => apply elem_of_cons in H as [H|H]
         | _ ∈ [] => apply elem_of_nil in H; destruct H
         end.

Ltac unlink_events :=
  repeat match goal with
         | H : _ ∈ ?u, Hcalls : fst <$> ?u = Unlink <$> _ |- _ =>
             apply (unlinks_only _ _ _ _ Hcalls) in H as (? & ? & _)
         end.

Ltac same_output H :=
  apply (f_equal output) in H; cbn in H; apply stage_output_inj in H; discriminate.

Ltac stage_clash :=
  simplify_eq;
  try match goal with
      | H : extract_command _ _ _ = _ |- _ => same_output H
      | H : noise_command _ _ _ = _ |- _ => same_output H
      | H : vocal_command _ _ _ = _ |- _ => same_output H
      | H : convert_command _ _ _ = _ |- _ => same_output H
      | H : stage_output _ _ _ _ = stage_output _ _ _ _ |- _ =>
          apply stage_output_inj in H; discriminate
      end.




Section StageFailure.
Variables (cfg : Config) (W : World) (url : string) (cleanup : jsval).
Variables (fs ds : gset string).

Let run := extractAndCleanAudio cfg W url cleanup (initial fs ds).

End StageFailure.

(** Take a job apart: one goal per way it can go, with its call log
    spelled out. *)
Ltac job_cases cfg W url cleanup fs ds :=
  let jobId := fresh "jobId" in
  let ts0 := fresh "ts0" in
  let job := fresh "job" in
  let st' := fresh "st'" in
  let Hout := fresh "Hout" in
  let Hlog := fresh "Hlog" in
  let Hlog5 := fresh "Hlog5" in
  let Hdl := fresh "Hdl" in
  let Hclean := fresh "Hclean" in
  let Hfs := fresh "Hfs" in
  let Hfs5 := fresh "Hfs5" in
  let Hv := fresh "Hv" in
  let Hc := fresh "Hc" in
  let Hrun := fresh "Hrun" in
  destruct (extractAndCleanAudio_outcome cfg W url cleanup fs ds)
    as (jobId & ts0 & job & st' & Hrun & Hout);
  rewrite Hrun in *; clear Hrun;
  cbn [fst snd] in *; unfold trace in *;
  destruct Hout as [st' Hv Hlog Hfs ?|? st' Hv Hlog Hfs|? st' Hv Hlog Hfs
                   |? ? ? st' Hv Hdl Hlog Hfs|? ? ? st' Hv Hlog Hfs
                   |? ? ? st' Hv Hlog Hfs|? ? ? st' Hv Hlog Hfs
                   |? r5 r6 ? st5 st' Hv Hlog5 Hfs5 Hclean];
  [..|destruct (strict_neq_false cleanup) eqn:Hc;
      [destruct Hclean as (unl & Hlog & Hcalls & Hkind & _ & Hfs & Hwarn & _)
      |destruct Hclean as [Hlog Hfs]];
      rewrite Hlog5 in Hlog; clear Hlog5; rewrite Hfs5 in Hfs; clear Hfs5];
  try destruct Hdl as [->|[->|[? ->]]];
  rewrite Hlog in *; clear Hlog;
  unfold enhanced, denoised, extracted, downloaded, dirs_made, preamble in *.

Lemma omap_unlinks (l : list string) : omap stage_io (Unlink <$> l) = [].
Proof. by induction l. Qed.

Ltac in_files := set_unfold; intuition (subst; auto).

Ltac no_unlink :=
  let H := fresh "H" in
  intros ? ? H; in_log H; simplify_eq.

Section JobProperties.
Variables (cfg : Config) (W : World) (url : string) (cleanup : jsval).
Variables (fs ds : gset string).

Let run := extractAndCleanAudio cfg W url cleanup (initial fs ds).
Let quick := quickExtract cfg W url (initial fs ds).

(** C3.  On a reference that [isValidYouTubeUrl] rejects,
    [extractAndCleanAudio] and [quickExtract] return the invalid-input
    failure at once: the only calls made are for the job id and the
    clock, so no stage is invoked, and no file or directory is
    created. *)
Theorem invalid_reference_rejected :
  isValidYouTubeUrl url = false ->
  (exists jobId ts st',
      run = (Ret (failure "Invalid YouTube URL" None jobId None), st')
      /\ log st' = [(DateNow, GotNumber ts); (Uuidv4, GotString jobId)]
      /\ files st' = fs /\ dirs st' = ds)
  /\ (exists jobId ts st',
         quick = (Ret (failure "Invalid YouTube URL" None jobId None), st')
         /\ log st' = [(DateNow, GotNumber ts); (Uuidv4, GotString jobId)]
         /\ files st' = fs /\ dirs st' = ds).
Proof.
  intros Hbad. split.
  - subst run.
    destruct (extractAndCleanAudio_outcome cfg W url cleanup fs ds)
      as (jobId & ts0 & job & st' & -> & Hout).
    destruct Hout; try congruence. by exists jobId, ts0, st'.
  - subst quick. unfold quickExtract, uuidv4, Date_now, initial, ToString.
    cbn [text_of].
    unfold mbind, mret, M_bind, M_ret, try_catch, console_log.
    cbn [log files dirs console record print]. rewrite Hbad. cbn [negb].
    by eexists _, _, _.
Qed.

(** C10.  A run that reaches the metadata probe succeeds whatever the
    probe answers; when the probe fails, [audioMetadata] is absent from
    the result. *)
Theorem probe_failure_keeps_success p r :
  (Ffprobe p, r) ∈ log run.2 ->
  exists job,
    run.1 = Ret job
    /\ Job.success job = true
    /\ Job.error job = None
    /\ match r with
       | Failed _ => Job.audioMetadata job = None
       | GotProbe d => Job.audioMetadata job = Some (audio_metadata_of d)
       | _ => False
       end.
Proof.
  subst run. intros Hp. job_cases cfg W url cleanup fs ds.
  all: in_log Hp; unlink_events; simplify_eq.
  all: eexists; split; [done|]; by destruct r6.
Qed.

(** C5.  In a completed job the file-in/file-out invocations are, in
    order, the five stages, each reading exactly what the stage before
    it wrote (the download reads no file). *)
Theorem stages_chained ts job :
  (DateNow, GotNumber ts) ∈ log run.2 ->
  run.1 = Ret job -> Job.success job = true ->
  let io := omap stage_io (fst <$> trace run.2) in
  io = [ (None, stage_output cfg url ts Download);
         (Some (stage_output cfg url ts Download),
          stage_output cfg url ts Extract);
         (Some (stage_output cfg url ts Extract),
          stage_output cfg url ts NoiseReduction);
         (Some (stage_output cfg url ts NoiseReduction),
          stage_output cfg url ts VocalEnhancement);
         (Some (stage_output cfg url ts VocalEnhancement),
          stage_output cfg url ts Mp3Conversion) ]
  /\ chained None io.
Proof.
  subst run. intros Hts. job_cases cfg W url cleanup fs ds.
  all: intros [= <-]; try discriminate; intros _.
  all: in_log Hts; unlink_events; simplify_eq.
  all: rewrite ?reverse_app, ?fmap_app, ?omap_app.
  all: rewrite ?fmap_reverse, ?Hcalls, <- ?fmap_reverse, ?omap_unlinks, ?app_nil_r.
  all: cbv zeta.
  all: match goal with |- ?io = ?l /\ _ =>
         assert (io = l) as -> by reflexivity end.
  all: split; [done|]; cbn [chained]; done.
Qed.

(** C2, amended.  Files are deleted only by a job that completed and
    was not run with [cleanupTemp: false], and only the three
    intermediate files; such a job tries each of them, and one that is
    still on disk afterwards is one whose deletion failed and was logged
    as a warning; the deliverables and every other file stay; a job that
    fails, or runs with [cleanupTemp: false], deletes nothing. *)
Theorem cleanup_contract ts :
  (DateNow, GotNumber ts) ∈ log run.2 ->
  let inter := intermediates cfg url ts in
  exists job,
    run.1 = Ret job
    /\ (forall p r, (Unlink p, r) ∈ log run.2 ->
          p ∈ inter /\ Job.success job = true
          /\ strict_neq_false cleanup = true)
    /\ (Job.success job = true -> strict_neq_false cleanup = true ->
        forall p, p ∈ inter ->
          (exists r, (Unlink p, r) ∈ log run.2)
          /\ (p ∈ files run.2 -> exists e, (Unlink p, Failed e) ∈ log run.2))
    /\ (forall p e, (Unlink p, Failed e) ∈ log run.2 ->
          (LWarn, "Could not delete " +:+ p +:+ ": " +:+ message e)
            ∈ console run.2)
    /\ (Job.success job = true ->
        exists deliverables,
          Job.outputFiles job = Some deliverables
          /\ wav deliverables ∈ files run.2
          /\ forall p, mp3 deliverables = Some p -> p ∈ files run.2)
    /\ (forall p, p ∈ fs -> p ∉ inter -> p ∈ files run.2)
    /\ (Job.success job = false \/ strict_neq_false cleanup = false ->
        fs ⊆ files run.2)
    /\ (Job.success job = true -> strict_neq_false cleanup = false ->
        forall p, p ∈ inter -> p ∈ files run.2).
Proof.
  subst run. intros Hts inter. subst inter. job_cases cfg W url cleanup fs ds.
  all: in_log Hts; unlink_events; simplify_eq.
  all: eexists; split; [done|].
  all: cbn [Job.success Job.outputFiles failure].
  1-9: rewrite ?Hfs; split_and!;
    [no_unlink|done|no_unlink|done|in_files|in_files|done].
  - (* completed, cleanup on *)
    match type of Hcalls with context [intermediates _ _ ?t] => rename t into now end.
    assert (forall p r, (Unlink p, r) ∈ unl -> p ∈ intermediates cfg url now) as Hunl.
    { intros p r (q & [= <-] & Hq%elem_of_reverse)%(unlinks_only _ _ _ _ Hcalls). done. }
    assert (forall k, (3 < stage_index k)%nat ->
              (Unlink (stage_output cfg url now k), Done) ∉ unl) as Hkeep.
    { intros k Hk Hin%Hunl. unfold intermediates in Hin.
      destruct k; cbn [stage_index] in Hk; try lia; in_log Hin; stage_clash. }
    split_and!.
    + intros p r H. in_log H; simplify_eq. eauto.
    + intros _ _ p Hp.
      assert (exists r, (Unlink p, r) ∈ unl) as [r Hr].
      { apply elem_of_reverse, (list_elem_of_fmap_2 Unlink) in Hp.
        rewrite <- Hcalls in Hp.
        apply list_elem_of_fmap in Hp as ([c r] & Hc' & Hin). cbn in Hc'. subst c.
        by exists r. }
      split.
      * exists r. apply elem_of_app. by left.
      * intros [_ Hleft]%Hfs. destruct (Hkind _ _ Hr) as [->|[e ->]]; [done|].
        exists e. apply elem_of_app. by left.
    + intros p e H. in_log H; simplify_eq. by apply Hwarn.
    + intros _. eexists. split; [done|]. cbn [wav mp3]. split.
      * apply Hfs. split; [in_files|]. by apply (Hkeep VocalEnhancement); cbn; lia.
      * intros p Hp. destruct r5; simplify_eq. apply Hfs.
        split; [in_files|]. by apply (Hkeep Mp3Conversion); cbn; lia.
    + intros p Hp Hni. apply Hfs. split; [in_files|]. intros Hin%Hunl. done.
    + intros [[=]|?]. congruence.
    + intros _ ?. congruence.
  - (* completed, cleanup off *)
    rewrite Hfs. split_and!.
    + no_unlink.
    + intros _ ?. congruence.
    + no_unlink.
    + intros _. eexists. split; [done|]. cbn [wav mp3]. split; [in_files|].
      intros p Hp. destruct r5; simplify_eq. in_files.
    + in_files.
    + in_files.
    + intros _ _ p Hp. unfold intermediates in Hp. in_log Hp; subst; in_files.
Qed.
End JobProperties.

Lemma or_else_nonempty a b : b <> "" -> or_else a b <> "".
Proof. by destruct a. Qed.

(** C7.  [downloadAudio] never throws.  When no call it makes fails, it
    returns [success: true] with the destination path and the metadata of
    the source; when a call fails it returns [success: false] with a
    non-empty error text, the engine's message or the default one. *)
Theorem downloadAudio_never_throws W url out st :
  exists r st' calls,
    downloadAudio W url out st = (Ret r, st')
    /\ log st' = calls ++ log st
    /\ ((forall c e, (c, Failed e) ∉ calls) ->
        exists info,
          (YoutubeDlJson url, GotInfo info) ∈ calls
          /\ (YoutubeDlAudio url out, Done) ∈ calls
          /\ out ∈ files st'
          /\ r = {| Step.success := true;
                    Step.filePath := Some out;
                    Step.error := None;
                    Step.metadata := Some (metadata_of info) |})
    /\ (forall c e, (c, Failed e) ∈ calls ->
          Step.success r = false
          /\ Step.filePath r = None
          /\ Step.metadata r = None
          /\ Step.error r = Some (or_else (message e)
                                    "Failed to download audio from YouTube")
          /\ or_else (message e) "Failed to download audio from YouTube" <> "").
Proof.
  destruct (downloadAudio_run W url out st)
    as [(info & st' & -> & Hlog & Hfiles)
       |(e & l & left & st' & -> & Hfail & Hlog & Hfiles)].
  - eexists _, st', _. split; [done|]. split; [done|]. split.
    + intros _. exists info. split_and!; [repeat constructor..| |done].
      rewrite Hfiles. apply elem_of_union. left. by apply elem_of_singleton.
    + intros c e H. in_log H; simplify_eq.
  - eexists _, st', l. split; [done|]. split; [done|]. split.
    + intros Hnone. exfalso.
      destruct Hfail as [->|[->|[info ->]]]; eapply Hnone; by left.
    + intros c e' H.
      assert (e' = e) as ->.
      { destruct Hfail as [->|[->|[info ->]]]; in_log H; by simplify_eq. }
      split_and!; try done. by apply or_else_nonempty.
Qed.

Lemma stage_output_name cfg url ts k :
  stage_output cfg url ts k
  = (match k with
     | Download | Extract | NoiseReduction => tempDir cfg
     | _ => outputDir cfg
     end)
      +:+ "/"
      +:+ job_file_name (or_null (extractVideoId url)) ts
            (match k with
             | Download => "raw.wav"
             | Extract => "filtered.wav"
             | NoiseReduction => "enhanced.wav"
             | VocalEnhancement => "clean_voice.wav"
             | Mp3Conversion => "clean_voice.mp3"
             end).
Proof.
  destruct k; cbn [stage_output];
    unfold rawAudioPath, filteredAudioPath, enhancedAudioPath, cleanVoicePath,
      mp3OutputPath, path_join, job_base, baseFilename, job_file_name;
    by rewrite !string_app_assoc.
Qed.

Lemma no_clock_in_unlinks (unl : list (call * reply)) paths :
  fst <$> unl = Unlink <$> paths -> List.filter is_clock unl = [].
Proof.
  revert paths. induction unl as [|[c r] unl IH]; intros [|p paths]; try done.
  intros [= -> H]. cbn. eauto.
Qed.

Ltac find_event :=
  first [apply elem_of_app; right; repeat constructor | repeat constructor].

Section FileNames.
Variables (cfg : Config) (W : World) (url : string) (cleanup : jsval).
Variables (fs ds : gset string).

Let run := extractAndCleanAudio cfg W url cleanup (initial fs ds).

(** C8.  A job reads the clock once.  Every file its stages write is
    [{sourceId}_{millis}_{suffix}], the three intermediates in the temp
    directory and the two [clean_voice] deliverables in the output
    directory, where [sourceId] renders the id extracted from the
    reference; a completed job has written the intermediates and the WAV
    and returns the WAV and, when it was written, the MP3. *)
Theorem job_file_names :
  exists ts job,
    run.1 = Ret job
    /\ List.filter is_clock (log run.2) = [(DateNow, GotNumber ts)]
    /\ let sourceId := or_null (extractVideoId url) in
       let in_temp suffix :=
         tempDir cfg +:+ "/" +:+ job_file_name sourceId ts suffix in
       let in_output suffix :=
         outputDir cfg +:+ "/" +:+ job_file_name sourceId ts suffix in
       (forall id, extractVideoId url = Some id -> sourceId = id)
       /\ (forall c r i o,
             (c, r) ∈ log run.2 -> stage_io c = Some (i, o) ->
             o ∈ [ in_temp "raw.wav"; in_temp "filtered.wav";
                   in_temp "enhanced.wav";
                   in_output "clean_voice.wav"; in_output "clean_voice.mp3" ])
       /\ (Job.success job = true ->
           (forall o, o ∈ [ in_temp "raw.wav"; in_temp "filtered.wav";
                            in_temp "enhanced.wav";
                            in_output "clean_voice.wav" ] ->
              exists c i, (c, Done) ∈ log run.2 /\ stage_io c = Some (i, o))
           /\ exists deliverables,
               Job.outputFiles job = Some deliverables
               /\ wav deliverables = in_output "clean_voice.wav"
               /\ (mp3 deliverables = Some (in_output "clean_voice.mp3")
                   /\ (exists c i, (c, Done) ∈ log run.2
                                   /\ stage_io c
                                      = Some (i, in_output "clean_voice.mp3"))
                   \/ mp3 deliverables = None)).
Proof.
  subst run. job_cases cfg W url cleanup fs ds.
  all: exists ts0; eexists; split; [done|].
  all: rewrite ?List.filter_app, ?(no_clock_in_unlinks _ _ Hcalls).
  all: try destruct r5; try destruct r6.
  all: split; [reflexivity|].
  all: cbv zeta; split; [by intros id ->|].
  all: pose proof (stage_output_name cfg url ts0) as Hname.
  all: rewrite <- (Hname Download), <- (Hname Extract), <- (Hname NoiseReduction),
         <- (Hname VocalEnhancement), <- (Hname Mp3Conversion); clear Hname.
  all: cbn [Job.success Job.outputFiles failure engine_reply probe_reply].
  all: split; [|try done].
  all: try (intros c r i o Hin Hio; in_log Hin; unlink_events; simplify_eq;
            cbn in Hio; simplify_eq; set_unfold; tauto).
  all: intros _; split.
  all: try (intros o Ho; in_log Ho; subst o;
            [exists (YoutubeDlAudio url (stage_output cfg url ts0 Download)), None
            |exists (Ffmpeg (extract_command cfg (stage_output cfg url ts0 Download)
                               (stage_output cfg url ts0 Extract))), (Some (stage_output cfg url ts0 Download))
            |exists (Ffmpeg (noise_command cfg (stage_output cfg url ts0 Extract)
                               (stage_output cfg url ts0 NoiseReduction))), (Some (stage_output cfg url ts0 Extract))
            |exists (Ffmpeg (vocal_command cfg (stage_output cfg url ts0 NoiseReduction)
                               (stage_output cfg url ts0 VocalEnhancement))), (Some (stage_output cfg url ts0 NoiseReduction))];
            (split; [find_event|reflexivity])).
  all: eexists; split; [done|]; split; [done|]; cbn [mp3].
  all: try (by right).
  all: left; split; [done|].
  all: exists (Ffmpeg (convert_command (stage_output cfg url ts0 VocalEnhancement)
                         (stage_output cfg url ts0 Mp3Conversion) "mp3")),
         (Some (stage_output cfg url ts0 VocalEnhancement)).
  all: split; [find_event|reflexivity].
Qed.
End FileNames.

(** ** Sample runs *)

(** C9.  There is a reference that the validator accepts, by its second
    pattern only, for which [extractVideoId] returns null; the pipeline
    goes on all the same and names every file of the job with the text
    [null] as source id. *)
Theorem null_source_id :
  let url := Sample.late_v_url in
  isValidYouTubeUrl url = true
  /\ test valid_pattern_1 url = false
  /\ test valid_pattern_2 url = true
  /\ extractVideoId url = None
  /\ (forall cfg W cleanup fs ds,
        exists r, (Mkdir (tempDir cfg), r)
                    ∈ log (extractAndCleanAudio cfg W url cleanup (initial fs ds)).2)
  /\ (forall cfg ts k,
        exists dir suffix,
          stage_output cfg url ts k
          = dir +:+ "/" +:+ job_file_name "null" ts suffix)
  /\ exists job,
      (extractAndCleanAudio Sample.cfg Sample.fine url JUndefined (initial ∅ ∅)).1
      = Ret job
      /\ Job.success job = true
      /\ Job.videoId job = Some None
      /\ Job.outputFiles job
         = Some {| wav := "/app/output/null_1700000000000_clean_voice.wav";
                   mp3 := Some "/app/output/null_1700000000000_clean_voice.mp3" |}.
Proof.
  cbv zeta.
  assert (isValidYouTubeUrl Sample.late_v_url = true) as Hvalid by (vm_compute; reflexivity).
  assert (extractVideoId Sample.late_v_url = None) as Hnull by (vm_compute; reflexivity).
  split; [done|]. split; [vm_compute; reflexivity|]. split; [vm_compute; reflexivity|].
  split; [done|]. split; [|split].
  - intros cfg W cleanup fs ds. job_cases cfg W Sample.late_v_url cleanup fs ds.
    all: try congruence.
    all: eexists; find_event.
  - intros cfg ts k. eexists _, _. rewrite stage_output_name, Hnull. reflexivity.
  - eexists. split; [vm_compute; reflexivity|]. done.
Qed.

Ltac in_run_log := vm_compute; repeat constructor.




(** C2, refuted as stated: the extraction fails after the download wrote
    the raw audio; cleanup is on, and the raw audio is still there. *)
Lemma failed_job_keeps_intermediates :
  let run := extractAndCleanAudio Sample.cfg Sample.no_extract Sample.url
               (JBool true) (initial ∅ ∅) in
  strict_neq_false (JBool true) = true
  /\ (exists job, run.1 = Ret job /\ Job.success job = false)
  /\ stage_output Sample.cfg Sample.url Sample.millis Download
       ∈ intermediates Sample.cfg Sample.url Sample.millis
  /\ stage_output Sample.cfg Sample.url Sample.millis Download ∈ files run.2.
Proof.
  cbv zeta. split; [done|]. split; [|split].
  - eexists. split; [vm_compute; reflexivity|]. done.
  - unfold intermediates. repeat constructor.
  - refine (bool_decide_unpack _ _). vm_compute. exact I.
Qed.

Lemma cleanup_contract_witness :
  let run := extractAndCleanAudio Sample.cfg Sample.fine Sample.url
               (JBool true) (initial ∅ ∅) in
  (DateNow, GotNumber Sample.millis) ∈ log run.2
  /\ exists job,
      run.1 = Ret job
      /\ (forall p r, (Unlink p, r) ∈ log run.2 ->
            p ∈ intermediates Sample.cfg Sample.url Sample.millis).
Proof.
  cbv zeta.
  assert ((DateNow, GotNumber Sample.millis)
            ∈ log (extractAndCleanAudio Sample.cfg Sample.fine Sample.url
                     (JBool true) (initial ∅ ∅)).2) as H1 by in_run_log.
  split; [exact H1|].
  destruct (cleanup_contract Sample.cfg Sample.fine Sample.url (JBool true)
              ∅ ∅ Sample.millis H1) as (job & Hrun & Hunlink & _).
  exists job. split; [exact Hrun|]. intros p r H. exact (proj1 (Hunlink p r H)).
Defined.

Lemma invalid_reference_rejected_witness :
  isValidYouTubeUrl "https://example.com/watch?v=abc" = false
  /\ exists jobId ts st',
      extractAndCleanAudio Sample.cfg Sample.fine "https://example.com/watch?v=abc"
        JUndefined (initial ∅ ∅)
      = (Ret (failure "Invalid YouTube URL" None jobId None), st')
      /\ log st' = [(DateNow, GotNumber ts); (Uuidv4, GotString jobId)]
      /\ files st' = ∅ /\ dirs st' = ∅.
Proof.
  assert (isValidYouTubeUrl "https://example.com/watch?v=abc" = false) as H
    by (vm_compute; reflexivity).
  split; [exact H|].
  exact (proj1 (invalid_reference_rejected Sample.cfg Sample.fine
                  "https://example.com/watch?v=abc" JUndefined ∅ ∅ H)).
Defined.

Lemma stages_chained_witness :
  let run := extractAndCleanAudio Sample.cfg Sample.fine Sample.url
               JUndefined (initial ∅ ∅) in
  (DateNow, GotNumber Sample.millis) ∈ log run.2
  /\ exists job,
      run.1 = Ret job /\ Job.success job = true
      /\ chained None (omap stage_io (fst <$> trace run.2)).
Proof.
  cbv zeta.
  assert ((DateNow, GotNumber Sample.millis)
            ∈ log (extractAndCleanAudio Sample.cfg Sample.fine Sample.url
                     JUndefined (initial ∅ ∅)).2) as H1 by in_run_log.
  split; [exact H1|].
  eexists. split; [vm_compute; reflexivity|]. split; [reflexivity|].
  refine (proj2 (stages_chained Sample.cfg Sample.fine Sample.url JUndefined ∅ ∅
                   Sample.millis _ H1 _ _)); [vm_compute; reflexivity|reflexivity].
Defined.

Lemma probe_failure_keeps_success_witness :
  let run := extractAndCleanAudio Sample.cfg Sample.no_probe Sample.url
               JUndefined (initial ∅ ∅) in
  (Ffprobe (stage_output Sample.cfg Sample.url Sample.millis VocalEnhancement),
   Failed Sample.boom) ∈ log run.2
  /\ exists job,
      run.1 = Ret job /\ Job.success job = true /\ Job.audioMetadata job = None.
Proof.
  cbv zeta.
  assert ((Ffprobe (stage_output Sample.cfg Sample.url Sample.millis VocalEnhancement),
           Failed Sample.boom)
            ∈ log (extractAndCleanAudio Sample.cfg Sample.no_probe Sample.url
                     JUndefined (initial ∅ ∅)).2) as H1 by in_run_log.
  split; [exact H1|].
  destruct (probe_failure_keeps_success Sample.cfg Sample.no_probe Sample.url
              JUndefined ∅ ∅ _ _ H1) as (job & Hrun & Hs & _ & Hm).
  exists job. split; [exact Hrun|]. split; [exact Hs|exact Hm].
Defined.

(** ** Id extraction *)

Lemma bt_Str {A} a : forall i s c (k : cont (A:=A)),
  bt (Str a) i (list_ascii_of_string a ++ s) c k = k (i + length (list_ascii_of_string a))%nat s c.
Proof.
  induction a as [|x a IH]; intros i s c k.
  - cbn. by rewrite Nat.add_0_r.
  - destruct a as [|y a].
    + cbn. rewrite Ascii.eqb_refl. by rewrite Nat.add_1_r.
    + change (Str (String x (String y a))) with (Seq (Lit x) (Str (String y a))).
      change (list_ascii_of_string (String x (String y a)) ++ s)
        with (x :: (list_ascii_of_string (String y a) ++ s)).
      cbn [bt one]. rewrite Ascii.eqb_refl.
      rewrite IH. cbn [length list_ascii_of_string]. f_equal. lia.
Qed.

Lemma take_drop_while {A} (p : A -> bool) (l : list A) :
  l = take_while p l ++ drop_while p l.
Proof.
  induction l as [|x l IH]; [done|]. cbn. destruct (p x); [|done].
  cbn. by rewrite <- IH.
Qed.

Lemma take_while_all {A} (p : A -> bool) (l : list A) :
  Forall (fun x => p x = true) (take_while p l).
Proof.
  induction l as [|x l IH]; cbn; [constructor|].
  destruct (p x) eqn:E; by constructor.
Qed.

Lemma drop_while_head {A} (p : A -> bool) (l : list A) :
  match drop_while p l with [] => True | y :: _ => p y = false end.
Proof.
  induction l as [|x l IH]; cbn; [done|]. by destruct (p x) eqn:E.
Qed.

(** A greedy repetition of a character class runs to the first character
    outside the class, when the rest of the pattern accepts there. *)
Lemma star_loop_greedy {A} (p : ascii -> bool)
      (m : nat -> list ascii -> caps -> cont (A:=A) -> option A) k :
  (forall i s c k', m i s c k' = one p i s c k') ->
  forall w n i s' c a,
    Forall (fun x => p x = true) w ->
    match s' with [] => True | y :: _ => p y = false end ->
    (length w <= n)%nat ->
    k (i + length w)%nat s' c = Some a ->
    star_loop m k n i (w ++ s') c = Some a.
Proof.
  intros Hm. induction w as [|x w IH]; intros n i s' c a Hw Hs' Hn Hk.
  - rewrite Nat.add_0_r in Hk. destruct n as [|n]; [done|].
    cbn [star_loop app]. rewrite Hm.
    destruct s' as [|y t]; cbn [one]; [done|]. by rewrite Hs'.
  - apply Forall_cons in Hw as [Hx Hw].
    destruct n as [|n]; [simpl in Hn; lia|].
    cbn [star_loop app]. rewrite Hm. cbn [one]. rewrite Hx.
    rewrite (proj2 (Nat.ltb_lt _ _)) by (simpl; lia).
    rewrite (IH n (S i) s' c a); [done|done|done|simpl in Hn; lia|].
    cbn [length] in Hk. by rewrite Nat.add_succ_r in Hk.
Qed.

Lemma capture_class_separator c :
  set_has true [CChar "&"; CChar "?"; CChar "/"] c = negb (separator c).
Proof. unfold set_has, separator. cbn. by rewrite orb_false_r, orb_assoc. Qed.

(** The capture group of the id patterns takes the whole segment. *)
Lemma bt_capture i s c :
  segment s <> "" ->
  bt (Group 1 (Plus capture_class)) i (list_ascii_of_string s) c
     (fun _ _ c' => Some c')
  = Some ((1%nat, segment s) :: c).
Proof.
  unfold segment. generalize (list_ascii_of_string s). clear s. intros s.
  set (p := fun c => negb (separator c)).
  pose proof (take_drop_while p s) as Hs.
  pose proof (take_while_all p s) as Hall.
  pose proof (drop_while_head p s) as Hhead.
  destruct (take_while p s) as [|x w] eqn:Ew; [done|]. intros _.
  set (s' := drop_while p s) in *. clearbody s'. subst s.
  apply Forall_cons in Hall as [Hx Hw].
  unfold Plus, capture_class. cbn [bt app one].
  rewrite capture_class_separator. fold (p x). rewrite Hx.
  cbn [bt].
  apply (star_loop_greedy p).
  - intros. cbn [bt]. destruct s as [|y t]; cbn [one]; [done|].
    by rewrite capture_class_separator.
  - done.
  - done.
  - rewrite length_app. lia.
  - do 3 f_equal.
    replace (S i + length w - i)%nat with (S (length w)) by lia.
    cbn [take]. by rewrite take_app_length.
Qed.

Lemma search_here r i s c :
  bt r i s [] (fun _ _ c' => Some c') = Some c ->
  search r i s = Some {| m_index := i; m_caps := c |}.
Proof. intros H. destruct s; cbn [search]; by rewrite H. Qed.

Lemma search_skip r pre : forall i s,
  (forall j x t, x ∈ pre -> bt r j (x :: t) [] (fun _ _ c' => Some c') = None) ->
  search r i (pre ++ s) = search r (i + length pre)%nat s.
Proof.
  induction pre as [|x pre IH]; intros i s Hpre.
  - by rewrite Nat.add_0_r.
  - cbn [app search]. rewrite Hpre by left.
    rewrite IH; [cbn [length]; f_equal; lia|].
    intros. apply Hpre. by right.
Qed.

Lemma lacks_Forall c s :
  lacks c s = true <-> Forall (fun x => x <> c) (list_ascii_of_string s).
Proof.
  induction s as [|a s IH]; cbn [lacks list_ascii_of_string].
  - split; [constructor|done].
  - rewrite andb_true_iff, negb_true_iff, Ascii.eqb_neq, IH, Forall_cons. done.
Qed.

Lemma id_pattern_needs_y (r2 : regex) a b j x t :
  x <> "y"%char ->
  bt ((Str (String "y" a) ∣ Str (String "y" b)) ⋅ r2)%re j (x :: t) []
     (fun _ _ c' => Some c') = @None caps.
Proof.
  intros Hx. apply Ascii.eqb_neq in Hx. rewrite Ascii.eqb_sym in Hx.
  destruct a, b; cbn [bt Str one]; by rewrite Hx.
Qed.

Lemma bt_Seq {A} r1 r2 i s c (k : cont (A:=A)) :
  bt (Seq r1 r2) i s c k = bt r1 i s c (fun i' s' c' => bt r2 i' s' c' k).
Proof. done. Qed.

Lemma bt_Alt {A} r1 r2 i s c (k : cont (A:=A)) :
  bt (Alt r1 r2) i s c k
  = match bt r1 i s c k with Some a => Some a | None => bt r2 i s c k end.
Proof. done. Qed.

Lemma exec_id_pattern_1 pre marker s :
  lacks "y" pre = true ->
  marker = "youtube.com/watch?v=" \/ marker = "youtu.be/" ->
  segment s <> "" ->
  exec id_pattern_1 (pre +:+ marker +:+ s)
  = Some {| m_index := length (list_ascii_of_string pre);
            m_caps := [(1%nat, segment s)] |}.
Proof.
  intros Hpre Hmarker Hseg. unfold exec. rewrite !chars_app.
  rewrite search_skip.
  2:{ intros j x t Hx. apply id_pattern_needs_y.
      apply lacks_Forall in Hpre. by apply (proj1 (Forall_forall _ _) Hpre). }
  apply search_here. cbn [Nat.add].
  unfold id_pattern_1. rewrite bt_Seq, bt_Alt.
  destruct Hmarker as [-> | ->].
  - rewrite (bt_Str "youtube.com/watch?v="). by rewrite bt_capture.
  - replace (bt (Str "youtube.com/watch?v=") _ _ _ _) with (@None caps) by reflexivity.
    rewrite (bt_Str "youtu.be/"). by rewrite bt_capture.
Qed.

(** X1.  In a reference that holds no [y] before a marker
    [youtube.com/watch?v=] or [youtu.be/], the id is the text between the
    marker and the next [&], [?] or [/] (or the end of the reference),
    whatever characters it is made of. *)
Theorem extractVideoId_reads_segment pre marker s :
  lacks "y" pre = true ->
  marker = "youtube.com/watch?v=" \/ marker = "youtu.be/" ->
  segment s <> "" ->
  extractVideoId (pre +:+ marker +:+ s) = Some (segment s).
Proof.
  intros Hpre Hmarker Hseg. unfold extractVideoId. cbn [first_id].
  rewrite (exec_id_pattern_1 pre marker s Hpre Hmarker Hseg).
  unfold group. cbn [m_caps cap_get Nat.eqb].
  by destruct (segment s).
Qed.

Lemma extractVideoId_reads_segment_witness :
  extractVideoId ("https://" +:+ "youtu.be/" +:+ "4wtgz5KLwOU?si=Sa0j2gSn7aAmy01v")
  = Some "4wtgz5KLwOU".
Proof.
  apply (extractVideoId_reads_segment
           "https://" "youtu.be/" "4wtgz5KLwOU?si=Sa0j2gSn7aAmy01v").
  - reflexivity.
  - right. reflexivity.
  - discriminate.
Defined.

Lemma id_char_not_separator c :
  Reference.id_char c = true -> separator c = false.
Proof.
  intros Hc. apply not_true_is_false. unfold separator.
  rewrite !orb_true_iff, !Ascii.eqb_eq. intros [[->| ->]| ->]; discriminate.
Qed.

Lemma segment_app i rest :
  Forall (fun c => Reference.id_char c = true) (list_ascii_of_string i) ->
  segment (i +:+ rest) = i +:+ segment rest.
Proof.
  unfold segment. induction i as [|x i IH]; intros Hi; [done|].
  cbn [list_ascii_of_string] in Hi. apply Forall_cons in Hi as [Hx Hi].
  rewrite string_app_cons. cbn [list_ascii_of_string take_while].
  rewrite (id_char_not_separator x Hx). cbn [negb string_of_list_ascii].
  rewrite IH by done. done.
Qed.

Lemma scheme_www_lacks_y sch w :
  Reference.scheme sch -> Reference.www w -> lacks "y" (sch +:+ w) = true.
Proof. by intros [->|[->| ->]] [->| ->]. Qed.

(** X2.  A reference that the first pattern of the validator accepts
    always has an id: the id characters the validator saw, followed by
    whatever precedes the next [&], [?] or [/]. *)
Theorem first_pattern_reference_has_id url :
  test valid_pattern_1 url = true ->
  exists i rest,
    Reference.id i
    /\ (exists before, url = before +:+ i +:+ rest)
    /\ extractVideoId url = Some (i +:+ segment rest).
Proof.
  intros (sch & w & host & i & rest & -> & Hs & Hw & Hh & Hi)%valid_pattern_1_spec.
  exists i, rest. split; [done|]. split.
  { exists (sch +:+ w +:+ host). by rewrite !string_app_assoc. }
  destruct Hi as [Hne Hall].
  rewrite <- (segment_app i rest Hall).
  rewrite <- (string_app_assoc sch w).
  assert (segment (i +:+ rest) <> "") as Hseg.
  { rewrite segment_app by done. by destruct i. }
  unfold extractVideoId. cbn [first_id].
  rewrite (exec_id_pattern_1 (sch +:+ w) host (i +:+ rest)
             (scheme_www_lacks_y sch w Hs Hw) Hh Hseg).
  unfold group. cbn [m_caps cap_get Nat.eqb].
  by destruct (segment (i +:+ rest)).
Qed.

Lemma first_pattern_reference_has_id_witness :
  test valid_pattern_1 "https://youtu.be/4wtgz5KLwOU?si=Sa0j2gSn7aAmy01v" = true
  /\ exists i rest,
      Reference.id i
      /\ (exists before,
            "https://youtu.be/4wtgz5KLwOU?si=Sa0j2gSn7aAmy01v"
            = before +:+ i +:+ rest)
      /\ extractVideoId "https://youtu.be/4wtgz5KLwOU?si=Sa0j2gSn7aAmy01v"
         = Some (i +:+ segment rest).
Proof.
  assert (test valid_pattern_1 "https://youtu.be/4wtgz5KLwOU?si=Sa0j2gSn7aAmy01v"
          = true) as H by (vm_compute; reflexivity).
  split; [exact H|].
  exact (first_pattern_reference_has_id
           "https://youtu.be/4wtgz5KLwOU?si=Sa0j2gSn7aAmy01v" H).
Defined.

(** X3.  Every embed reference is rejected by the validator, whatever
    follows [youtube.com/embed/]: the second pattern of [extractVideoId]
    never serves a reference of that form in a job. *)
Theorem embed_reference_rejected sch w rest :
  Reference.scheme sch -> Reference.www w ->
  isValidYouTubeUrl (sch +:+ w +:+ "youtube.com/embed/" +:+ rest) = false.
Proof.
  intros Hs Hw. apply not_true_is_false. rewrite isValidYouTubeUrl_spec.
  intros [(sch' & w' & q & i & rest' & Heq & Hs' & Hw' & _)
         |(sch' & w' & i & rest' & Heq & Hs' & Hw' & _)].
  all: destruct Hs as [->|[->| ->]], Hw as [->| ->].
  all: destruct Hs' as [->|[->| ->]], Hw' as [->| ->].
  all: vm_compute in Heq; discriminate Heq.
Qed.

Lemma embed_reference_rejected_witness :
  isValidYouTubeUrl ("https://" +:+ "www." +:+ "youtube.com/embed/"
                     +:+ "4wtgz5KLwOU") = false
  /\ extractVideoId ("https://" +:+ "www." +:+ "youtube.com/embed/"
                     +:+ "4wtgz5KLwOU") = Some "4wtgz5KLwOU".
Proof.
  split; [|vm_compute; reflexivity].
  apply (embed_reference_rejected "https://" "www." "4wtgz5KLwOU").
  - right. right. reflexivity.
  - right. reflexivity.
Defined.

(** ** Where an id comes from *)

(** The match of an id pattern: the marker, then the captured text. *)
Lemma captured_id_at (marker : regex) m : forall l i,
  search (Seq marker (Group 1 (Plus capture_class))) i l = Some m ->
  exists before w1 w2 after,
    l = before ++ w1 ++ w2 ++ after
    /\ matches marker (i + length before)%nat w1
    /\ group 1 m = Some (string_of_list_ascii w2)
    /\ w2 <> []
    /\ Forall (fun c => separator c = false) w2.
Proof.
  unfold group.
  induction l as [|x l IH]; intros i; cbn [search].
  all: destruct (bt _ i _ [] _) as [c|] eqn:E.
  2:{ discriminate. }
  3:{ intros (before & w1 & w2 & after & -> & Hm & Hrest)%IH.
      exists (x :: before), w1, w2, after. split; [done|].
      cbn [length]. by rewrite Nat.add_succ_r. }
  all: intros [= <-]; cbn [m_caps].
  all: cbn [bt] in E.
  all: apply bt_sound in E as (w1 & s1 & c1 & Hs & Hw1 & E).
  all: apply bt_sound in E as (w2 & s2 & c2 & -> & Hw2 & E).
  all: injection E as <-; cbn [cap_get Nat.eqb].
  all: exists [], w1, w2, s2.
  all: replace (i + length w1 + length w2 - (i + length w1))%nat
         with (length w2) by lia.
  all: rewrite take_app_length, Nat.add_0_r.
  all: destruct Hw2 as (a & b & -> & (y & -> & Hy) & Hb).
  all: split; [done|]; split; [done|]; split; [done|]; split; [done|].
  all: apply (star_class (set_has true [CChar "&"; CChar "?"; CChar "/"])) in Hb;
    [|done].
  all: constructor; [by rewrite capture_class_separator, negb_true_iff in Hy|].
  all: eapply Forall_impl; [exact Hb|]; intros c' Hc'; cbv beta in Hc'.
  all: by rewrite capture_class_separator, negb_true_iff in Hc'.
Qed.

(** X4.  An id that [extractVideoId] returns is never empty, holds none
    of [&], [?] and [/], and stands in the reference right behind one of
    the markers [youtube.com/watch?v=], [youtu.be/] and
    [youtube.com/embed/]. *)
Theorem extractVideoId_follows_marker url id :
  extractVideoId url = Some id ->
  exists before marker after,
    url = before +:+ marker +:+ id +:+ after
    /\ marker ∈ [ "youtube.com/watch?v="; "youtu.be/"; "youtube.com/embed/" ]
    /\ id <> ""
    /\ Forall (fun c => separator c = false) (list_ascii_of_string id).
Proof.
  unfold extractVideoId, id_pattern_1, id_pattern_2, exec. cbn [first_id].
  assert (forall (marker : regex) (markers : list string) m,
            (forall i w, matches marker i w ->
               exists t, t ∈ markers /\ w = list_ascii_of_string t) ->
            exec (Seq marker (Group 1 (Plus capture_class))) url = Some m ->
            match group 1 m with
            | Some (String a s) =>
                exists before t after,
                  url = before +:+ t +:+ String a s +:+ after
                  /\ t ∈ markers
                  /\ Forall (fun c => separator c = false)
                            (list_ascii_of_string (String a s))
            | _ => True
            end) as Hfound.
  { intros marker markers m Hmarker
      (before & w1 & w2 & after & Hurl & Hw1 & -> & Hne & Hall)%captured_id_at.
    destruct (Hmarker _ _ Hw1) as (t & Ht & ->).
    destruct w2 as [|a w2]; [done|]. cbn [string_of_list_ascii].
    exists (string_of_list_ascii before), t, (string_of_list_ascii after).
    split; [|split; [done|]].
    - apply chars_inj. rewrite !chars_app. cbn [list_ascii_of_string].
      rewrite !list_ascii_of_string_of_list_ascii. by rewrite Hurl.
    - cbn [list_ascii_of_string]. by rewrite list_ascii_of_string_of_list_ascii. }
  fold (exec ((Str "youtube.com/watch?v=" ∣ Str "youtu.be/")
              ⋅ Group 1 (Plus capture_class))%re url).
  fold (exec (Str "youtube.com/embed/" ⋅ Group 1 (Plus capture_class))%re url).
  assert (match exec (Str "youtube.com/embed/"
                      ⋅ Group 1 (Plus capture_class))%re url with
          | Some m => match group 1 m with
                      | Some (String a s) => Some (String a s)
                      | _ => None
                      end
          | None => None
          end = Some id ->
          exists before marker after,
            url = before +:+ marker +:+ id +:+ after
            /\ marker ∈ [ "youtube.com/watch?v="; "youtu.be/";
                          "youtube.com/embed/" ]
            /\ id <> ""
            /\ Forall (fun c => separator c = false)
                      (list_ascii_of_string id)) as Hsecond.
  { destruct (exec (Str "youtube.com/embed/" ⋅ Group 1 (Plus capture_class))%re
                   url) as [m2|] eqn:E2; [|done].
    apply (Hfound _ [ "youtube.com/embed/" ]) in E2.
    2:{ intros i w ->%matches_Str. eexists. split; [|reflexivity].
        repeat constructor. }
    destruct (group 1 m2) as [[|a s]|]; try done.
    destruct E2 as (before & t & after & Hurl & Ht & Hall).
    intros [= <-]. exists before, t, after. split_and!; try done.
    apply list_elem_of_singleton in Ht as ->. repeat constructor. }
  destruct (exec ((Str "youtube.com/watch?v=" ∣ Str "youtu.be/")
                  ⋅ Group 1 (Plus capture_class))%re url) as [m1|] eqn:E1;
    [|exact Hsecond].
  apply (Hfound _ [ "youtube.com/watch?v="; "youtu.be/" ]) in E1.
  2:{ intros i w [->%matches_Str| ->%matches_Str]; eexists;
        (split; [|reflexivity]); repeat constructor. }
  destruct (group 1 m1) as [[|a s]|] eqn:G1; try exact Hsecond.
  destruct E1 as (before & t & after & Hurl & Ht & Hall).
  intros [= <-]. exists before, t, after. split_and!; try done.
  in_log Ht; subst t; repeat constructor.
Qed.

Lemma extractVideoId_follows_marker_witness :
  exists before marker after,
    "https://www.youtube.com/embed/4wtgz5KLwOU?start=3"
    = before +:+ marker +:+ "4wtgz5KLwOU" +:+ after
    /\ marker ∈ [ "youtube.com/watch?v="; "youtu.be/"; "youtube.com/embed/" ].
Proof.
  destruct (extractVideoId_follows_marker
              "https://www.youtube.com/embed/4wtgz5KLwOU?start=3" "4wtgz5KLwOU"
              eq_refl) as (before & marker & after & Hurl & Hmarker & _).
  exists before, marker, after. split; [exact Hurl|exact Hmarker].
Defined.

(** ** Text behind the id *)

(** X5.  The validator does not look behind the id: a reference that
    is accepted stays accepted with any text appended to it. *)
Theorem valid_reference_extends url extra :
  isValidYouTubeUrl url = true -> isValidYouTubeUrl (url +:+ extra) = true.
Proof.
  rewrite !isValidYouTubeUrl_spec.
  intros [(sch & w & q & i & rest & -> & H)|(sch & w & i & rest & -> & H)].
  - left. exists sch, w, q, i, (rest +:+ extra). split; [|done].
    by rewrite !string_app_assoc.
  - right. exists sch, w, i, (rest +:+ extra). split; [|done].
    by rewrite !string_app_assoc.
Qed.

Lemma valid_reference_extends_witness :
  isValidYouTubeUrl ("https://youtu.be/4wtgz5KLwOU" +:+ " and more") = true.
Proof.
  apply (valid_reference_extends "https://youtu.be/4wtgz5KLwOU" " and more").
  vm_compute. reflexivity.
Defined.

(** ** The services one by one *)

(** X6.  [downloadAudio] asks, in this order, for the directory of the
    destination, for the document of the source and for the audio, and
    stops at the first call that fails: a failed call is the last one
    made.  It reports success exactly when all three calls were made and
    none failed, and then the audio is at the destination; no download
    removes a file. *)
Theorem downloadAudio_stops_at_first_failure W url out st :
  exists r st' calls,
    downloadAudio W url out st = (Ret r, st')
    /\ trace st' = trace st ++ calls
    /\ fst <$> calls `prefix_of` [ Mkdir (path_dirname out);
                                   YoutubeDlJson url;
                                   YoutubeDlAudio url out ]
    /\ (forall c e, (c, Failed e) ∈ calls -> last calls = Some (c, Failed e))
    /\ (Step.success r = true <->
        length calls = 3%nat /\ forall c e, (c, Failed e) ∉ calls)
    /\ (Step.success r = true -> out ∈ files st')
    /\ files st ⊆ files st'.
Proof.
  unfold trace.
  destruct (downloadAudio_run W url out st)
    as [(info & st' & -> & Hlog & Hfiles)
       |(e & l & left & st' & -> & Hfail & Hlog & Hfiles)].
  - eexists _, st', (reverse _). split; [done|]. rewrite Hlog, reverse_app.
    split; [done|]. split; [by exists []|]. split; [|split; [|split]].
    + intros c e H. rewrite elem_of_reverse in H. in_log H; simplify_eq.
    + split; [|done]. intros _. split; [done|].
      intros c e H. rewrite elem_of_reverse in H. in_log H; simplify_eq.
    + intros _. rewrite Hfiles. apply elem_of_union. left.
      by apply elem_of_singleton.
    + rewrite Hfiles. apply union_subseteq_r.
  - eexists _, st', (reverse l). split; [done|]. rewrite Hlog, reverse_app.
    split; [done|].
    destruct Hfail as [->|[->|[info ->]]].
    all: split; [by eexists|].
    all: split; [intros c e' H; rewrite elem_of_reverse in H; in_log H; by simplify_eq|].
    all: split; [|split; [done|rewrite Hfiles; apply union_subseteq_r]].
    all: split; [done|].
    all: intros [Hlen Hnone]; try discriminate Hlen.
    exfalso. eapply Hnone. rewrite elem_of_reverse. by left.
Qed.

(** *** getVideoInfo *)

(** X7.  [getVideoInfo] never throws and makes one call, for the
    document of the reference, which it does not validate; no file or
    directory is created.  It copies the fields of the document; when
    the call fails it returns [success: false] with a non-empty error,
    the message of the failure or a default text. *)
Theorem getVideoInfo_never_throws w_document url st :
  exists r st' reply,
    getVideoInfo w_document url st = (Ret r, st')
    /\ log st' = (YoutubeDlJson url, reply) :: log st
    /\ files st' = files st /\ dirs st' = dirs st
    /\ match w_document (log st) url with
       | inr d =>
           reply = GotInfo (as_info d)
           /\ Info.success r = true /\ Info.error r = None
           /\ exists i,
               Info.info r = Some i
               /\ Info.id i = doc_id d /\ Info.title i = doc_title d
               /\ Info.duration i = doc_duration d
               /\ Info.uploader i = doc_uploader d
               /\ Info.uploadDate i = doc_upload_date d
               /\ Info.viewCount i = doc_view_count d
       | inl e =>
           reply = Failed e
           /\ Info.success r = false /\ Info.info r = None
           /\ Info.error r
              = Some (or_else (message e) "Failed to retrieve video information")
           /\ or_else (message e) "Failed to retrieve video information" <> ""
       end.
Proof.
  unfold getVideoInfo, youtubedl_document.
  unfold mbind, mret, M_bind, M_ret, try_catch, console_error.
  destruct (w_document (log st) url) as [e|d].
  - eexists _, _, _. split; [reflexivity|]. split; [reflexivity|].
    split; [done|]. split; [done|]. split_and!; try done.
    by apply or_else_nonempty.
  - eexists _, _, _. split; [reflexivity|]. split; [reflexivity|].
    split; [done|]. split; [done|]. split_and!; try done.
    eexists. split; [reflexivity|]. done.
Qed.

(** X8.  The description [getVideoInfo] returns always ends in an
    ellipsis: it is the first 500 code units of the document's
    description, or all of it when it has no more than 500, followed by
    [...], which is appended also when nothing was cut; for a document
    without a description it is the text [undefined...]. *)
Theorem getVideoInfo_description w_document url st r st' i :
  getVideoInfo w_document url st = (Ret r, st') ->
  Info.info r = Some i ->
  exists d head,
    w_document (log st) url = inr d
    /\ Info.description i = head ++ units "..."
    /\ match doc_description d with
       | Some text =>
           head `prefix_of` text
           /\ length head = Nat.min 500 (length text)
       | None => head = units "undefined"
       end.
Proof.
  unfold getVideoInfo, youtubedl_document.
  unfold mbind, mret, M_bind, M_ret, try_catch, console_error.
  destruct (w_document (log st) url) as [e|d]; intros Hrun Hi; simplify_eq;
    cbn [Info.info] in Hi; simplify_eq.
  cbn [Info.description]. unfold summary.
  destruct (doc_description d) as [text|] eqn:E.
  - exists d, (take 500 text). rewrite E. split; [done|]. split; [done|].
    split; [apply prefix_take|apply length_take].
  - exists d, (units "undefined"). rewrite E. done.
Qed.

Lemma getVideoInfo_description_witness :
  exists d head,
    Catalogue.online [] (JStr Sample.url) = inr d
    /\ units "A talk...." = head ++ units "..."
    /\ match doc_description d with
       | Some text =>
           head `prefix_of` text
           /\ length head = Nat.min 500 (length text)
       | None => head = units "undefined"
       end.
Proof.
  exact (getVideoInfo_description Catalogue.online Sample.url (initial ∅ ∅)
           _ _ _ eq_refl eq_refl).
Defined.

(** *** The processing functions *)

(** X9.  Each of [extractRawAudio], [applyNoiseReduction],
    [removeSilence], [enhanceVocals] and [convertFormat] runs exactly one
    command, from its input path to its output path, and resolves
    whatever the command does: when the command ends the result is
    [success: true] with the output path, and the output file has been
    added; when it fails the result is [success: false] with the message
    of the failure, and no file has been removed. *)
Theorem processing_resolves cfg W op inputPath outputPath st :
  let cmd := processing_command cfg op inputPath outputPath in
  exists r st',
    processing_run cfg W op inputPath outputPath st = (Ret r, st')
    /\ input cmd = inputPath /\ output cmd = outputPath
    /\ dirs st' = dirs st
    /\ match w_ffmpeg W (log st) cmd with
       | None =>
           r = ok_step outputPath None
           /\ log st' = (Ffmpeg cmd, Done) :: log st
           /\ files st' = {[outputPath]} ∪ files st
       | Some e =>
           r = failed_step e
           /\ log st' = (Ffmpeg cmd, Failed e) :: log st
           /\ files st ⊆ files st'
       end.
Proof.
  cbv zeta.
  assert (forall cmd done_msg error_msg start_msg,
            output cmd = outputPath ->
            exists r st',
              (console_log start_msg;;
               r ← ffmpeg_run W cmd;
               resolved r outputPath done_msg error_msg) st = (Ret r, st')
              /\ dirs st' = dirs st
              /\ match w_ffmpeg W (log st) cmd with
                 | None =>
                     r = ok_step outputPath None
                     /\ log st' = (Ffmpeg cmd, Done) :: log st
                     /\ files st' = {[outputPath]} ∪ files st
                 | Some e =>
                     r = failed_step e
                     /\ log st' = (Ffmpeg cmd, Failed e) :: log st
                     /\ files st ⊆ files st'
                 end) as Hrun.
  { intros cmd done_msg error_msg start_msg Hout.
    unfold ffmpeg_run, resolved.
    unfold mbind, mret, M_bind, M_ret, console_log, console_error.
    cbn [log files dirs console record print add_file add_files].
    destruct (w_ffmpeg W (log st) cmd) as [e|];
      cbn [log files dirs console record print add_file add_files];
      eexists _, _; (split; [reflexivity|]); rewrite ?Hout;
      split_and!; try done. apply union_subseteq_r. }
  destruct op as [| | | |format]; cbn [processing_run processing_command].
  - destruct (Hrun (extract_command cfg inputPath outputPath)
                "[AudioProcessing] Raw audio extraction completed"
                "[AudioProcessing] Extraction error:"
                ("[AudioProcessing] Extracting raw audio from: " +:+ inputPath)
                eq_refl) as (r & st' & H & ?).
    by exists r, st'.
  - destruct (Hrun (noise_command cfg inputPath outputPath)
                "[AudioProcessing] Noise reduction completed"
                "[AudioProcessing] Filtering error:"
                ("[AudioProcessing] Applying noise reduction to: " +:+ inputPath)
                eq_refl) as (r & st' & H & ?).
    by exists r, st'.
  - destruct (Hrun (silence_command cfg inputPath outputPath)
                "[AudioProcessing] Silence removal completed"
                "[AudioProcessing] Silence removal error:"
                ("[AudioProcessing] Removing silence from: " +:+ inputPath)
                eq_refl) as (r & st' & H & ?).
    by exists r, st'.
  - destruct (Hrun (vocal_command cfg inputPath outputPath)
                "[AudioProcessing] Vocal enhancement completed"
                "[AudioProcessing] Enhancement error:"
                ("[AudioProcessing] Applying vocal enhancement to: " +:+ inputPath)
                eq_refl) as (r & st' & H & ?).
    by exists r, st'.
  - assert (output (convert_command inputPath outputPath format) = outputPath
            /\ input (convert_command inputPath outputPath format) = inputPath)
      as [Hout Hin].
    { unfold convert_command. by repeat case_match. }
    destruct (Hrun (convert_command inputPath outputPath format)
                "[AudioProcessing] Format conversion completed"
                "[AudioProcessing] Conversion error:"
                ("[AudioProcessing] Converting to " +:+ format +:+ ": "
                 +:+ inputPath)
                Hout) as (r & st' & H & ?).
    by exists r, st'.
Qed.

(** X10.  [getAudioMetadata] reports the sample rate, the channels and
    the codec of the first stream whose type is [audio], whatever
    streams come before or after it, and the duration and bit rate of
    the container; on a file without an audio stream it still succeeds,
    with the three stream fields absent. *)
Theorem getAudioMetadata_first_audio_stream W file st d :
  w_ffprobe W (log st) file = inr d ->
  exists m st',
    getAudioMetadata W file st
    = (Ret {| Meta.success := true; Meta.metadata := Some m;
              Meta.error := None |}, st')
    /\ log st' = (Ffprobe file, GotProbe d) :: log st
    /\ am_duration m = format_duration (format d)
    /\ am_bitRate m = bit_rate (format d)
    /\ (forall before s after,
          streams d = before ++ s :: after ->
          Forall (fun x => codec_type x <> "audio") before ->
          codec_type s = "audio" ->
          am_sampleRate m = sample_rate s
          /\ am_channels m = stream_channels s
          /\ am_codec m = codec_name s)
    /\ (Forall (fun x => codec_type x <> "audio") (streams d) ->
        am_sampleRate m = None /\ am_channels m = None /\ am_codec m = None).
Proof.
  intros Hprobe. unfold getAudioMetadata, ffprobe.
  unfold mbind, mret, M_bind, M_ret. rewrite Hprobe.
  eexists _, _. split; [reflexivity|]. split; [done|]. split; [done|].
  split; [done|]. cbn [am_sampleRate am_channels am_codec].
  split.
  - intros before s after -> Hbefore Hs.
    assert (List.find (fun s => String.eqb (codec_type s) "audio")
                      (before ++ s :: after) = Some s) as ->; [|done].
    induction Hbefore as [|x before Hx _ IH]; cbn [app List.find].
    + by rewrite Hs.
    + apply String.eqb_neq in Hx. by rewrite Hx.
  - intros Hnone.
    assert (List.find (fun s => String.eqb (codec_type s) "audio")
                      (streams d) = None) as ->; [|done].
    induction Hnone as [|x l Hx _ IH]; cbn [List.find]; [done|].
    apply String.eqb_neq in Hx. by rewrite Hx.
Qed.

Lemma getAudioMetadata_first_audio_stream_witness :
  exists m st',
    getAudioMetadata Catalogue.probing "/app/output/a.wav" (initial ∅ ∅)
    = (Ret {| Meta.success := true; Meta.metadata := Some m;
              Meta.error := None |}, st')
    /\ am_sampleRate m = Some 48000 /\ am_codec m = Some "aac".
Proof.
  destruct (getAudioMetadata_first_audio_stream Catalogue.probing
              "/app/output/a.wav" (initial ∅ ∅) Catalogue.recording eq_refl)
    as (m & st' & Hrun & _ & _ & _ & Hfirst & _).
  exists m, st'. split; [exact Hrun|].
  destruct (Hfirst [ {| codec_type := "video"; sample_rate := None;
                        stream_channels := None; codec_name := Some "h264" |} ]
              {| codec_type := "audio"; sample_rate := Some 48000;
                 stream_channels := Some 2; codec_name := Some "aac" |}
              [] eq_refl) as (Hrate & _ & Hcodec).
  - constructor; [discriminate|constructor].
  - reflexivity.
  - split; [exact Hrate|exact Hcodec].
Defined.

(** *** The silence filter *)

Lemma split_on_lacks sep a : lacks sep a = true -> split_on sep a = [a].
Proof.
  induction a as [|x a IH]; [done|]. cbn [lacks split_on].
  intros [Hx Ha]%andb_prop. apply negb_true_iff in Hx. by rewrite Hx, IH.
Qed.

(** Splitting at the separator undoes [join], when no piece holds the
    separator. *)
Lemma split_on_join sep pieces :
  pieces <> [] ->
  Forall (fun p => lacks sep p = true) pieces ->
  split_on sep (Array_join (String sep "") pieces) = pieces.
Proof.
  intros Hne Hall. induction Hall as [|p l Hp _ IH]; [done|].
  destruct l as [|q l].
  - by apply split_on_lacks.
  - change (Array_join (String sep "") (p :: q :: l))
      with (p +:+ String sep (Array_join (String sep "") (q :: l))).
    rewrite split_on_app by done. by rewrite IH.
Qed.

Lemma cut_app sep a b :
  lacks sep a = true -> cut sep (a +:+ String sep b) = (a, b).
Proof.
  induction a as [|x a IH]; intros Ha.
  - change ("" +:+ String sep b) with (String sep b).
    cbn [cut]. by rewrite Ascii.eqb_refl.
  - cbn [lacks] in Ha. apply andb_prop in Ha as [Hx Ha].
    rewrite string_app_cons. cbn [cut].
    apply negb_true_iff in Hx. by rewrite Hx, IH.
Qed.

Ltac no_separator H :=
  repeat first [rewrite !lacks_app | progress cbn [lacks]];
  rewrite ?H; reflexivity.

(** X11.  Whatever the configured threshold, the filter argument of
    [removeSilence] is a chain of two [silenceremove] filters that use
    the same threshold, in dB, with peak detection: the first trims the
    silence at the start, the second every later silence. *)
Theorem silence_filter_chain cfg :
  let threshold := Number_toString (silenceThreshold (audio cfg)) +:+ "dB" in
  (fun f => (filter_name f, filter_options f))
    <$> split_on "," (silence_filter cfg)
  = [ ("silenceremove",
       [ ("start_periods", "1"); ("start_duration", "1");
         ("start_threshold", threshold); ("detection", "peak") ]);
      ("silenceremove",
       [ ("stop_periods", "-1"); ("stop_duration", "1");
         ("stop_threshold", threshold); ("detection", "peak") ]) ].
Proof.
  cbv zeta. set (N := Number_toString (silenceThreshold (audio cfg))).
  assert (lacks "," N = true /\ lacks ":" N = true /\ lacks "=" N = true)
    as (Hcomma & Hcolon & Heq) by (split_and!; by apply lacks_Number_toString).
  set (start := [ "start_periods=1"; "start_duration=1";
                  "start_threshold" +:+ String "=" (N +:+ "dB");
                  "detection=peak" ]).
  set (stop := [ "stop_periods=-1"; "stop_duration=1";
                 "stop_threshold" +:+ String "=" (N +:+ "dB");
                 "detection=peak" ]).
  assert (silence_filter cfg
          = Array_join ","
              [ "silenceremove" +:+ String "=" (Array_join ":" start);
                "silenceremove" +:+ String "=" (Array_join ":" stop) ]) as ->.
  { unfold silence_filter, start, stop. fold N. cbn [Array_join].
    repeat (rewrite !string_app_assoc || rewrite !(string_app_cons "=")).
    reflexivity. }
  assert (Forall (fun p => lacks ":" p = true) start
          /\ Forall (fun p => lacks ":" p = true) stop) as [Hstart Hstop].
  { split; repeat apply Forall_cons_2; try apply Forall_nil_2; no_separator Hcolon. }
  assert (forall l, Forall (fun p => lacks "," p = true) l ->
                    lacks "," (Array_join ":" l) = true) as Hjoin.
  { induction 1 as [|p l Hp Hl IH]; [done|]. destruct l as [|q l]; [done|].
    change (Array_join ":" (p :: q :: l))
      with (p +:+ ":" +:+ Array_join ":" (q :: l)).
    rewrite !lacks_app, Hp, IH. done. }
  rewrite split_on_join; [|done|].
  2:{ repeat apply Forall_cons_2; try apply Forall_nil_2.
      all: rewrite lacks_app; cbn [lacks]; rewrite Hjoin; [reflexivity|].
      all: repeat apply Forall_cons_2; try apply Forall_nil_2; no_separator Hcomma. }
  cbn [fmap list_fmap]. unfold filter_options.
  rewrite !filter_name_app by done. rewrite !cut_app by done. cbn [snd].
  rewrite !split_on_join by done.
  unfold start, stop. cbn [fmap list_fmap]. rewrite !cut_app by done.
  reflexivity.
Qed.

(** ** More on jobs *)

Section JobResults.
Variables (cfg : Config) (W : World) (url : string) (cleanup : jsval).
Variables (fs ds : gset string).

Let run := extractAndCleanAudio cfg W url cleanup (initial fs ds).

(** X12.  On a reference that is a string, [extractAndCleanAudio]
    never throws, and its result always carries the job id that was
    generated at the start.  A successful result has no error, details
    or [results]; it has the id extracted from the reference, the
    metadata of the source, the output files and the success message.
    A failed result names one of six errors and has none of those. *)
Theorem job_result_shape :
  exists job,
    run.1 = Ret job
    /\ head (trace run.2) = Some (Uuidv4, GotString (Job.jobId job))
    /\ if Job.success job
       then Job.error job = None /\ Job.details job = None
            /\ Job.results job = None
            /\ Job.videoId job = Some (extractVideoId url)
            /\ is_Some (Job.metadata job)
            /\ is_Some (Job.outputFiles job)
            /\ Job.message job = Some "Audio extracted and cleaned successfully"
       else (exists text,
               Job.error job = Some text
               /\ text ∈ [ "Invalid YouTube URL";
                           "Failed to download audio from YouTube";
                           "Failed to extract raw audio";
                           "Failed to apply noise reduction";
                           "Failed to enhance vocals";
                           "Unexpected error during audio extraction" ])
            /\ Job.videoId job = None /\ Job.metadata job = None
            /\ Job.audioMetadata job = None /\ Job.outputFiles job = None
            /\ Job.message job = None.
Proof.
  subst run. job_cases cfg W url cleanup fs ds.
  all: eexists; split; [done|].
  all: rewrite ?reverse_app, ?reverse_cons; cbn [reverse app head].
  all: split; [by rewrite <- ?app_assoc|].
  all: cbn [Job.success failure Job.error Job.details Job.results Job.videoId
            Job.metadata Job.audioMetadata Job.outputFiles Job.message
            stage_error].
  all: try (split_and!; [eexists; split; [done|]; repeat constructor|done..]).
  all: by split_and!.
Qed.
End JobResults.

Section AnyReference.
Variables (cfg : Config) (W : World) (url : jsval) (cleanup : jsval).
Variables (fs ds : gset string).

Let run := extractAndCleanAudio cfg W url cleanup (initial fs ds).

(** X13.  The error [Unexpected error during audio extraction] comes
    before anything is downloaded: nothing was asked of youtube-dl or
    ffmpeg and no file was written.  On a reference that is a string it
    means that the temp or the output directory could not be created:
    the details are the message of that failure, and the failed call is
    the last one of the job.  On any other value it means that the text
    of the value passed the validation and [url.match] was not there:
    the details say so, and only the job id and the clock were asked
    for. *)
Theorem unexpected_error_comes_first job :
  run.1 = Ret job ->
  Job.error job = Some "Unexpected error during audio extraction" ->
  files run.2 = fs
  /\ (forall c r, (c, r) ∈ log run.2 ->
        c = Uuidv4 \/ c = DateNow \/ c = Mkdir (tempDir cfg)
        \/ c = Mkdir (outputDir cfg))
  /\ if is_string url
     then exists e dir,
            Job.details job = Some (message e)
            /\ (dir = tempDir cfg \/ dir = outputDir cfg)
            /\ head (log run.2) = Some (Mkdir dir, Failed e)
     else Job.details job = Some "url.match is not a function"
          /\ (exists text, text_of url = Some text
                           /\ isValidYouTubeUrl text = true)
          /\ forall c r, (c, r) ∈ log run.2 -> c = Uuidv4 \/ c = DateNow.
Proof.
  subst run. destruct (is_string url) eqn:Hstr.
  - destruct url as [| | | |s| |]; try discriminate Hstr. clear Hstr.
    job_cases cfg W s cleanup fs ds.
    all: intros [= <-]; cbn [Job.error Job.details failure stage_error].
    all: intros [=].
    + split; [done|]. split; [intros c r H; in_log H; simplify_eq; auto|].
      eexists _, _. split; [done|]. split; [by left|]. done.
    + split; [done|]. split; [intros c r H; in_log H; simplify_eq; auto|].
      eexists _, _. split; [done|]. split; [by right|]. done.
  - destruct (extractAndCleanAudio_other cfg W url cleanup fs ds Hstr)
      as (jobId & ts & st' & Hlog & Hfs & Hds & ->).
    cbn [fst snd]. rewrite Hlog, Hfs.
    destruct (text_of url) as [text|]; [|discriminate].
    intros [= <-]. destruct (isValidYouTubeUrl text) eqn:Hv; intros [=].
    split; [done|]. split; [intros c r H; in_log H; simplify_eq; auto|].
    split; [done|]. split; [by exists text|].
    intros c r H; in_log H; simplify_eq; auto.
Qed.

(** X24.  [extractAndCleanAudio] throws exactly when the reference
    cannot be converted to text: the template literal of its second log
    line stands before the [try].  Then the job id and the clock are all
    that was asked for, and nothing was written.  [quickExtract], which
    has no such line, returns a failure for the same reference. *)
Theorem job_throws_on_unconvertible_reference :
  ((exists e, run.1 = Throw e) <-> text_of url = None)
  /\ (text_of url = None ->
      run.1 = Throw {| message := "Cannot convert object to primitive value" |}
      /\ (exists jobId ts,
            trace run.2 = [ (Uuidv4, GotString jobId); (DateNow, GotNumber ts) ])
      /\ files run.2 = fs /\ dirs run.2 = ds
      /\ exists job,
          (quickExtract cfg W url (initial fs ds)).1 = Ret job
          /\ Job.error job = Some "Quick extraction failed"
          /\ Job.details job = Some "Cannot convert object to primitive value").
Proof.
  subst run.
  assert (text_of url = None -> is_string url = false) as Hns.
  { by destruct url. }
  split; [split|].
  - intros [e He]. destruct (text_of url) as [text|] eqn:Ht; [|done].
    destruct (extractAndCleanAudio_returns cfg W url cleanup fs ds text Ht)
      as (job & st & Hrun).
    rewrite Hrun in He. discriminate He.
  - intros Ht.
    destruct (extractAndCleanAudio_other cfg W url cleanup fs ds (Hns Ht))
      as (jobId & ts & st' & _ & _ & _ & ->).
    rewrite Ht. by eexists.
  - intros Ht.
    destruct (extractAndCleanAudio_other cfg W url cleanup fs ds (Hns Ht))
      as (jobId & ts & st' & Hlog & Hfs & Hds & ->).
    destruct (quickExtract_other cfg W url fs ds (Hns Ht))
      as (jobId' & ts' & st'' & _ & _ & _ & ->).
    rewrite Ht. cbn [fst snd]. unfold trace. rewrite Hlog.
    split_and!; try done.
    + by exists jobId, ts.
    + by eexists.
Qed.
End AnyReference.

Section JobFrame.
Variables (cfg : Config) (W : World) (url : jsval) (cleanup : jsval).
Variables (fs ds : gset string).

Let run := extractAndCleanAudio cfg W url cleanup (initial fs ds).

(** X14.  No job removes silence: whatever the world answers, none of
    the commands [extractAndCleanAudio] runs is the command of
    [removeSilence]. *)
Theorem job_never_removes_silence cmd r inputPath outputPath :
  (Ffmpeg cmd, r) ∈ log run.2 ->
  cmd <> silence_command cfg inputPath outputPath.
Proof.
  subst run. intros Hin. destruct (is_string url) eqn:Hstr.
  2:{ destruct (extractAndCleanAudio_other cfg W url cleanup fs ds Hstr)
        as (jobId & ts & st' & Hlog & _ & _ & Hrun).
      rewrite Hrun in Hin. cbn [snd] in Hin. rewrite Hlog in Hin.
      in_log Hin; simplify_eq. }
  destruct url as [| | | |s| |]; try discriminate Hstr. clear Hstr.
  job_cases cfg W s cleanup fs ds.
  all: in_log Hin; unlink_events; simplify_eq.
  all: intros Heq; apply (f_equal audioFilters) in Heq.
  all: try (unfold convert_command in Heq; cbn in Heq; discriminate Heq).
  all: cbn [audioFilters extract_command noise_command vocal_command
            silence_command filter_command] in Heq; try discriminate Heq.
  all: unfold silence_filter in Heq;
    cbn [Array_join noise_filters vocal_filters] in Heq.
  all: injection Heq as Heq; discriminate Heq.
Qed.
End JobFrame.

(** ** Where the files of a job lie *)

Lemma drop_while_app_stop {A} (p : A -> bool) l x t :
  Forall (fun y => p y = true) l -> p x = false ->
  drop_while p (l ++ x :: t) = x :: t.
Proof.
  intros Hl Hx. induction Hl as [|y l Hy _ IH]; cbn [app drop_while].
  - by rewrite Hx.
  - by rewrite Hy.
Qed.

Lemma lacks_slash_rev name :
  lacks "/" name = true ->
  Forall (fun c => negb (is_slash c) = true) (rev (list_ascii_of_string name)).
Proof.
  intros H. apply Forall_rev.
  induction name as [|a name IH]; cbn [list_ascii_of_string]; [constructor|].
  cbn [lacks] in H. apply andb_prop in H as [Ha H].
  constructor; [done|by apply IH].
Qed.

Lemma rev_chars_cons name :
  name <> "" -> exists c t, rev (list_ascii_of_string name) = c :: t.
Proof.
  intros Hne. destruct (rev (list_ascii_of_string name)) as [|c t] eqn:E; [|eauto].
  apply (f_equal (@rev _)) in E. rewrite rev_involutive in E. cbn in E.
  by destruct name.
Qed.

(** A file that is named by a single segment lies in the directory it
    was joined to. *)
Lemma path_dirname_join dir name :
  dir <> "" -> dir <> "/" -> name <> "" -> lacks "/" name = true ->
  path_dirname (path_join dir name) = dir.
Proof.
  intros Hdir Hroot Hname Hlacks. unfold path_join.
  destruct dir as [|c0 rest]; [done|]. rewrite string_app_cons.
  cbn [path_dirname]. rewrite !chars_app, !rev_app_distr.
  cbn [list_ascii_of_string rev app]. rewrite <- !app_assoc. cbn [app].
  pose proof (lacks_slash_rev name Hlacks) as Hall.
  destruct (rev_chars_cons name Hname) as (c & t & E). rewrite E in *.
  apply Forall_cons in Hall as [Hc Ht]. cbn [app drop_while].
  apply negb_true_iff in Hc. rewrite Hc. cbn [negb].
  change (c :: t ++ "/"%char :: rev (list_ascii_of_string rest))
    with ((c :: t) ++ "/"%char :: rev (list_ascii_of_string rest)).
  rewrite drop_while_app_stop; [|constructor; [by rewrite Hc|done]|done].
  destruct (rev (list_ascii_of_string rest)) as [|y r3] eqn:Er.
  - apply (f_equal (@rev _)) in Er. rewrite rev_involutive in Er. cbn in Er.
    apply (f_equal string_of_list_ascii) in Er.
    rewrite string_of_list_ascii_of_string in Er. subst rest.
    destruct (is_slash c0) eqn:Hc0; [|done].
    apply Ascii.eqb_eq in Hc0 as ->. done.
  - rewrite <- Er, rev_involutive. by rewrite string_of_list_ascii_of_string.
Qed.

Lemma job_file_name_segment url ts suffix :
  lacks "/" suffix = true ->
  job_file_name (or_null (extractVideoId url)) ts suffix <> ""
  /\ lacks "/" (job_file_name (or_null (extractVideoId url)) ts suffix) = true.
Proof.
  intros Hs. pose proof (baseFilename_segment url ts) as Hb.
  unfold baseFilename in Hb. unfold job_file_name. split.
  - destruct (or_null (extractVideoId url)); discriminate.
  - rewrite lacks_app in Hb. apply andb_prop in Hb as [H1 _].
    rewrite !lacks_app, H1, Hs.
    by rewrite (lacks_Number_toString "/" ts).
Qed.

Lemma shipped_directories root :
  tempDir (config root) <> "" /\ tempDir (config root) <> "/"
  /\ outputDir (config root) <> "" /\ outputDir (config root) <> "/".
Proof.
  cbn [config tempDir outputDir]. unfold path_join.
  destruct root as [|a [|b root]]; split_and!; discriminate.
Qed.

Lemma shipped_stage_directory root url ts k :
  path_dirname (stage_output (config root) url ts k)
  = match k with
    | Download | Extract | NoiseReduction => tempDir (config root)
    | _ => outputDir (config root)
    end.
Proof.
  destruct (shipped_directories root) as (T1 & T2 & O1 & O2).
  rewrite stage_output_name.
  destruct k;
    match goal with |- path_dirname (?d +:+ "/" +:+ ?n) = _ =>
      change (d +:+ "/" +:+ n) with (path_join d n) end;
    apply path_dirname_join; try done;
    by apply job_file_name_segment.
Qed.

Lemma convert_command_io inputPath outputPath format :
  input (convert_command inputPath outputPath format) = inputPath
  /\ output (convert_command inputPath outputPath format) = outputPath.
Proof. unfold convert_command. by repeat case_match. Qed.

Section ShippedJob.
Variables (root : string) (W : World) (url : jsval) (cleanup : jsval).
Variables (fs ds : gset string).

Let cfg := config root.
Let run := extractAndCleanAudio cfg W url cleanup (initial fs ds).

(** X15.  With the shipped configuration, whatever the reference, the
    world and the time: every file a job has a command write, and every
    file it deletes, lies directly in the temp or in the output
    directory, and these two are the only directories the job asks to
    create. *)
Theorem job_stays_in_its_directories c r :
  (c, r) ∈ log run.2 ->
  let here p := path_dirname p = tempDir cfg \/ path_dirname p = outputDir cfg in
  match c with
  | Mkdir dir => dir = tempDir cfg \/ dir = outputDir cfg
  | YoutubeDlAudio _ out => here out
  | Ffmpeg cmd => here (input cmd) /\ here (output cmd)
  | Ffprobe file => here file
  | Unlink file => here file
  | _ => True
  end.
Proof.
  subst run cfg. intros Hin. cbv zeta. destruct (is_string url) eqn:Hstr.
  2:{ destruct (extractAndCleanAudio_other (config root) W url cleanup fs ds Hstr)
        as (jobId & ts & st' & Hlog & _ & _ & Hrun).
      rewrite Hrun in Hin. cbn [snd] in Hin. rewrite Hlog in Hin.
      in_log Hin; by simplify_eq. }
  destruct url as [| | | |s| |]; try discriminate Hstr. clear Hstr.
  pose proof (shipped_stage_directory root s) as Hdir.
  job_cases (config root) W s cleanup fs ds.
  all: in_log Hin; simplify_eq; try done; auto.
  all: rewrite ?Hdir; auto.
  all: try (rewrite (proj1 (convert_command_io _ _ _)),
                    (proj2 (convert_command_io _ _ _)), !Hdir; by auto).
  all: try (cbn [input output extract_command noise_command vocal_command
                 filter_command]; rewrite ?Hdir; by auto).
  all: apply (unlinks_only _ _ _ _ Hcalls) in Hin as (p & -> & Hp).
  all: rewrite elem_of_reverse in Hp; unfold intermediates in Hp; in_log Hp; subst p.
  all: rewrite Hdir; auto.
Qed.
End ShippedJob.

(** ** The quick extraction *)

(** The ways [quickExtract] can go, with the calls in the order they
    were made. *)
Lemma quickExtract_run cfg W (url : string) fs ds :
  exists jobId ts job st',
    quickExtract cfg W url (initial fs ds) = (Ret job, st')
    /\ let out := path_join (outputDir cfg)
                    (baseFilename (extractVideoId url) ts +:+ "_audio.wav") in
       let start := [ (Uuidv4, GotString jobId); (DateNow, GotNumber ts) ] in
       (isValidYouTubeUrl url = false
        /\ job = failure "Invalid YouTube URL" None jobId None
        /\ trace st' = start /\ files st' = fs /\ dirs st' = ds)
       \/ (exists e,
             isValidYouTubeUrl url = true
             /\ job = failure "Quick extraction failed" (Some (message e))
                              jobId None
             /\ trace st' = start ++ [ (Mkdir (outputDir cfg), Failed e) ]
             /\ files st' = fs)
       \/ (exists e l,
             isValidYouTubeUrl url = true
             /\ download_failure url out e l
             /\ job = failure "Failed to download audio"
                        (Some (or_else (message e)
                                 "Failed to download audio from YouTube"))
                        jobId None
             /\ trace st' = start ++ [ (Mkdir (outputDir cfg), Done) ]
                              ++ reverse l
             /\ fs ⊆ files st')
       \/ (exists info,
             isValidYouTubeUrl url = true
             /\ job = {| Job.success := true;
                         Job.error := None;
                         Job.details := None;
                         Job.jobId := jobId;
                         Job.videoId := Some (extractVideoId url);
                         Job.metadata := Some (metadata_of info);
                         Job.audioMetadata := None;
                         Job.outputFiles := Some {| wav := out; mp3 := None |};
                         Job.message := Some "Audio downloaded successfully";
                         Job.results := None |}
             /\ trace st' = start
                              ++ [ (Mkdir (outputDir cfg), Done);
                                   (Mkdir (path_dirname out), Done);
                                   (YoutubeDlJson url, GotInfo info);
                                   (YoutubeDlAudio url out, Done) ]
             /\ files st' = {[out]} ∪ fs).
Proof.
  unfold quickExtract, uuidv4, Date_now, initial, trace, ToString, match_receiver.
  cbn [text_of].
  unfold mbind, mret, M_bind, M_ret, try_catch, console_log, console_error.
  step.
  set (jobId := w_uuidv4 W []).
  set (ts := w_now W [(Uuidv4, GotString jobId)]).
  clearbody ts. clearbody jobId.
  exists jobId, ts. cbv zeta.
  destruct (isValidYouTubeUrl url) eqn:Hvalid; step.
  2:{ eexists _, _. split; [reflexivity|]. left. done. }
  unfold fs_mkdir at 1. step.
  destruct (w_mkdir W _ (outputDir cfg)) as [e|]; step.
  { eexists _, _. split; [reflexivity|]. right. left. by exists e. }
  match goal with |- context [downloadAudio W url ?o ?s] =>
    destruct (downloadAudio_run W url o s)
      as [(info & st1 & -> & Hlog1 & Hfiles1)
         |(e & l & left & st1 & -> & Hfail & Hlog1 & Hfiles1)]
  end; step; step_in Hlog1; step_in Hfiles1.
  - eexists _, _. split; [reflexivity|]. right. right. right. exists info.
    step. rewrite Hlog1, Hfiles1. done.
  - eexists _, _. split; [reflexivity|]. right. right. left. exists e, l.
    step. rewrite Hlog1, Hfiles1. split_and!; try done.
    + rewrite reverse_app. reflexivity.
    + apply union_subseteq_r.
Qed.

Section Quick.
Variables (cfg : Config) (W : World) (url : jsval) (fs ds : gset string).

Let run := quickExtract cfg W url (initial fs ds).

(** The file a quick extraction of the reference [s] at [ts] writes. *)
Let out (s : string) (ts : Z) : string :=
  outputDir cfg +:+ "/"
  +:+ job_file_name (or_null (extractVideoId s)) ts "audio.wav".

(** X16.  Whatever it is handed as a reference, [quickExtract] never
    throws, never runs ffmpeg or ffprobe and never deletes a file:
    besides the job id and the clock it asks only for the output
    directory and, for a reference that is a string, for the directory
    of its output file and for youtube-dl; every file that was there
    before is still there.  It succeeds exactly when the reference is a
    string that [isValidYouTubeUrl] accepts and no call failed; then the
    audio is the one file it added, [{id}_{millis}_audio.wav] in the
    output directory, and the result names it as [outputFiles.wav], with
    the metadata of the source and no MP3. *)
Theorem quickExtract_downloads_only :
  exists ts job,
    run.1 = Ret job
    /\ (DateNow, GotNumber ts) ∈ log run.2
    /\ (forall c r, (c, r) ∈ log run.2 ->
          c = Uuidv4 \/ c = DateNow \/ c = Mkdir (outputDir cfg)
          \/ exists s, url = JStr s
                       /\ (c = Mkdir (path_dirname (out s ts))
                           \/ c = YoutubeDlJson s
                           \/ c = YoutubeDlAudio s (out s ts)))
    /\ fs ⊆ files run.2
    /\ (Job.success job = true <->
        (exists s, url = JStr s /\ isValidYouTubeUrl s = true)
        /\ forall c e, (c, Failed e) ∉ log run.2)
    /\ (Job.success job = true ->
        exists s,
          url = JStr s
          /\ files run.2 = {[out s ts]} ∪ fs
          /\ Job.outputFiles job = Some {| wav := out s ts; mp3 := None |}
          /\ Job.videoId job = Some (extractVideoId s)
          /\ exists info,
              (YoutubeDlJson s, GotInfo info) ∈ log run.2
              /\ Job.metadata job = Some (metadata_of info)).
Proof.
  subst run. destruct (is_string url) eqn:Hstr.
  2:{ destruct (quickExtract_other cfg W url fs ds Hstr)
        as (jobId & ts & st' & Hlog & Hf & Hd & ->).
      cbn [fst snd]. eexists ts, _. split; [reflexivity|].
      rewrite Hlog, Hf.
      assert (Job.success
                match text_of url with
                | Some text =>
                    if isValidYouTubeUrl text
                    then failure "Quick extraction failed"
                           (Some "url.match is not a function") jobId None
                    else failure "Invalid YouTube URL" None jobId None
                | None =>
                    failure "Quick extraction failed"
                      (Some "Cannot convert object to primitive value") jobId None
                end = false) as ->.
      { by repeat case_match. }
      split_and!; try done.
      - repeat constructor.
      - intros c r Hin. in_log Hin; simplify_eq; auto.
      - split; [done|]. intros [(s & -> & _) _]. discriminate Hstr. }
  destruct url as [| | | |s| |]; try discriminate Hstr. clear Hstr.
  destruct (quickExtract_run cfg W s fs ds)
    as (jobId & ts & job & st' & -> & H).
  cbv zeta in H. cbn [fst snd]. exists ts, job. split; [done|].
  assert (path_join (outputDir cfg)
            (baseFilename (extractVideoId s) ts +:+ "_audio.wav")
          = out s ts)
    as Hout.
  { unfold out, path_join, baseFilename, job_file_name.
    by rewrite !string_app_assoc. }
  rewrite Hout in H. clear Hout.
  assert (forall x, x ∈ log st' <-> x ∈ trace st') as Hlog.
  { intros x. unfold trace. by rewrite elem_of_reverse. }
  destruct H as [(Hv & -> & Ht & Hf & Hd)|[(e & Hv & -> & Ht & Hf)
                |[(e & l & Hv & Hdl & -> & Ht & Hf)|(info & Hv & -> & Ht & Hf)]]].
  all: try destruct Hdl as [->|[->|[info ->]]].
  all: unfold reverse in Ht; cbn [rev_append app] in Ht.
  all: split; [rewrite Hlog, Ht; rewrite ?elem_of_cons; intuition|].
  all: cbn [Job.success failure Job.outputFiles Job.videoId Job.metadata].
  all: split; [intros c r Hin; rewrite Hlog, Ht in Hin; cbn [reverse app] in Hin;
               in_log Hin; simplify_eq; eauto 10|].
  all: split; [first [done|rewrite Hf; set_unfold; tauto]|].
  all: split.
  all: try (split; [done|]; intros [(s' & [= <-] & Hvalid) Hnone]; exfalso).
  all: try congruence.
  all: try (eapply Hnone; rewrite Hlog, Ht; rewrite ?elem_of_cons; by intuition).
  all: try done.
  - split; [|done]. intros _. split; [by exists s|]. intros c e Hin.
    rewrite Hlog, Ht in Hin. in_log Hin; simplify_eq.
  - intros _. exists s. split_and!; try done.
    exists info. split; [|done]. rewrite Hlog, Ht, ?elem_of_cons. by intuition.
Qed.
End Quick.

Section QuickFailures.
Variables (cfg : Config) (W : World) (url : jsval) (fs ds : gset string).

Let run := quickExtract cfg W url (initial fs ds).

(** X17.  When a call of [quickExtract] fails, it is the last call made
    and the result is a failure that tells the two kinds apart: when the
    output directory cannot be created, the error is
    [Quick extraction failed] with the message of the failure as
    details; when the download fails after that, the error is
    [Failed to download audio] with the error text of [downloadAudio]
    as details. *)
Theorem quickExtract_failure_reports c e :
  (c, Failed e) ∈ log run.2 ->
  exists job,
    run.1 = Ret job
    /\ Job.success job = false
    /\ head (log run.2) = Some (c, Failed e)
    /\ Job.outputFiles job = None
    /\ if bool_decide (length (log run.2) = 3%nat)
       then c = Mkdir (outputDir cfg)
            /\ Job.error job = Some "Quick extraction failed"
            /\ Job.details job = Some (message e)
       else (Mkdir (outputDir cfg), Done) ∈ log run.2
            /\ Job.error job = Some "Failed to download audio"
            /\ Job.details job
               = Some (or_else (message e)
                         "Failed to download audio from YouTube").
Proof.
  subst run. destruct (is_string url) eqn:Hstr.
  2:{ destruct (quickExtract_other cfg W url fs ds Hstr)
        as (jobId & ts & st' & Hlog & _ & _ & ->).
      cbn [fst snd]. rewrite Hlog. intros Hin. in_log Hin; simplify_eq. }
  destruct url as [| | | |s| |]; try discriminate Hstr. clear Hstr.
  destruct (quickExtract_run cfg W s fs ds)
    as (jobId & ts & job & st' & -> & H).
  cbv zeta in H. cbn [fst snd]. intros Hin. exists job. split; [done|].
  assert (log st' = reverse (trace st')) as Hlog.
  { unfold trace. by rewrite reverse_involutive. }
  rewrite Hlog in *. clear Hlog.
  destruct H as [(Hv & -> & Ht & Hf & Hd)|[(e' & Hv & -> & Ht & Hf)
                |[(e' & l & Hv & Hdl & -> & Ht & Hf)|(info & Hv & -> & Ht & Hf)]]].
  all: try destruct Hdl as [->|[->|[info ->]]].
  all: rewrite Ht in *; clear Ht.
  all: unfold reverse in *; cbn [rev_append app] in *.
  all: in_log Hin; simplify_eq.
  all: cbn [Job.success Job.error Job.details Job.outputFiles failure head
            length bool_decide].
  all: split; [done|]; split; [done|]; split; [done|].
  all: try (rewrite bool_decide_eq_true_2 by done; done).
  all: rewrite bool_decide_eq_false_2 by done.
  all: split; [|done]; repeat constructor.
Qed.
End QuickFailures.

(** ** Cleaning up *)

Lemma cleanupTempFiles_missing W p : forall paths st,
  p ∈ paths -> p ∉ files st ->
  exists e,
    (Unlink p, Failed e) ∈ log (cleanupTempFiles W paths st).2
    /\ (LWarn, "Could not delete " +:+ p +:+ ": " +:+ message e)
         ∈ console (cleanupTempFiles W paths st).2.
Proof.
  induction paths as [|q paths IH]; intros st Hin Hout; [by apply elem_of_nil in Hin|].
  cbn [cleanupTempFiles]. unfold fs_unlink.
  unfold mbind, mret, M_bind, M_ret, try_catch, console_log, console_warn.
  apply elem_of_cons in Hin as [<-|Hin].
  - rewrite decide_False by done.
    match goal with |- context [cleanupTempFiles W paths ?s] =>
      destruct (cleanupTempFiles_cleaned W paths s)
        as (st' & -> & unl & Hlog & _ & _ & _ & _ & _ & lines & Hcon) end.
    cbn [snd]. rewrite Hlog, Hcon. eexists. split.
    + apply elem_of_app. right. cbn [log print record]. by left.
    + apply elem_of_app. right. cbn [console print record]. by left.
  - destruct (decide (q ∈ files st));
      [destruct (w_unlink W (log st) q)|]; apply IH; try done;
      cbn [files print record remove_file]; set_unfold; tauto.
Qed.

(** X18.  [cleanupTempFiles] never throws and goes through the whole
    list: each path is asked to be deleted once, in the order of the
    list, whatever happened to the paths before it.  It removes listed
    files only.  For a listed path that was not a file on disk, and for
    every listed file that is still on disk afterwards, a deletion has
    failed, and the failure is reported in a warning that quotes its
    message. *)
Theorem cleanupTempFiles_best_effort W paths st :
  exists st' replies,
    cleanupTempFiles W paths st = (Ret tt, st')
    /\ trace st' = trace st ++ zip (Unlink <$> paths) replies
    /\ length replies = length paths
    /\ dirs st' = dirs st
    /\ files st' ⊆ files st
    /\ (forall p, p ∈ files st -> p ∉ paths -> p ∈ files st')
    /\ (forall p, p ∈ paths -> p ∉ files st \/ p ∈ files st' ->
          exists e, (Unlink p, Failed e) ∈ log st'
                    /\ (LWarn, "Could not delete " +:+ p +:+ ": " +:+ message e)
                         ∈ console st')
    /\ (forall p e, (Unlink p, Failed e) ∈ log st' ->
          (Unlink p, Failed e) ∈ log st
          \/ (LWarn, "Could not delete " +:+ p +:+ ": " +:+ message e)
               ∈ console st').
Proof.
  pose proof (cleanupTempFiles_missing W) as Hmissing.
  destruct (cleanupTempFiles_cleaned W paths st)
    as (st' & Hrun & unl & Hlog & Hcalls & Hkind & Hdirs & Hfiles & Hwarn & _).
  exists st', (snd <$> reverse unl). split; [done|]. split; [|split; [|split; [done|]]].
  - unfold trace. rewrite Hlog, reverse_app. f_equal.
    assert (Unlink <$> paths = fst <$> reverse unl) as ->.
    { by rewrite fmap_reverse, Hcalls, <- fmap_reverse, reverse_involutive. }
    by rewrite zip_fst_snd.
  - rewrite length_fmap, length_reverse.
    apply (f_equal length) in Hcalls. by rewrite !length_fmap, length_reverse in Hcalls.
  - split_and!.
    + intros p Hp. by apply Hfiles in Hp as [Hp _].
    + intros p Hp Hout. apply Hfiles. split; [done|].
      intros (q & [= <-] & Hq)%(unlinks_only _ _ _ _ Hcalls).
      rewrite elem_of_reverse in Hq. by apply Hout.
    + intros p Hin [Hout|[Hp Hleft]%Hfiles].
      { specialize (Hmissing p paths st Hin Hout). by rewrite Hrun in Hmissing. }
      assert (exists r, (Unlink p, r) ∈ unl) as [r Hr].
      { apply elem_of_reverse, (list_elem_of_fmap_2 Unlink) in Hin.
        rewrite <- Hcalls in Hin.
        apply list_elem_of_fmap in Hin as ([c r] & Hc' & Hin). cbn in Hc'. subst c.
        by exists r. }
      destruct (Hkind _ _ Hr) as [->|[e ->]]; [done|].
      exists e. split; [|by apply Hwarn]. rewrite Hlog. apply elem_of_app. by left.
    + intros p e Hin. rewrite Hlog in Hin.
      apply elem_of_app in Hin as [Hin|Hin]; [right; by apply Hwarn|by left].
Qed.

(** ** The console is write-only *)

Lemma same_world_refl st : same_world st st.
Proof. done. Qed.

Lemma same_world_print l msg st1 st2 :
  same_world st1 st2 -> same_world (print l msg st1) st2.
Proof. done. Qed.

Section Blind.
Context {A B : Type}.

Lemma blind_ret (a : A) : console_blind (mret a).
Proof. intros st1 st2 H. done. Qed.

Lemma blind_throw (e : Error) : console_blind (throw (A:=A) e).
Proof. intros st1 st2 H. done. Qed.

Lemma blind_bind (m : M A) (f : A -> M B) :
  console_blind m -> (forall a, console_blind (f a)) ->
  console_blind (m ≫= f).
Proof.
  intros Hm Hf st1 st2 H. unfold mbind, M_bind.
  destruct (Hm st1 st2 H) as [Ho Hs].
  destruct (m st1) as [[a1|e1] s1], (m st2) as [[a2|e2] s2];
    cbn [fst snd] in *; simplify_eq; [|done].
  by apply Hf.
Qed.

Lemma blind_try_catch (m : M A) (h : Error -> M A) :
  console_blind m -> (forall e, console_blind (h e)) ->
  console_blind (try_catch m h).
Proof.
  intros Hm Hh st1 st2 H. unfold try_catch.
  destruct (Hm st1 st2 H) as [Ho Hs].
  destruct (m st1) as [[a1|e1] s1], (m st2) as [[a2|e2] s2];
    cbn [fst snd] in *; simplify_eq; [done|].
  by apply Hh.
Qed.
End Blind.

Lemma blind_console l msg :
  console_blind (fun st => (Ret tt, print l msg st)).
Proof. intros st1 st2 H. done. Qed.

Ltac blind_call :=
  let st1 := fresh "st1" in
  let st2 := fresh "st2" in
  let Hl := fresh "Hl" in
  let Hf := fresh "Hf" in
  let Hd := fresh "Hd" in
  intros st1 st2 (Hl & Hf & Hd); rewrite Hl;
  repeat case_match; cbn [fst snd]; (split; [done|]);
  unfold same_world;
  cbn [log files dirs record add_file add_files add_dir remove_file];
  rewrite ?Hl, ?Hf, ?Hd; done.

Lemma blind_uuidv4 W : console_blind (uuidv4 W).
Proof. unfold uuidv4. blind_call. Qed.

Lemma blind_Date_now W : console_blind (Date_now W).
Proof. unfold Date_now. blind_call. Qed.

Lemma blind_fs_mkdir W dir : console_blind (fs_mkdir W dir).
Proof. unfold fs_mkdir. blind_call. Qed.

Lemma blind_youtubedl_json W url : console_blind (youtubedl_json W url).
Proof. unfold youtubedl_json. blind_call. Qed.

Lemma blind_youtubedl_audio W url out : console_blind (youtubedl_audio W url out).
Proof. unfold youtubedl_audio. blind_call. Qed.

Lemma blind_youtubedl_document D url : console_blind (youtubedl_document D url).
Proof. unfold youtubedl_document. blind_call. Qed.

Lemma blind_ffmpeg_run W cmd : console_blind (ffmpeg_run W cmd).
Proof. unfold ffmpeg_run. blind_call. Qed.

Lemma blind_ffprobe W file : console_blind (ffprobe W file).
Proof. unfold ffprobe. blind_call. Qed.

Lemma blind_fs_unlink W file : console_blind (fs_unlink W file).
Proof.
  unfold fs_unlink. intros st1 st2 (Hl & Hf & Hd). rewrite Hl, Hf.
  repeat case_match; cbn [fst snd]; (split; [done|]);
  unfold same_world; cbn [log files dirs record remove_file];
  rewrite ?Hl, ?Hf, ?Hd; done.
Qed.

(** Follow the structure of a computation down to the calls. *)
Ltac blind :=
  repeat first
    [ apply blind_ret | apply blind_throw | apply blind_console
    | apply blind_uuidv4 | apply blind_Date_now | apply blind_fs_mkdir
    | apply blind_youtubedl_json | apply blind_youtubedl_audio
    | apply blind_youtubedl_document
    | apply blind_ffmpeg_run | apply blind_ffprobe | apply blind_fs_unlink
    | apply blind_bind; [|intros ?]
    | apply blind_try_catch; [|intros ?]
    | match goal with
      | |- console_blind (if ?b then _ else _) => destruct b
      | |- console_blind (match ?x with _ => _ end) => destruct x
      end
    | progress cbv zeta
    | assumption ].

Lemma blind_downloadAudio W url out : console_blind (downloadAudio W url out).
Proof. unfold downloadAudio, console_log, console_error. blind. Qed.

Lemma blind_resolved r out done_msg error_msg :
  console_blind (resolved r out done_msg error_msg).
Proof. unfold resolved, console_log, console_error. blind. Qed.

Lemma blind_cleanupTempFiles W paths : console_blind (cleanupTempFiles W paths).
Proof.
  induction paths as [|p paths IH]; cbn [cleanupTempFiles];
    unfold console_log, console_warn; blind.
Qed.

Lemma blind_getAudioMetadata W file : console_blind (getAudioMetadata W file).
Proof. unfold getAudioMetadata, console_error. blind. Qed.

Lemma blind_ToString v : console_blind (ToString v).
Proof. unfold ToString. blind. Qed.

Lemma blind_match_receiver v : console_blind (match_receiver v).
Proof. unfold match_receiver. blind. Qed.

Lemma blind_extractAndCleanAudio cfg W url cleanup :
  console_blind (extractAndCleanAudio cfg W url cleanup).
Proof.
  pose proof blind_downloadAudio. pose proof blind_resolved.
  pose proof blind_cleanupTempFiles. pose proof blind_getAudioMetadata.
  pose proof blind_ToString. pose proof blind_match_receiver.
  unfold extractAndCleanAudio, extractRawAudio, applyNoiseReduction,
    enhanceVocals, convertFormat, console_log, console_error.
  blind; auto.
Qed.

Lemma blind_quickExtract cfg W url : console_blind (quickExtract cfg W url).
Proof.
  pose proof blind_downloadAudio.
  pose proof blind_ToString. pose proof blind_match_receiver.
  unfold quickExtract, console_log, console_error. blind; auto.
Qed.

Lemma blind_getVideoInfo D url : console_blind (getVideoInfo D url).
Proof. unfold getVideoInfo, console_error. blind. Qed.

(** ** The request handlers *)

Lemma getVideoInfo_run D url st :
  exists r st',
    getVideoInfo D url st = (Ret r, st')
    /\ log st' = (YoutubeDlJson url,
                  match D (log st) url with
                  | inr d => GotInfo (as_info d)
                  | inl e => Failed e
                  end) :: log st
    /\ files st' = files st /\ dirs st' = dirs st
    /\ match D (log st) url with
       | inr d =>
           Info.success r = true /\ Info.error r = None
           /\ exists i, Info.info r = Some i /\ Info.id i = doc_id d
                        /\ Info.title i = doc_title d
       | inl e =>
           Info.success r = false /\ Info.info r = None
           /\ Info.error r
              = Some (or_else (message e) "Failed to retrieve video information")
       end.
Proof.
  unfold getVideoInfo, youtubedl_document.
  unfold mbind, mret, M_bind, M_ret, try_catch, console_error.
  destruct (D (log st) url) as [e|d]; eexists _, _; (split; [reflexivity|]).
  - done.
  - split_and!; try done. by eexists.
Qed.

Section HandlerRuns.
Variables (cfg : Config) (W : World) (D : Documents).
Variables (fs ds : gset string).

Lemma quickExtract_returns (url : jsval) :
  exists job st, quickExtract cfg W url (initial fs ds) = (Ret job, st).
Proof.
  destruct (is_string url) eqn:Hstr.
  - destruct url; try discriminate Hstr.
    destruct (quickExtract_run cfg W s fs ds) as (jobId & ts & job & st & Hrun & _).
    eauto.
  - destruct (quickExtract_other cfg W url fs ds Hstr)
      as (jobId & ts & st & _ & _ & _ & Hrun). eauto.
Qed.

(** What a handler does with a request that names a reference: the
    service runs as if it had been called first, and its result is the
    body of the response. *)
Lemma extractAudio_run b text :
  ToBoolean (body_url b) = true -> text_of (body_url b) = Some text ->
  exists job st0 st',
    extractAndCleanAudio cfg W (body_url b)
      (or_true (body_cleanupTemp b)) (initial fs ds)
    = (Ret job, st0)
    /\ audioController.extractAudio cfg W (Some b) (initial fs ds)
       = (Ret {| status := if Job.success job then 200 else 400;
                 json := JobResult job |}, st')
    /\ same_world st' st0.
Proof.
  intros Hb Ht.
  destruct (extractAndCleanAudio_returns cfg W (body_url b)
              (or_true (body_cleanupTemp b)) fs ds text Ht)
    as (job & st0 & Hrun).
  exists job, st0.
  unfold audioController.extractAudio, destructure, ToString.
  unfold mbind, mret, M_bind, M_ret, try_catch, console_log.
  rewrite Hb, Ht. cbn [negb].
  match goal with |- context [extractAndCleanAudio _ _ _ _ (print ?l ?m ?st)] =>
    destruct (blind_extractAndCleanAudio cfg W (body_url b)
                (or_true (body_cleanupTemp b))
                (print l m st) (initial fs ds)) as [Ho Hs]; [done|];
    destruct (extractAndCleanAudio cfg W (body_url b) _ (print l m st))
      as [o st'] end.
  rewrite Hrun in Ho, Hs. cbn [fst snd] in Ho, Hs. subst o.
  exists st'. split; [done|]. by destruct (Job.success job).
Qed.

Lemma quickExtract_handler_run b text :
  ToBoolean (body_url b) = true -> text_of (body_url b) = Some text ->
  exists job st0 st',
    quickExtract cfg W (body_url b) (initial fs ds) = (Ret job, st0)
    /\ audioController.quickExtract cfg W (Some b) (initial fs ds)
       = (Ret {| status := if Job.success job then 200 else 400;
                 json := JobResult job |}, st')
    /\ same_world st' st0.
Proof.
  intros Hb Ht.
  destruct (quickExtract_returns (body_url b)) as (job & st0 & Hrun).
  exists job, st0.
  unfold audioController.quickExtract, destructure, ToString.
  unfold mbind, mret, M_bind, M_ret, try_catch, console_log.
  rewrite Hb, Ht. cbn [negb].
  match goal with |- context [quickExtract _ _ _ (print ?l ?m ?st)] =>
    destruct (blind_quickExtract cfg W (body_url b) (print l m st)
                (initial fs ds)) as [Ho Hs]; [done|];
    destruct (quickExtract cfg W (body_url b) (print l m st)) as [o st'] end.
  rewrite Hrun in Ho, Hs. cbn [fst snd] in Ho, Hs. subst o.
  exists st'. split; [done|]. by destruct (Job.success job).
Qed.

Lemma getVideoInfo_handler_run b text :
  ToBoolean (body_url b) = true -> text_of (body_url b) = Some text ->
  exists r st0 st',
    getVideoInfo D (body_url b) (initial fs ds) = (Ret r, st0)
    /\ audioController.getVideoInfo D (Some b) (initial fs ds)
       = (Ret {| status := if Info.success r then 200 else 400;
                 json := InfoResult r |}, st')
    /\ same_world st' st0.
Proof.
  intros Hb Ht.
  destruct (getVideoInfo_run D (body_url b) (initial fs ds))
    as (r & st0 & Hrun & _).
  exists r, st0.
  unfold audioController.getVideoInfo, destructure,
    AudioExtractionService.getVideoInfo, ToString.
  unfold mbind, mret, M_bind, M_ret, try_catch, console_log.
  rewrite Hb, Ht. cbn [negb].
  match goal with |- context [getVideoInfo _ _ (print ?l ?m ?st)] =>
    destruct (blind_getVideoInfo D (body_url b) (print l m st)
                (initial fs ds)) as [Ho Hs]; [done|];
    destruct (getVideoInfo D (body_url b) (print l m st)) as [o st'] end.
  rewrite Hrun in Ho, Hs. cbn [fst snd] in Ho, Hs. subst o.
  exists st'. split; [done|]. by destruct (Info.success r).
Qed.
End HandlerRuns.

Section Endpoints.
Variables (cfg : Config) (W : World) (D : Documents).
Variables (fs ds : gset string).

(** A request the handlers answer themselves: without a body, without
    a reference, or with one that cannot be converted to text. *)
Ltac without_reference :=
  unfold audioController.extractAudio, audioController.quickExtract,
    audioController.getVideoInfo, destructure, ToString, throw;
  unfold mbind, mret, M_bind, M_ret, try_catch, console_error;
  repeat match goal with
         | H : ToBoolean _ = _ |- _ => rewrite H
         | H : text_of _ = _ |- _ => rewrite H
         end;
  cbn [negb];
  eexists _, _; (split; [reflexivity|]);
  cbn [status json missing_url internal_error log files dirs print initial
       message].

(** X19.  POST /api/extract answers 200, 400 or 500.  It answers 500
    exactly when the request has no body or its [url] is truthy and
    cannot be converted to text, and 200 exactly when the body of the
    response is the result of a job that succeeded, which takes a [url]
    that is a string.  A job result in the response is what
    [extractAndCleanAudio] returns for the [url] of the request, as it
    came, and its [cleanupTemp], [true] when the request has none; every
    other request is answered before anything is asked of the services:
    one without a [url], or with a falsy one, with 400. *)
Theorem extractAudio_status body :
  exists resp st',
    audioController.extractAudio cfg W body (initial fs ds) = (Ret resp, st')
    /\ (status resp = 200 \/ status resp = 400 \/ status resp = 500)
    /\ (status resp = 500 <->
        body = None
        \/ exists b, body = Some b /\ ToBoolean (body_url b) = true
                     /\ text_of (body_url b) = None)
    /\ (status resp = 200 <->
        exists job, json resp = JobResult job /\ Job.success job = true)
    /\ (status resp = 200 ->
        exists b, body = Some b /\ is_string (body_url b) = true)
    /\ (forall job, json resp = JobResult job ->
          exists b st0,
            body = Some b /\ ToBoolean (body_url b) = true
            /\ extractAndCleanAudio cfg W (body_url b)
                 (or_true (body_cleanupTemp b)) (initial fs ds)
               = (Ret job, st0)
            /\ same_world st' st0)
    /\ (forall error details, json resp = Problem error details ->
          log st' = [] /\ files st' = fs /\ dirs st' = ds
          /\ (status resp = 500 /\ error = "Internal server error"
              \/ exists b,
                  body = Some b /\ ToBoolean (body_url b) = false
                  /\ resp = missing_url)).
Proof.
  destruct body as [b|].
  2:{ without_reference. split_and!.
      - auto.
      - split; [by left|done].
      - split; [done|]. by intros (job & [=] & _).
      - done.
      - by intros job [=].
      - intros error details [= <- <-]. split_and!; try done. by left. }
  destruct (ToBoolean (body_url b)) eqn:Hb.
  2:{ without_reference. split_and!.
      - auto.
      - split; [done|]. intros [[=]|(b' & [= <-] & Hb' & _)]. congruence.
      - split; [done|]. by intros (job & [=] & _).
      - done.
      - by intros job [=].
      - intros error details [= <- <-]. split_and!; try done. right. eauto. }
  destruct (text_of (body_url b)) as [text|] eqn:Ht.
  2:{ without_reference. split_and!.
      - auto.
      - split; [|done]. intros _. right. eauto.
      - split; [done|]. by intros (job & [=] & _).
      - done.
      - by intros job [=].
      - intros error details [= <- <-]. split_and!; try done. by left. }
  destruct (extractAudio_run cfg W fs ds b text Hb Ht)
    as (job & st0 & st' & Hrun & -> & Hs).
  eexists _, st'. split; [reflexivity|]. cbn [status json].
  split_and!.
  - destruct (Job.success job); auto.
  - split; [by destruct (Job.success job)|].
    intros [[=]|(b' & [= <-] & _ & Hno)]. congruence.
  - split.
    + destruct (Job.success job) eqn:E; [|done]. by exists job.
    + intros (job' & [= <-] & ->). done.
  - destruct (Job.success job) eqn:E; [|done]. intros _. exists b. split; [done|].
    destruct (is_string (body_url b)) eqn:Hstr; [done|]. exfalso.
    destruct (extractAndCleanAudio_other cfg W (body_url b)
                (or_true (body_cleanupTemp b)) fs ds Hstr)
      as (jobId & ts & st1 & _ & _ & _ & Hrun').
    rewrite Hrun, Ht in Hrun'. simplify_eq.
    destruct (isValidYouTubeUrl text); discriminate E.
  - intros job' [= <-]. by exists b, st0.
  - done.
Qed.

Lemma or_true_disables v :
  strict_neq_false (or_true v) = false <-> v = JBool false.
Proof. destruct v as [| |[]| | | |]; cbn; split; congruence. Qed.

(** X20.  Through POST /api/extract, intermediate files are deleted
    unless the request says [cleanupTemp: false]: a request deletes
    files only if it is answered 200 and its [cleanupTemp] is not
    [false], and every request that is answered 200 and whose
    [cleanupTemp] is anything but [false] (absent, [true], but also
    [null], a number or a string) asks for each of the three
    intermediate files of its job to be deleted. *)
Theorem cleanupTemp_defaults_to_true b u :
  body_url b = JStr u -> u <> "" ->
  let run := audioController.extractAudio cfg W (Some b) (initial fs ds) in
  exists resp,
    run.1 = Ret resp
    /\ ((exists p r, (Unlink p, r) ∈ log run.2) ->
        status resp = 200 /\ body_cleanupTemp b <> JBool false)
    /\ (status resp = 200 -> body_cleanupTemp b <> JBool false ->
        exists ts,
          (DateNow, GotNumber ts) ∈ log run.2
          /\ forall p, p ∈ intermediates cfg u ts ->
                exists r, (Unlink p, r) ∈ log run.2).
Proof.
  intros Hurl Hne. cbv zeta.
  assert (ToBoolean (body_url b) = true) as Hb.
  { rewrite Hurl. cbn. by destruct u. }
  assert (text_of (body_url b) = Some u) as Ht by by rewrite Hurl.
  destruct (extractAudio_run cfg W fs ds b u Hb Ht)
    as (job & st0 & st' & Hrun0 & -> & (Hl & _)).
  rewrite Hurl in Hrun0.
  cbn [fst snd status]. rewrite Hl. clear Hl st'.
  eexists. split; [done|]. cbn [status].
  pose proof (f_equal fst Hrun0) as Hjob. pose proof (f_equal snd Hrun0) as Hst.
  cbn [fst snd] in Hjob, Hst. rewrite <- Hst. clear Hrun0 Hst st0. revert Hjob.
  job_cases cfg W u (or_true (body_cleanupTemp b)) fs ds.
  all: intros [= <-]; cbn [Job.success failure].
  all: try (split; [intros (p & r & Hin); in_log Hin; simplify_eq|done]).
  - split.
    + intros _. split; [done|]. intros Hoff. apply or_true_disables in Hoff. congruence.
    + intros _ _. eexists. split; [apply elem_of_app; right; repeat constructor|].
      intros p Hp.
      apply elem_of_reverse, (list_elem_of_fmap_2 Unlink) in Hp.
      rewrite <- Hcalls in Hp.
      apply list_elem_of_fmap in Hp as ([c r] & Hc' & Hin). cbn in Hc'. subst c.
      exists r. apply elem_of_app. by left.
  - apply or_true_disables in Hc. split.
    + intros (p & r & Hin). in_log Hin; simplify_eq.
    + done.
Qed.

(** X21.  POST /api/video-info does not validate the reference: for a
    request whose [url] is truthy and can be converted to text (a string
    that is not empty, whatever it looks like, but also a number or an
    array), the one call made is youtube-dl's for the document of that
    [url], handed over as it came, and nothing is written.  The answer is
    200 with the information when youtube-dl returns a document, 400 with
    [success: false] when it fails. *)
Theorem video_info_endpoint_asks_youtube_dl b text :
  let url := body_url b in
  ToBoolean url = true -> text_of url = Some text ->
  exists resp st' r,
    audioController.getVideoInfo D (Some b) (initial fs ds) = (Ret resp, st')
    /\ json resp = InfoResult r
    /\ files st' = fs /\ dirs st' = ds
    /\ match D [] url with
       | inr d =>
           log st' = [(YoutubeDlJson url, GotInfo (as_info d))]
           /\ status resp = 200 /\ Info.success r = true
           /\ exists i, Info.info r = Some i /\ Info.id i = doc_id d
                        /\ Info.title i = doc_title d
       | inl e =>
           log st' = [(YoutubeDlJson url, Failed e)]
           /\ status resp = 400 /\ Info.success r = false
           /\ Info.error r
              = Some (or_else (message e) "Failed to retrieve video information")
       end.
Proof.
  cbv zeta. intros Hb Ht.
  destruct (getVideoInfo_handler_run D fs ds b text Hb Ht)
    as (r & st0 & st' & Hrun0 & -> & (Hl & Hf & Hd)).
  destruct (getVideoInfo_run D (body_url b) (initial fs ds))
    as (r' & st0' & Hrun & Hlog & Hfiles & Hdirs & Hres).
  rewrite Hrun0 in Hrun. simplify_eq.
  eexists _, st', _. split; [done|]. split; [done|].
  rewrite Hl, Hf, Hd, Hlog, Hfiles, Hdirs. cbn [initial log files dirs status] in *.
  split; [done|]. split; [done|].
  destruct (D [] (body_url b)) as [e|d].
  - destruct Hres as (-> & _ & ->). done.
  - destruct Hres as (-> & _ & Hi). done.
Qed.

(** X22.  POST /api/quick-extract answers 200, 400 or 500.  It answers
    500 exactly when the request has no body or its [url] is truthy and
    cannot be converted to text, and 200 exactly when the body of the
    response is the result of a quick extraction that succeeded, which
    takes a [url] that is a string.  A job result in the response is
    what [quickExtract] returns for the [url] of the request, as it came;
    every other request is answered before anything is asked of the
    services: one without a [url], or with a falsy one, with 400. *)
Theorem quickExtract_status body :
  exists resp st',
    audioController.quickExtract cfg W body (initial fs ds) = (Ret resp, st')
    /\ (status resp = 200 \/ status resp = 400 \/ status resp = 500)
    /\ (status resp = 500 <->
        body = None
        \/ exists b, body = Some b /\ ToBoolean (body_url b) = true
                     /\ text_of (body_url b) = None)
    /\ (status resp = 200 <->
        exists job, json resp = JobResult job /\ Job.success job = true)
    /\ (status resp = 200 ->
        exists b, body = Some b /\ is_string (body_url b) = true)
    /\ (forall job, json resp = JobResult job ->
          exists b st0,
            body = Some b /\ ToBoolean (body_url b) = true
            /\ quickExtract cfg W (body_url b) (initial fs ds) = (Ret job, st0)
            /\ same_world st' st0)
    /\ (forall error details, json resp = Problem error details ->
          log st' = [] /\ files st' = fs /\ dirs st' = ds
          /\ (status resp = 500 /\ error = "Internal server error"
              \/ exists b,
                  body = Some b /\ ToBoolean (body_url b) = false
                  /\ resp = missing_url)).
Proof.
  destruct body as [b|].
  2:{ without_reference. split_and!.
      - auto.
      - split; [by left|done].
      - split; [done|]. by intros (job & [=] & _).
      - done.
      - by intros job [=].
      - intros error details [= <- <-]. split_and!; try done. by left. }
  destruct (ToBoolean (body_url b)) eqn:Hb.
  2:{ without_reference. split_and!.
      - auto.
      - split; [done|]. intros [[=]|(b' & [= <-] & Hb' & _)]. congruence.
      - split; [done|]. by intros (job & [=] & _).
      - done.
      - by intros job [=].
      - intros error details [= <- <-]. split_and!; try done. right. eauto. }
  destruct (text_of (body_url b)) as [text|] eqn:Ht.
  2:{ without_reference. split_and!.
      - auto.
      - split; [|done]. intros _. right. eauto.
      - split; [done|]. by intros (job & [=] & _).
      - done.
      - by intros job [=].
      - intros error details [= <- <-]. split_and!; try done. by left. }
  destruct (quickExtract_handler_run cfg W fs ds b text Hb Ht)
    as (job & st0 & st' & Hrun & -> & Hs).
  eexists _, st'. split; [reflexivity|]. cbn [status json].
  split_and!.
  - destruct (Job.success job); auto.
  - split; [by destruct (Job.success job)|].
    intros [[=]|(b' & [= <-] & _ & Hno)]. congruence.
  - split.
    + destruct (Job.success job) eqn:E; [|done]. by exists job.
    + intros (job' & [= <-] & ->). done.
  - destruct (Job.success job) eqn:E; [|done]. intros _. exists b. split; [done|].
    destruct (is_string (body_url b)) eqn:Hstr; [done|]. exfalso.
    destruct (quickExtract_other cfg W (body_url b) fs ds Hstr)
      as (jobId & ts & st1 & _ & _ & _ & Hrun').
    rewrite Hrun, Ht in Hrun'. simplify_eq.
    destruct (isValidYouTubeUrl text); discriminate E.
  - intros job' [= <-]. by exists b, st0.
  - done.
Qed.
End Endpoints.

(** ** Invalid references at the endpoints *)

Section InvalidReference.
Variables (cfg : Config) (W : World) (fs ds : gset string).

(** X23.  A request whose [url] is truthy and converts to a text that
    is not a valid reference (a string that is not empty and not valid,
    but also a number or an object) is answered 400 by POST /api/extract
    and by POST /api/quick-extract, with the result [Invalid YouTube URL]
    of the service as body; a job id was drawn and the clock was read,
    nothing else was called, and no file or directory was created. *)
Theorem job_endpoints_reject_invalid_reference b text :
  ToBoolean (body_url b) = true -> text_of (body_url b) = Some text ->
  isValidYouTubeUrl text = false ->
  let rejected resp st' :=
    exists jobId ts,
      resp = {| status := 400;
                json := JobResult (failure "Invalid YouTube URL" None jobId None) |}
      /\ trace st' = [ (Uuidv4, GotString jobId); (DateNow, GotNumber ts) ]
      /\ files st' = fs /\ dirs st' = ds in
  (exists resp st',
      audioController.extractAudio cfg W (Some b) (initial fs ds) = (Ret resp, st')
      /\ rejected resp st')
  /\ (exists resp st',
         audioController.quickExtract cfg W (Some b) (initial fs ds)
         = (Ret resp, st')
         /\ rejected resp st').
Proof.
  intros Hb Ht Hbad. cbv zeta. split.
  - destruct (extractAudio_run cfg W fs ds b text Hb Ht)
      as (job & st0 & st' & Hrun0 & -> & (Hl & Hf & Hd)).
    eexists _, st'. split; [reflexivity|].
    unfold trace. rewrite Hl, Hf, Hd.
    destruct (is_string (body_url b)) eqn:Hstr.
    + destruct (body_url b) as [| | | |s| |] eqn:Hurl; try discriminate Hstr.
      cbn in Ht. simplify_eq.
      destruct (extractAndCleanAudio_outcome cfg W text
                  (or_true (body_cleanupTemp b)) fs ds)
        as (jobId & ts & job' & st0' & Hrun & Hout).
      rewrite Hrun0 in Hrun. simplify_eq.
      destruct Hout; try congruence.
      exists jobId, ts. split_and!; try done.
      match goal with H : log _ = _ |- _ => rewrite H end. reflexivity.
    + destruct (extractAndCleanAudio_other cfg W (body_url b)
                  (or_true (body_cleanupTemp b)) fs ds Hstr)
        as (jobId & ts & st1 & Hlog & Hfs & Hds & Hrun).
      rewrite Hrun0, Ht, Hbad in Hrun. simplify_eq.
      exists jobId, ts. rewrite Hlog. done.
  - destruct (quickExtract_handler_run cfg W fs ds b text Hb Ht)
      as (job & st0 & st' & Hrun0 & -> & (Hl & Hf & Hd)).
    eexists _, st'. split; [reflexivity|].
    unfold trace. rewrite Hl, Hf, Hd.
    destruct (is_string (body_url b)) eqn:Hstr.
    + destruct (body_url b) as [| | | |s| |] eqn:Hurl; try discriminate Hstr.
      cbn in Ht. simplify_eq.
      destruct (quickExtract_run cfg W text fs ds)
        as (jobId & ts & job' & st0' & Hrun & H).
      rewrite Hrun0 in Hrun. simplify_eq. cbv zeta in H.
      destruct H as [(_ & -> & Htr & Hfs & Hds)|[(e & Hv & _)
                    |[(e & l & Hv & _)|(info & Hv & _)]]]; try congruence.
      exists jobId, ts. unfold trace in Htr.
      apply (f_equal reverse) in Htr. rewrite reverse_involutive in Htr.
      rewrite Htr. done.
    + destruct (quickExtract_other cfg W (body_url b) fs ds Hstr)
        as (jobId & ts & st1 & Hlog & Hfs & Hds & Hrun).
      rewrite Hrun0, Ht, Hbad in Hrun. simplify_eq.
      exists jobId, ts. rewrite Hlog. done.
Qed.
End InvalidReference.

(** ** More sample runs *)

(** An array that holds a valid reference passes the validation and is
    stopped by [url.match]. *)
Lemma unexpected_error_comes_first_witness :
  let run := extractAndCleanAudio Sample.cfg Sample.fine
               (JArr [JStr Sample.url]) JUndefined (initial ∅ ∅) in
  exists job,
    run.1 = Ret job
    /\ Job.error job = Some "Unexpected error during audio extraction"
    /\ Job.details job = Some "url.match is not a function"
    /\ files run.2 = ∅.
Proof.
  cbv zeta. eexists. split; [vm_compute; reflexivity|].
  split; [reflexivity|]. split; [reflexivity|].
  exact (proj1 (unexpected_error_comes_first Sample.cfg Sample.fine
                  (JArr [JStr Sample.url]) JUndefined ∅ ∅ _ eq_refl eq_refl)).
Defined.

(** An object with a [toString] of its own, which JSON cannot make a
    function, has no text. *)
Lemma job_throws_on_unconvertible_reference_witness :
  let url := JObj [("toString", JNull)] in
  let run := extractAndCleanAudio Sample.cfg Sample.fine url JUndefined
               (initial ∅ ∅) in
  text_of url = None
  /\ run.1 = Throw {| message := "Cannot convert object to primitive value" |}.
Proof.
  cbv zeta. split; [reflexivity|].
  exact (proj1 (proj2 (job_throws_on_unconvertible_reference Sample.cfg
                         Sample.fine (JObj [("toString", JNull)]) JUndefined
                         ∅ ∅) eq_refl)).
Defined.

Lemma job_never_removes_silence_witness :
  let run := extractAndCleanAudio Sample.cfg Sample.fine Sample.url
               JUndefined (initial ∅ ∅) in
  let cmd := noise_command Sample.cfg
               (stage_output Sample.cfg Sample.url Sample.millis Extract)
               (stage_output Sample.cfg Sample.url Sample.millis NoiseReduction) in
  (Ffmpeg cmd, Done) ∈ log run.2
  /\ cmd <> silence_command Sample.cfg
              (stage_output Sample.cfg Sample.url Sample.millis Extract)
              (stage_output Sample.cfg Sample.url Sample.millis NoiseReduction).
Proof.
  cbv zeta.
  assert ((Ffmpeg (noise_command Sample.cfg
                     (stage_output Sample.cfg Sample.url Sample.millis Extract)
                     (stage_output Sample.cfg Sample.url Sample.millis
                        NoiseReduction)), Done)
            ∈ log (extractAndCleanAudio Sample.cfg Sample.fine Sample.url
                     JUndefined (initial ∅ ∅)).2) as H by in_run_log.
  split; [exact H|].
  exact (job_never_removes_silence Sample.cfg Sample.fine Sample.url JUndefined
           ∅ ∅ _ _ _ _ H).
Defined.

Lemma job_stays_in_its_directories_witness :
  let run := extractAndCleanAudio Sample.cfg Sample.fine Sample.url
               JUndefined (initial ∅ ∅) in
  let raw := stage_output Sample.cfg Sample.url Sample.millis Download in
  (YoutubeDlAudio Sample.url raw, Done) ∈ log run.2
  /\ (path_dirname raw = "/app/temp" \/ path_dirname raw = "/app/output").
Proof.
  cbv zeta.
  assert ((YoutubeDlAudio Sample.url
             (stage_output Sample.cfg Sample.url Sample.millis Download), Done)
            ∈ log (extractAndCleanAudio Sample.cfg Sample.fine Sample.url
                     JUndefined (initial ∅ ∅)).2) as H by in_run_log.
  split; [exact H|].
  exact (job_stays_in_its_directories "/app" Sample.fine Sample.url JUndefined
           ∅ ∅ _ _ H).
Defined.

Lemma quickExtract_failure_reports_witness :
  let run := quickExtract Sample.cfg Catalogue.read_only Sample.url
               (initial ∅ ∅) in
  (Mkdir "/app/output", Failed Sample.boom) ∈ log run.2
  /\ exists job,
      run.1 = Ret job /\ Job.success job = false
      /\ Job.outputFiles job = None.
Proof.
  cbv zeta.
  assert ((Mkdir "/app/output", Failed Sample.boom)
            ∈ log (quickExtract Sample.cfg Catalogue.read_only Sample.url
                     (initial ∅ ∅)).2) as H by in_run_log.
  split; [exact H|].
  destruct (quickExtract_failure_reports Sample.cfg Catalogue.read_only
              Sample.url ∅ ∅ _ _ H) as (job & Hrun & Hs & _ & Ho & _).
  exists job. split; [exact Hrun|]. split; [exact Hs|exact Ho].
Defined.

Lemma cleanupTemp_defaults_to_true_witness :
  let b := {| body_url := JStr Sample.url;
              body_cleanupTemp := JNull |} in
  let run := audioController.extractAudio Sample.cfg Sample.fine (Some b)
               (initial ∅ ∅) in
  exists resp,
    run.1 = Ret resp
    /\ ((exists p r, (Unlink p, r) ∈ log run.2) ->
        status resp = 200).
Proof.
  cbv zeta.
  destruct (cleanupTemp_defaults_to_true Sample.cfg Sample.fine ∅ ∅
              {| body_url := JStr Sample.url;
                 body_cleanupTemp := JNull |}
              Sample.url eq_refl)
    as (resp & Hrun & Honly & _); [discriminate|].
  exists resp. split; [exact Hrun|]. intros H. exact (proj1 (Honly H)).
Defined.

(** A number is handed to youtube-dl as it is. *)
Lemma video_info_endpoint_asks_youtube_dl_witness :
  exists resp st' r,
    audioController.getVideoInfo Catalogue.online
      (Some {| body_url := JNum "42"; body_cleanupTemp := JUndefined |})
      (initial ∅ ∅) = (Ret resp, st')
    /\ json resp = InfoResult r
    /\ log st' = [(YoutubeDlJson (JNum "42"), GotInfo (as_info Catalogue.document))].
Proof.
  destruct (video_info_endpoint_asks_youtube_dl Catalogue.online ∅ ∅
              {| body_url := JNum "42"; body_cleanupTemp := JUndefined |}
              "42" eq_refl eq_refl)
    as (resp & st' & r & Hrun & Hjson & _ & _ & Hlog & _).
  exists resp, st', r. split; [exact Hrun|]. split; [exact Hjson|exact Hlog].
Defined.

(** An object is rejected by the text it converts to. *)
Lemma job_endpoints_reject_invalid_reference_witness :
  exists resp st',
    audioController.extractAudio Sample.cfg Sample.fine
      (Some {| body_url := JObj [("v", JStr "4wtgz5KLwOU")];
               body_cleanupTemp := JUndefined |}) (initial ∅ ∅)
    = (Ret resp, st')
    /\ status resp = 400 /\ files st' = ∅.
Proof.
  destruct (job_endpoints_reject_invalid_reference Sample.cfg Sample.fine ∅ ∅
              {| body_url := JObj [("v", JStr "4wtgz5KLwOU")];
                 body_cleanupTemp := JUndefined |}
              "[object Object]" eq_refl eq_refl)
    as [(resp & st' & Hrun & jobId & ts & -> & _ & Hfiles & _) _].
  - vm_compute. reflexivity.
  - eexists _, st'. split; [exact Hrun|]. split; [reflexivity|exact Hfiles].
Defined.
